(** * Browsing-context lifetime: a shallow embedding

    The development follows four pieces of the tree:

    - [NBrowsingContext]: docshell/base/NBrowsingContext.cpp, the
      hand-written [AddRef]/[Release] pair and [Die]/[DieInternal];
    - [BrowsingContext]: the linked-list based class with the process-wide
      registry, [GetOrCreate], [Attach] and [Detach];
    - [RelatedContextSet]: docshell/base/RelatedContextSet.cpp, the table of
      known sets, the constructor and the destructor;
    - [ContextGroup]: the subscription handshake, which the sources describe
      only in prose.

    Objects live in a store indexed by address.  A C++ member function
    becomes a computation over the store that either returns, aborts on an
    assertion, or has no defined behaviour (a null or dangling pointer was
    dereferenced). *)

From stdpp Require Import gmap list strings.
From Stdlib Require Import ZArith Lia.

(** ** Outcomes and computations *)

(** The three assertion macros differ in the builds that check them. *)
Inductive Assertion := MozAssert | MozDiagnosticAssert | MozReleaseAssert.

Inductive Outcome (A : Type) : Type :=
| Ok (a : A)
| Abort (k : Assertion)
| Undefined
| OutOfFuel.
Arguments Ok {A} a.
Arguments Abort {A} k.
Arguments Undefined {A}.
Arguments OutOfFuel {A}.

Definition Comp (S A : Type) : Type := S → Outcome (A * S).

Definition ret {S A} (a : A) : Comp S A := λ s, Ok (a, s).

Definition bind {S A B} (m : Comp S A) (f : A → Comp S B) : Comp S B :=
  λ s, match m s with
       | Ok (a, s') => f a s'
       | Abort k => Abort k
       | Undefined => Undefined
       | OutOfFuel => OutOfFuel
       end.

#[global] Instance comp_ret S : MRet (Comp S) := λ A, @ret S A.
#[global] Instance comp_bind S : MBind (Comp S) := λ A B f m, @bind S A B m f.

Definition abort {S A} (k : Assertion) : Comp S A := λ _, Abort k.
Definition undefined {S A} : Comp S A := λ _, Undefined.
Definition out_of_fuel {S A} : Comp S A := λ _, OutOfFuel.
Definition gets {S A} (f : S → A) : Comp S A := λ s, Ok (f s, s).
Definition modify {S} (f : S → S) : Comp S unit := λ s, Ok (tt, f s).

(** A range-based [for] over an array that was copied (or moved) out of the
    object before the loop. *)
Fixpoint for_each {S A} (f : A → Comp S unit) (l : list A) : Comp S unit :=
  match l with
  | [] => ret tt
  | x :: l' => bind (f x) (λ _, for_each f l')
  end.

(** [m'] does what [m] does wherever [m] does not run out of fuel. *)
Definition agrees_when_fuelled {S A} (m m' : Comp S A) : Prop :=
  ∀ s, m s ≠ OutOfFuel → m' s = m s.

(** Addresses. A nullable pointer is an [option addr]. *)
Abbreviation addr := nat.

Inductive GeckoProcessType := ParentProcess | ContentProcess | OtherProcess.

(** What a build and a process fix once and for all. *)
Record Env := {
  DEBUG : bool;
  MOZ_DIAGNOSTIC_ASSERT_ENABLED : bool;
  XRE_GetProcessType : GeckoProcessType
}.

Definition XRE_IsContentProcess (env : Env) : bool :=
  match XRE_GetProcessType env with ContentProcess => true | _ => false end.
Definition XRE_IsParentProcess (env : Env) : bool :=
  match XRE_GetProcessType env with ParentProcess => true | _ => false end.

(** [MOZ_ASSERT] is compiled in debug builds only; [MOZ_DIAGNOSTIC_ASSERT]
    in debug builds and in builds that enable diagnostic assertions;
    [MOZ_RELEASE_ASSERT] always. *)
Definition MOZ_ASSERT {S} (env : Env) (cond : bool) : Comp S unit :=
  if DEBUG env && negb cond then abort MozAssert else ret tt.
Definition diagnostic_asserts (env : Env) : bool :=
  DEBUG env || MOZ_DIAGNOSTIC_ASSERT_ENABLED env.
Definition MOZ_DIAGNOSTIC_ASSERT {S} (env : Env) (cond : bool) : Comp S unit :=
  if diagnostic_asserts env && negb cond then abort MozDiagnosticAssert else ret tt.
Definition MOZ_RELEASE_ASSERT {S} (cond : bool) : Comp S unit :=
  if cond then ret tt else abort MozReleaseAssert.

(** [nsTArray::RemoveElement]: the first element equal to [x] goes, the
    others keep their order. *)
Fixpoint RemoveElement (x : addr) (l : list addr) : list addr :=
  match l with
  | [] => []
  | y :: l' => if decide (y = x) then l' else y :: RemoveElement x l'
  end.

(** [nsrefcnt] is an unsigned counter whose declaration is not in the
    sources; it is taken as wide as the [int32_t] that the assertions of
    [AddRef] and [Release] cast it to. *)
Definition nsrefcnt_modulus : Z := (2 ^ 32)%Z.
Definition wrap_nsrefcnt (z : Z) : Z := (z mod nsrefcnt_modulus)%Z.
(** The cast [int32_t(mRefCnt)] of the assertions. *)
Definition int32_t (z : Z) : Z :=
  let r := (z mod 2 ^ 32)%Z in if (r <? 2 ^ 31)%Z then r else (r - 2 ^ 32)%Z.

(** ** docshell/base/NBrowsingContext.cpp *)

Module NBrowsingContext.

Inductive State := Active | Background | Dead.

#[global] Instance State_eq_dec : EqDecision State.
Proof. solve_decision. Defined.

(** Calls that leave the class: the two hooks of the owning set. The set's
    side of them is not in the sources; the store records the calls. *)
Inductive SetCall :=
| RegisterContextRef (set ctx : addr)
| UnregisterContextRef (set ctx : addr).

(** The members of the class. The identifier and the registry of the store
    below are those of BrowsingContext.cpp; no function of
    NBrowsingContext.cpp reads or writes them, and the statements carry
    them along only to say so. *)
Record BrowsingContext := {
  mBrowsingContextId : Z;
  mRefCnt : Z;
  mState : State;
  mContextSet : addr;
  mParent : option addr;
  mLiveChildren : list addr;
  mAllChildren : list addr
}.

Record World := {
  heap : gmap addr BrowsingContext;
  sBrowsingContexts : gmap Z addr;
  set_calls : list SetCall
}.

Definition set_mRefCnt (n : Z) (c : BrowsingContext) : BrowsingContext :=
  {| mBrowsingContextId := mBrowsingContextId c; mRefCnt := n;
     mState := mState c; mContextSet := mContextSet c;
     mParent := mParent c; mLiveChildren := mLiveChildren c;
     mAllChildren := mAllChildren c |}.
Definition set_mState (s : State) (c : BrowsingContext) : BrowsingContext :=
  {| mBrowsingContextId := mBrowsingContextId c; mRefCnt := mRefCnt c;
     mState := s; mContextSet := mContextSet c;
     mParent := mParent c; mLiveChildren := mLiveChildren c;
     mAllChildren := mAllChildren c |}.
Definition set_mParent (p : option addr) (c : BrowsingContext) : BrowsingContext :=
  {| mBrowsingContextId := mBrowsingContextId c; mRefCnt := mRefCnt c;
     mState := mState c; mContextSet := mContextSet c;
     mParent := p; mLiveChildren := mLiveChildren c;
     mAllChildren := mAllChildren c |}.
Definition set_mLiveChildren (l : list addr) (c : BrowsingContext) : BrowsingContext :=
  {| mBrowsingContextId := mBrowsingContextId c; mRefCnt := mRefCnt c;
     mState := mState c; mContextSet := mContextSet c;
     mParent := mParent c; mLiveChildren := l;
     mAllChildren := mAllChildren c |}.
Definition set_mAllChildren (l : list addr) (c : BrowsingContext) : BrowsingContext :=
  {| mBrowsingContextId := mBrowsingContextId c; mRefCnt := mRefCnt c;
     mState := mState c; mContextSet := mContextSet c;
     mParent := mParent c; mLiveChildren := mLiveChildren c;
     mAllChildren := l |}.

Definition with_heap (h : gmap addr BrowsingContext) (w : World) : World :=
  {| heap := h; sBrowsingContexts := sBrowsingContexts w;
     set_calls := set_calls w |}.

(** Reading through a pointer: the object has to be there. *)
Definition load (p : addr) : Comp World BrowsingContext :=
  λ w, match heap w !! p with
       | Some c => Ok (c, w)
       | None => Undefined
       end.

Definition store (p : addr) (c : BrowsingContext) : Comp World unit :=
  modify (λ w, with_heap (<[p := c]> (heap w)) w).

Definition call_set (e : SetCall) : Comp World unit :=
  modify (λ w, {| heap := heap w; sBrowsingContexts := sBrowsingContexts w;
                  set_calls := set_calls w ++ [e] |}).

(** Modelled from the spec: [IsDead()] is used by [AddRef] and [Release]
    but declared nowhere in the sources; the spec's state Dead is the
    enumerator [State::Dead]. *)
Definition IsDead (c : BrowsingContext) : bool :=
  match mState c with Dead => true | _ => false end.

(** [BrowsingContext::AddRef]. The assertion on the main thread is about
    threads, which the store does not have; the logging macro has no effect
    on the store. *)
Definition AddRef (env : Env) (this : addr) : Comp World Z :=
  c ← load this;
  _ ← MOZ_ASSERT env (0 <=? int32_t (mRefCnt c))%Z;
  let count := wrap_nsrefcnt (mRefCnt c + 1) in
  _ ← store this (set_mRefCnt count c);
  _ ← (if (count =? 1)%Z && negb (IsDead c)
       then call_set (RegisterContextRef (mContextSet c) this)
       else mret tt);
  mret count.

(** [BrowsingContext::~BrowsingContext], which [delete this] runs: an
    assertion and nothing else. *)
Definition destructor (env : Env) (this : addr) : Comp World unit :=
  c ← load this;
  MOZ_ASSERT env (XRE_IsContentProcess env || IsDead c).

Definition delete_this (env : Env) (this : addr) : Comp World unit :=
  _ ← destructor env this;
  modify (λ w, with_heap (delete this (heap w)) w).

(** [BrowsingContext::Release] *)
Definition Release (env : Env) (this : addr) : Comp World Z :=
  c ← load this;
  _ ← MOZ_ASSERT env (0 <? int32_t (mRefCnt c))%Z;
  let count := wrap_nsrefcnt (mRefCnt c - 1) in
  _ ← store this (set_mRefCnt count c);
  if (count =? 0)%Z then
    if IsDead c then
      _ ← delete_this env this; mret 0%Z
    else
      _ ← call_set (UnregisterContextRef (mContextSet c) this); mret count
  else mret count.

(** [BrowsingContext::DieInternal]. The recursion follows the child
    arrays of the store, so it is bounded by [fuel]. *)
Fixpoint DieInternal (env : Env) (fuel : nat) (this : addr) : Comp World unit :=
  match fuel with
  | O => out_of_fuel
  | S fuel' =>
    c ← load this;
    _ ← MOZ_ASSERT env (negb (IsDead c));
    (* RefPtr<BrowsingContext> kungFuDeathGrip(this); *)
    _ ← AddRef env this;
    (* children = std::move(mAllChildren); *)
    c ← load this;
    let children := mAllChildren c in
    _ ← store this (set_mAllChildren [] c);
    _ ← for_each (DieInternal env fuel') children;
    c ← load this;
    _ ← store this (set_mState Dead (set_mParent None c));
    (* ~RefPtr *)
    _ ← Release env this;
    mret tt
  end.

(** [BrowsingContext::Die] *)
Definition Die (env : Env) (fuel : nat) (this : addr) : Comp World unit :=
  c ← load this;
  _ ← MOZ_ASSERT env (negb (IsDead c));
  match mParent c with
  | None => undefined
  | Some parent =>
    p ← load parent;
    _ ← store parent (set_mAllChildren (RemoveElement this (mAllChildren p)) p);
    p ← load parent;
    _ ← store parent (set_mLiveChildren (RemoveElement this (mLiveChildren p)) p);
    DieInternal env fuel this
  end.

(** *** Predicates used by the statements *)

(** Every counter of the store is a value of [nsrefcnt]. *)
Definition refcnt_ok (w : World) : Prop :=
  ∀ q c, heap w !! q = Some c → (0 ≤ mRefCnt c < nsrefcnt_modulus)%Z.

(** What a context that outlives a teardown keeps. *)
Definition survives (c c' : BrowsingContext) : Prop :=
  mRefCnt c' = mRefCnt c ∧
  mBrowsingContextId c' = mBrowsingContextId c ∧
  mContextSet c' = mContextSet c ∧
  mLiveChildren c' = mLiveChildren c ∧
  (mAllChildren c' = mAllChildren c ∨ mAllChildren c' = []) ∧
  (mState c = Dead → mState c' = Dead).

(** How [DieInternal] relates the store before to the store after: an
    object either survives or is freed with no reference left, nothing is
    allocated, and a registration disappears only with its object. *)
Record teardown (w w' : World) : Prop := {
  teardown_kept q c :
    heap w !! q = Some c →
    match heap w' !! q with
    | Some c' => survives c c'
    | None => mRefCnt c = 0%Z
    end;
  teardown_no_alloc q : heap w !! q = None → heap w' !! q = None;
  teardown_registry i :
    sBrowsingContexts w' !! i = sBrowsingContexts w !! i ∨
    (sBrowsingContexts w' !! i = None ∧
     ∃ q c, heap w !! q = Some c ∧ mBrowsingContextId c = i ∧
            heap w' !! q = None)
}.

(** The number of entries in all the [mAllChildren] arrays of a store: the
    calls that [DieInternal] can still make. *)
Definition weight (w : World) : nat :=
  map_fold (λ _ c n, length (mAllChildren c) + n) 0 (heap w).

(** The set hears of [e] between [w] and [w'], or of nothing. *)
Definition notified (w w' : World) (e : SetCall) : Prop :=
  set_calls w' = set_calls w ++ [e].
Definition silent (w w' : World) : Prop :=
  set_calls w' = set_calls w.

(** *** Sample stores *)

Definition release_build : Env :=
  {| DEBUG := false; MOZ_DIAGNOSTIC_ASSERT_ENABLED := false;
     XRE_GetProcessType := ParentProcess |}.
Definition debug_build : Env :=
  {| DEBUG := true; MOZ_DIAGNOSTIC_ASSERT_ENABLED := true;
     XRE_GetProcessType := ParentProcess |}.

Definition context (id refcnt : Z) (st : State) (parent : option addr)
    (live all : list addr) : BrowsingContext :=
  {| mBrowsingContextId := id; mRefCnt := refcnt; mState := st;
     mContextSet := 100; mParent := parent;
     mLiveChildren := live; mAllChildren := all |}.

(** A top-level context at address 1 holds the frame at 2, which holds
    the frame at 3; [refs] is the reference count of the two frames. *)
Definition nested_frames (refs : Z) : World :=
  {| heap := <[1 := context 11 1 Active None [2] [2]]>
             (<[2 := context 12 refs Active (Some 1) [3] [3]]>
             (<[3 := context 13 refs Active (Some 2) [] []]> ∅));
     sBrowsingContexts := <[11%Z := 1]> (<[12%Z := 2]> (<[13%Z := 3]> ∅));
     set_calls := [] |}.

(** *** The walk of [DieInternal], step by step *)

(** The store in which [DieInternal] walks the children of [this]: the
    temporary reference is taken and [mAllChildren] is moved out. *)
Definition entered (w : World) (this : addr) (c : BrowsingContext) : World :=
  let count := wrap_nsrefcnt (mRefCnt c + 1) in
  {| heap := <[this := set_mAllChildren [] (set_mRefCnt count c)]> (heap w);
     sBrowsingContexts := sBrowsingContexts w;
     set_calls := if (count =? 1)%Z && negb (IsDead c)
                  then set_calls w ++ [RegisterContextRef (mContextSet c) this]
                  else set_calls w |}.

(** The store in which the temporary reference is released: [this] has no
    parent and is Dead. *)
Definition marked (w : World) (this : addr) (c : BrowsingContext) : World :=
  with_heap (<[this := set_mState Dead (set_mParent None c)]> (heap w)) w.

(** [q] is listed in [mAllChildren] of [p]; the descendants of a context
    are what these edges reach. *)
Definition child_edge (w : World) (p q : addr) : Prop :=
  ∃ c, heap w !! p = Some c ∧ q ∈ mAllChildren c.
Definition descendant (w : World) : relation addr := rtc (child_edge w).

(** What [DieInternal] leaves of a context: nothing, or a Dead object
    without parent and without children. *)
Definition dead_or_freed (w : World) (q : addr) : Prop :=
  match heap w !! q with
  | None => True
  | Some c => mState c = Dead ∧ mParent c = None ∧ mAllChildren c = []
  end.

(** The walk from the store [w], seen at the store [v]: [F] are the
    contexts whose call has returned, [S] those whose call is running.  The
    children of a finished context are finished or running, a running
    context has given its children away, and the walk has not touched
    anything else. *)
Record walk (w v : World) (S F : gset addr) : Prop := {
  walk_finished p : p ∈ F → dead_or_freed v p;
  walk_closed p c q :
    p ∈ F → heap w !! p = Some c → q ∈ mAllChildren c → q ∈ F ∪ S;
  walk_untouched p : p ∉ F ∪ S → heap v !! p = heap w !! p;
  walk_cleared p c : p ∈ S → heap v !! p = Some c → mAllChildren c = []
}.

(** The walk from [w], seen at [v]: a context that nobody referenced at
    the start is gone once the calls on it have returned. *)
Definition unreferenced_freed (w v : World) (S F : gset addr) : Prop :=
  ∀ p c, p ∈ F → p ∉ S → heap w !! p = Some c → mRefCnt c = 0%Z →
         heap v !! p = None.

(** A call that the set received for a context that is gone from [w]. *)
Definition reported_and_freed (w : World) (e : SetCall) : Prop :=
  match e with
  | RegisterContextRef _ x => heap w !! x = None
  | UnregisterContextRef _ _ => False
  end.

(** A Dead context that nobody references any more. *)
Definition lone_dead_context : World :=
  {| heap := {[2 := context 12 0 Dead None [] []]};
     sBrowsingContexts := {[12%Z := 2]};
     set_calls := [] |}.

End NBrowsingContext.

(** ** BrowsingContext.cpp: registry, attach and detach *)

Module BrowsingContext.

(** What [ContentChild] is asked to send to the parent process. *)
Inductive Message :=
| AttachBrowsingContext (parentId selfId : Z) (name : string)
| DetachBrowsingContext (selfId : Z).

Record BrowsingContext := {
  mBrowsingContextId : Z;
  mParent : option addr;
  mChildren : list addr;
  mDocShell : option addr;
  mName : string;
  mRefCnt : Z
}.

(** The two statics are null until [Init] has run. *)
Record World := {
  heap : gmap addr BrowsingContext;
  sRootBrowsingContexts : option (list addr);
  sBrowsingContexts : option (gmap Z addr);
  ContentChild_singleton : bool;
  sent : list Message
}.

Definition set_mParent (p : option addr) (c : BrowsingContext) : BrowsingContext :=
  {| mBrowsingContextId := mBrowsingContextId c; mParent := p;
     mChildren := mChildren c; mDocShell := mDocShell c;
     mName := mName c; mRefCnt := mRefCnt c |}.
Definition set_mChildren (l : list addr) (c : BrowsingContext) : BrowsingContext :=
  {| mBrowsingContextId := mBrowsingContextId c; mParent := mParent c;
     mChildren := l; mDocShell := mDocShell c;
     mName := mName c; mRefCnt := mRefCnt c |}.
Definition set_mName (n : string) (c : BrowsingContext) : BrowsingContext :=
  {| mBrowsingContextId := mBrowsingContextId c; mParent := mParent c;
     mChildren := mChildren c; mDocShell := mDocShell c;
     mName := n; mRefCnt := mRefCnt c |}.
Definition set_mRefCnt (n : Z) (c : BrowsingContext) : BrowsingContext :=
  {| mBrowsingContextId := mBrowsingContextId c; mParent := mParent c;
     mChildren := mChildren c; mDocShell := mDocShell c;
     mName := mName c; mRefCnt := n |}.

Definition with_heap (h : gmap addr BrowsingContext) (w : World) : World :=
  {| heap := h; sRootBrowsingContexts := sRootBrowsingContexts w;
     sBrowsingContexts := sBrowsingContexts w;
     ContentChild_singleton := ContentChild_singleton w; sent := sent w |}.
Definition with_roots (r : option (list addr)) (w : World) : World :=
  {| heap := heap w; sRootBrowsingContexts := r;
     sBrowsingContexts := sBrowsingContexts w;
     ContentChild_singleton := ContentChild_singleton w; sent := sent w |}.
Definition with_registry (t : option (gmap Z addr)) (w : World) : World :=
  {| heap := heap w; sRootBrowsingContexts := sRootBrowsingContexts w;
     sBrowsingContexts := t;
     ContentChild_singleton := ContentChild_singleton w; sent := sent w |}.
Definition with_sent (l : list Message) (w : World) : World :=
  {| heap := heap w; sRootBrowsingContexts := sRootBrowsingContexts w;
     sBrowsingContexts := sBrowsingContexts w;
     ContentChild_singleton := ContentChild_singleton w; sent := l |}.

Definition load (p : addr) : Comp World BrowsingContext :=
  λ w, match heap w !! p with
       | Some c => Ok (c, w)
       | None => Undefined
       end.

Definition store (p : addr) (c : BrowsingContext) : Comp World unit :=
  modify (λ w, with_heap (<[p := c]> (heap w)) w).

(** [sRootBrowsingContexts->] and [sBrowsingContexts->] *)
Definition roots : Comp World (list addr) :=
  λ w, match sRootBrowsingContexts w with
       | Some l => Ok (l, w)
       | None => Undefined
       end.
Definition registry : Comp World (gmap Z addr) :=
  λ w, match sBrowsingContexts w with
       | Some t => Ok (t, w)
       | None => Undefined
       end.

(** [BrowsingContext::Init] *)
Definition Init : Comp World unit :=
  modify (λ w,
    let w1 := match sRootBrowsingContexts w with
              | None => with_roots (Some []) w
              | Some _ => w
              end in
    match sBrowsingContexts w1 with
    | None => with_registry (Some ∅) w1
    | Some _ => w1
    end).

(** Modelled from the spec: the reference counting of this class comes from
    NS_INLINE_DECL_CYCLE_COLLECTING_NATIVE_REFCOUNTING, which is not in the
    sources. The spec gives a context a reference count owned by the
    counting protocol and defers destruction; here [AddRef] and [Release]
    count, and freeing an unreferenced object is left to the collector. *)
Definition AddRef (this : addr) : Comp World unit :=
  c ← load this;
  store this (set_mRefCnt (wrap_nsrefcnt (mRefCnt c + 1)) c).
Definition Release (this : addr) : Comp World unit :=
  c ← load this;
  store this (set_mRefCnt (wrap_nsrefcnt (mRefCnt c - 1)) c).

(** Modelled from the spec: [isInList], [insertBack] and [remove] belong to
    mfbt's LinkedList, which is not in the sources. An element is in at most
    one list; the spec has attach insert self into the parent's (or the
    root list's) child collection and detach remove self from whatever
    child collection currently holds it. A list of strong references
    counts its elements. *)
Definition isInList (this : addr) (w : World) : bool :=
  bool_decide (this ∈ default [] (sRootBrowsingContexts w)) ||
  bool_decide (map_Exists (λ _ c, this ∈ mChildren c) (heap w)).

Definition unlink (this : addr) (l : list addr) : list addr :=
  filter (λ x, x ≠ this) l.

Definition remove (this : addr) : Comp World unit :=
  _ ← modify (λ w,
         {| heap := (λ c, set_mChildren (unlink this (mChildren c)) c) <$> heap w;
            sRootBrowsingContexts := unlink this <$> sRootBrowsingContexts w;
            sBrowsingContexts := sBrowsingContexts w;
            ContentChild_singleton := ContentChild_singleton w;
            sent := sent w |});
  Release this.

(** [children->insertBack(this)] with [children] either [&aParent->mChildren]
    or [sRootBrowsingContexts.get()] *)
Definition insertBack (aParent : option addr) (this : addr) : Comp World unit :=
  _ ← match aParent with
      | Some parent =>
        p ← load parent;
        store parent (set_mChildren (mChildren p ++ [this]) p)
      | None =>
        l ← roots;
        modify (with_roots (Some (l ++ [this])))
      end;
  AddRef this.

(** [ContentChild::GetSingleton()] followed by the diagnostic assertion and
    the call through the pointer. *)
Definition ContentChild_send (env : Env) (m : Message) : Comp World unit :=
  cc ← gets ContentChild_singleton;
  _ ← MOZ_DIAGNOSTIC_ASSERT env cc;
  if (cc : bool) then modify (λ w, with_sent (sent w ++ [m]) w) else undefined.

(** [BrowsingContext::BrowsingContext(uint64_t, const nsAString&)] behind
    [new]: the object gets an address that is not in use. *)
Definition new_BrowsingContext (aBrowsingContextId : Z) (aName : string)
    : Comp World addr :=
  this ← gets (λ w, fresh (dom (heap w) ∪ {[0]}));
  _ ← store this {| mBrowsingContextId := aBrowsingContextId; mParent := None;
                    mChildren := []; mDocShell := None; mName := aName;
                    mRefCnt := 0 |};
  t ← registry;
  _ ← modify (with_registry (Some (<[aBrowsingContextId := this]> t)));
  mret this.

(** [BrowsingContext::Get] *)
Definition Get (aId : Z) : Comp World (option addr) :=
  t ← registry;
  match t !! aId with
  | Some p => _ ← AddRef p; mret (Some p)
  | None => mret None
  end.

(** [BrowsingContext::GetOrCreate] *)
Definition GetOrCreate (aId : Z) (aName : string) : Comp World addr :=
  t ← registry;
  match t !! aId with
  | Some p => _ ← AddRef p; mret p
  | None => p ← new_BrowsingContext aId aName; _ ← AddRef p; mret p
  end.

(** [BrowsingContext::Attach] *)
Definition Attach (env : Env) (this : addr) (aParent : option addr)
    : Comp World unit :=
  c ← load this;
  inList ← gets (isInList this);
  if (inList : bool) then
    (* the assertion reads the registry only where it is compiled *)
    if diagnostic_asserts env then
      t ← registry;
      MOZ_DIAGNOSTIC_ASSERT env
        (bool_decide (is_Some (t !! mBrowsingContextId c)))
    else mret tt
  else
    _ ← insertBack aParent this;
    c ← load this;
    _ ← store this (set_mParent aParent c);
    if negb (XRE_IsContentProcess env) then mret tt
    else
      parentId ← match aParent with
                 | Some parent => p ← load parent; mret (mBrowsingContextId p)
                 | None => mret 0%Z
                 end;
      ContentChild_send env
        (AttachBrowsingContext parentId (mBrowsingContextId c) (mName c)).

(** [BrowsingContext::Detach] *)
Definition Detach (env : Env) (this : addr) : Comp World unit :=
  (* RefPtr<BrowsingContext> kungFuDeathGrip(this); *)
  _ ← AddRef this;
  inList ← gets (isInList this);
  _ ← (if negb (inList : bool) then mret tt
       else
         _ ← remove this;
         if negb (XRE_IsContentProcess env) then mret tt
         else
           c ← load this;
           ContentChild_send env (DetachBrowsingContext (mBrowsingContextId c)));
  (* ~RefPtr *)
  Release this.

(** [BrowsingContext::SetName], [GetName], [Parent] *)
Definition SetName (this : addr) (aName : string) : Comp World unit :=
  c ← load this; store this (set_mName aName c).
Definition GetName (this : addr) : Comp World string :=
  c ← load this; mret (mName c).
Definition Parent (this : addr) : Comp World (option addr) :=
  c ← load this; mret (mParent c).

(** *** Predicates used by the statements *)

(** The child collections of a store: the root list and the children of
    every context. *)
Definition child_collections (w : World)
    : option (list addr) * gmap addr (list addr) :=
  (sRootBrowsingContexts w, mChildren <$> heap w).

(** The collection that [Attach] inserts into exists. *)
Definition collection_exists (w : World) (aParent : option addr) : Prop :=
  match aParent with
  | Some parent => is_Some (heap w !! parent)
  | None => is_Some (sRootBrowsingContexts w)
  end.

(** The lists of [w'] are those of [w]: the steps that only count
    references, set [mParent] or send a message. *)
Record same_lists (w w' : World) : Prop := {
  same_roots : sRootBrowsingContexts w' = sRootBrowsingContexts w;
  same_children q : mChildren <$> heap w' !! q = mChildren <$> heap w !! q;
  same_singleton : ContentChild_singleton w' = ContentChild_singleton w
}.

(** The store right after [insertBack]: [this] is the last element of the
    collection that [aParent] selects. *)
Definition inserted (w : World) (aParent : option addr) (this : addr) : World :=
  match aParent with
  | Some parent =>
    match heap w !! parent with
    | Some p =>
      with_heap (<[parent := set_mChildren (mChildren p ++ [this]) p]> (heap w)) w
    | None => w
    end
  | None =>
    with_roots (Some (default [] (sRootBrowsingContexts w) ++ [this])) w
  end.

(** [BrowsingContext::NameEquals] *)
Definition NameEquals (this : addr) (aName : string) : Comp World bool :=
  c ← load this; mret (bool_decide (mName c = aName)).

(** The constructor [BrowsingContext::BrowsingContext] that takes a
    docshell, behind [new]. The
    identifier is what [nsContentUtils::GenerateBrowsingContextId] returns;
    that function is not in the sources, so its result is the argument
    [generated]. The name is the empty string of the default constructor. *)
Definition new_BrowsingContext_of_docshell (generated : Z)
    (aDocShell : option addr) : Comp World addr :=
  this ← gets (λ w, fresh (dom (heap w) ∪ {[0]}));
  _ ← store this {| mBrowsingContextId := generated; mParent := None;
                    mChildren := []; mDocShell := aDocShell; mName := EmptyString;
                    mRefCnt := 0 |};
  t ← registry;
  _ ← modify (with_registry (Some (<[generated := this]> t)));
  mret this.

(** The body of [BrowsingContext::~BrowsingContext]: the registration under
    the identifier of [this] goes, whichever object it names.  The
    destruction of the members follows the body (the list of children, the
    weak pointers to the object); the classes that do it are not in the
    sources, so the statements about [destructor] read the outcome and the
    registry, and nothing else of the store it returns. *)
Definition destructor (env : Env) (this : addr) : Comp World unit :=
  c ← load this;
  inList ← gets (isInList this);
  _ ← MOZ_DIAGNOSTIC_ASSERT env (negb inList);
  t ← registry;
  modify (with_registry (Some (delete (mBrowsingContextId c) t))).

(** *** Runs of the public operations *)

Inductive Op :=
| OpInit
| OpGet (aId : Z)
| OpGetOrCreate (aId : Z) (aName : string)
| OpNew (generated : Z) (aDocShell : option addr)
| OpAttach (this : addr) (aParent : option addr)
| OpDetach (this : addr)
| OpSetName (this : addr) (aName : string).

Definition run_op (env : Env) (op : Op) : Comp World unit :=
  match op with
  | OpInit => Init
  | OpGet aId => _ ← Get aId; mret tt
  | OpGetOrCreate aId aName => _ ← GetOrCreate aId aName; mret tt
  | OpNew generated aDocShell =>
    _ ← new_BrowsingContext_of_docshell generated aDocShell; mret tt
  | OpAttach this aParent => Attach env this aParent
  | OpDetach this => Detach env this
  | OpSetName this aName => SetName this aName
  end.

Definition run (env : Env) (ops : list Op) : Comp World unit :=
  for_each (run_op env) ops.

(** The process before [Init]: no object, both statics null. *)
Definition startup (contentChild : bool) : World :=
  {| heap := ∅; sRootBrowsingContexts := None; sBrowsingContexts := None;
     ContentChild_singleton := contentChild; sent := [] |}.

(** What the tree and the registry read of a context. *)
Definition skeleton (c : BrowsingContext) : Z * option addr * list addr :=
  (mBrowsingContextId c, mParent c, mChildren c).

(** [w'] has the tree and the registry of [w]: the steps that only count
    references, rename a context or send a message. *)
Record same_tree (w w' : World) : Prop := {
  tree_roots : sRootBrowsingContexts w' = sRootBrowsingContexts w;
  tree_registry : sBrowsingContexts w' = sBrowsingContexts w;
  tree_contexts q : skeleton <$> heap w' !! q = skeleton <$> heap w !! q
}.

(** The store right after [insertBack] and the assignment to [mParent]. *)
Definition attached (w : World) (aParent : option addr) (this : addr) : World :=
  let wi := inserted w aParent this in
  with_heap (alter (set_mParent aParent) this (heap wi)) wi.

(** The store right after [remove]: [this] is in no list. *)
Definition detached (w : World) (this : addr) : World :=
  {| heap := (λ c, set_mChildren (unlink this (mChildren c)) c) <$> heap w;
     sRootBrowsingContexts := unlink this <$> sRootBrowsingContexts w;
     sBrowsingContexts := sBrowsingContexts w;
     ContentChild_singleton := ContentChild_singleton w;
     sent := sent w |}.

(** The store right after a constructor has run. *)
Definition constructed (w : World) (this : addr) (c : BrowsingContext) : World :=
  with_registry
    (Some (<[mBrowsingContextId c := this]> (default ∅ (sBrowsingContexts w))))
    (with_heap (<[this := c]> (heap w)) w).

(** The lists form a forest that [mParent] agrees with: no list repeats an
    element, the elements of the root list are objects without a parent,
    and the elements of the children of [q] are objects whose parent is
    [q]. *)
Record tree_wf (w : World) : Prop := {
  roots_NoDup l : sRootBrowsingContexts w = Some l → NoDup l;
  children_NoDup q c : heap w !! q = Some c → NoDup (mChildren c);
  root_has_no_parent l p :
    sRootBrowsingContexts w = Some l → p ∈ l →
    ∃ cp, heap w !! p = Some cp ∧ mParent cp = None;
  child_has_parent q c p :
    heap w !! q = Some c → p ∈ mChildren c →
    ∃ cp, heap w !! p = Some cp ∧ mParent cp = Some q
}.

(** The registry names objects that are there, each under its own
    identifier. *)
Definition registry_sound (w : World) : Prop :=
  ∀ t k p, sBrowsingContexts w = Some t → t !! k = Some p →
    ∃ c, heap w !! p = Some c ∧ mBrowsingContextId c = k.

(** *** Sample stores *)

Definition parent_process : Env :=
  {| DEBUG := true; MOZ_DIAGNOSTIC_ASSERT_ENABLED := true;
     XRE_GetProcessType := ParentProcess |}.
Definition content_process : Env :=
  {| DEBUG := true; MOZ_DIAGNOSTIC_ASSERT_ENABLED := true;
     XRE_GetProcessType := ContentProcess |}.

Definition context (id : Z) (name : string) (parent : option addr)
    (children : list addr) (refs : Z) : BrowsingContext :=
  {| mBrowsingContextId := id; mParent := parent; mChildren := children;
     mDocShell := None; mName := name; mRefCnt := refs |}.

(** A root at 1 with the child 2, and a context at 3 that is in no list. *)
Definition one_tab : World :=
  {| heap := <[1 := context 11 "top" None [2] 2]>
             (<[2 := context 12 "frame" (Some 1) [] 1]>
             (<[3 := context 13 "new" None [] 1]> ∅));
     sRootBrowsingContexts := Some [1];
     sBrowsingContexts := Some (<[11%Z := 1]> (<[12%Z := 2]> (<[13%Z := 3]> ∅)));
     ContentChild_singleton := true;
     sent := [] |}.

Definition after_Init : World :=
  {| heap := ∅; sRootBrowsingContexts := Some [];
     sBrowsingContexts := Some ∅;
     ContentChild_singleton := true; sent := [] |}.

(** A run that makes two contexts, links and unlinks them, and registers a
    third one under the identifier of the second. *)
Definition sample_run : list Op :=
  [OpInit; OpGetOrCreate 7 "top"; OpGetOrCreate 8 "frame"; OpAttach 1 None;
   OpAttach 2 (Some 1); OpAttach 2 None; OpDetach 1; OpNew 8 None;
   OpSetName 2 "renamed"; OpGet 8].

(** The store [one_tab] of a content process that has no [ContentChild]. *)
Definition no_ContentChild : World :=
  {| heap := heap one_tab;
     sRootBrowsingContexts := sRootBrowsingContexts one_tab;
     sBrowsingContexts := sBrowsingContexts one_tab;
     ContentChild_singleton := false; sent := [] |}.

End BrowsingContext.

(** ** docshell/base/RelatedContextSet.cpp *)

Module RelatedContextSet.

(** The members of the class, with the counter that
    NS_INLINE_DECL_CYCLE_COLLECTING_NATIVE_REFCOUNTING declares. *)
Record RelatedContextSet := {
  mUniqueID : Z;
  mContexts : gset addr;
  mRefCnt : Z
}.

(** [KnownSetTable] is keyed by [nsInt64HashKey]: the 64-bit identifier is
    looked up as a signed key. *)
Definition int64_t (z : Z) : Z :=
  let r := (z mod 2 ^ 64)%Z in if (r <? 2 ^ 63)%Z then r else (r - 2 ^ 64)%Z.

Record World := {
  sets : gmap addr RelatedContextSet;
  sKnownSets : option (gmap Z addr);
  sChromeSet : option addr;
  (** the calls of [ContentChild::Unsubscribe] *)
  unsubscribed : list Z
}.

Definition initial : World :=
  {| sets := ∅; sKnownSets := None; sChromeSet := None; unsubscribed := [] |}.

Definition with_sets (h : gmap addr RelatedContextSet) (w : World) : World :=
  {| sets := h; sKnownSets := sKnownSets w; sChromeSet := sChromeSet w;
     unsubscribed := unsubscribed w |}.
Definition with_sKnownSets (t : option (gmap Z addr)) (w : World) : World :=
  {| sets := sets w; sKnownSets := t; sChromeSet := sChromeSet w;
     unsubscribed := unsubscribed w |}.
Definition with_sChromeSet (p : option addr) (w : World) : World :=
  {| sets := sets w; sKnownSets := sKnownSets w; sChromeSet := p;
     unsubscribed := unsubscribed w |}.

Definition set_mContexts (s : gset addr) (c : RelatedContextSet) : RelatedContextSet :=
  {| mUniqueID := mUniqueID c; mContexts := s; mRefCnt := mRefCnt c |}.
Definition set_mRefCnt (n : Z) (c : RelatedContextSet) : RelatedContextSet :=
  {| mUniqueID := mUniqueID c; mContexts := mContexts c; mRefCnt := n |}.

Definition load (p : addr) : Comp World RelatedContextSet :=
  λ w, match sets w !! p with
       | Some s => Ok (s, w)
       | None => Undefined
       end.

Definition store (p : addr) (s : RelatedContextSet) : Comp World unit :=
  modify (λ w, with_sets (<[p := s]> (sets w)) w).

(** [RelatedContextSet::RelatedContextSet(uint64_t)] behind [new]. The
    object gets an address that is not in use; the table is created on first
    use and handed to [ClearOnShutdown].  What that call does with a table
    made after shutdown is not in the sources: here the table stays. *)
Definition new_RelatedContextSet (aUniqueID : Z) : Comp World addr :=
  this ← gets (λ w, fresh (dom (sets w) ∪ {[0]}));
  _ ← store this {| mUniqueID := aUniqueID; mContexts := ∅; mRefCnt := 0 |};
  known ← gets sKnownSets;
  _ ← (match known with
       | None => modify (with_sKnownSets (Some ∅))
       | Some _ => mret tt
       end);
  known ← gets sKnownSets;
  match known with
  | None => undefined
  | Some t =>
    (* auto e = sKnownSets->LookupForAdd(mUniqueID); *)
    let e := t !! int64_t aUniqueID in
    _ ← MOZ_RELEASE_ASSERT (bool_decide (e = None));
    _ ← modify (with_sKnownSets (Some (<[int64_t aUniqueID := this]> t)));
    mret this
  end.

(** [RelatedContextSet::ChromeContextSet]. The default constructor takes its
    identifier from [nsContentUtils::GenerateRelatedContextSetId], which is
    not in the sources: [generated] is what that call returns. *)
Definition ChromeContextSet (env : Env) (generated : Z) : Comp World addr :=
  _ ← MOZ_RELEASE_ASSERT (XRE_IsParentProcess env);
  chrome ← gets sChromeSet;
  this ← match chrome with
         | Some p => mret p
         | None =>
           p ← new_RelatedContextSet generated;
           _ ← modify (with_sChromeSet (Some p));
           mret p
         end;
  (* do_AddRef *)
  s ← load this;
  _ ← store this (set_mRefCnt (wrap_nsrefcnt (mRefCnt s + 1)) s);
  mret this.

(** [RelatedContextSet::~RelatedContextSet] *)
Definition destructor (env : Env) (this : addr) : Comp World unit :=
  s ← load this;
  _ ← MOZ_DIAGNOSTIC_ASSERT env (bool_decide (mContexts s = ∅));
  known ← gets sKnownSets;
  _ ← (match known with
       | Some t =>
         let found := bool_decide (is_Some (t !! int64_t (mUniqueID s))) in
         _ ← modify (with_sKnownSets (Some (delete (int64_t (mUniqueID s)) t)));
         MOZ_RELEASE_ASSERT found
       | None => mret tt
       end);
  chrome ← gets sChromeSet;
  _ ← (if bool_decide (chrome = Some this)
       then modify (with_sChromeSet None) else mret tt);
  if XRE_IsContentProcess env
  then modify (λ w, {| sets := sets w; sKnownSets := sKnownSets w;
                       sChromeSet := sChromeSet w;
                       unsubscribed := unsubscribed w ++ [mUniqueID s] |})
  else mret tt.

(** The end of a set: the destructor runs and the object is freed. *)
Definition delete_RelatedContextSet (env : Env) (this : addr) : Comp World unit :=
  _ ← destructor env this;
  modify (λ w, with_sets (delete this (sets w)) w).

(** Modelled from the spec: [ClearOnShutdown] is not in the sources. The spec
    has a process-wide shutdown hook that force-clears the registries at
    teardown: the table handed to it is freed and the static is null from
    then on. *)
Definition shutdown : Comp World unit :=
  modify (with_sKnownSets None).

(** Modelled from the spec: [mContexts] is written by [BrowsingContext]
    only, in code that is not in the sources. The spec keeps back-references
    to the member contexts there; a member is added when it joins the set and
    removes itself when it is destroyed. *)
Definition AddContext (this ctx : addr) : Comp World unit :=
  s ← load this; store this (set_mContexts ({[ctx]} ∪ mContexts s) s).
Definition RemoveContext (this ctx : addr) : Comp World unit :=
  s ← load this; store this (set_mContexts (mContexts s ∖ {[ctx]}) s).

(** What a process does with its sets, one operation at a time. *)
Inductive Op :=
| OpNew (aUniqueID : Z)
| OpChromeContextSet (generated : Z)
| OpAddContext (this ctx : addr)
| OpRemoveContext (this ctx : addr)
| OpDelete (this : addr)
| OpShutdown.

#[global] Instance Op_eq_dec : EqDecision Op.
Proof. solve_decision. Defined.

Definition run_op (env : Env) (op : Op) : Comp World unit :=
  match op with
  | OpNew aUniqueID => _ ← new_RelatedContextSet aUniqueID; mret tt
  | OpChromeContextSet generated => _ ← ChromeContextSet env generated; mret tt
  | OpAddContext this ctx => AddContext this ctx
  | OpRemoveContext this ctx => RemoveContext this ctx
  | OpDelete this => delete_RelatedContextSet env this
  | OpShutdown => shutdown
  end.

Definition run (env : Env) (ops : list Op) : Comp World unit :=
  for_each (run_op env) ops.

(** The stores a process goes through before shutdown. *)
Inductive running (env : Env) : World → Prop :=
| running_initial : running env initial
| running_step w op w' :
    running env w →
    op ≠ OpShutdown →
    run_op env op w = Ok (tt, w') →
    running env w'.

(** [this] is in the table of known sets under its identifier. *)
Definition known (w : World) (this : addr) (s : RelatedContextSet) : Prop :=
  ∃ t, sKnownSets w = Some t ∧ t !! int64_t (mUniqueID s) = Some this.

(** The entry of the table for an identifier, if the table is there and
    has one. *)
Definition known_as (w : World) (aUniqueID : Z) : option addr :=
  t ← sKnownSets w; t !! int64_t aUniqueID.

(** The table and the store agree: the table exists as soon as a set does,
    every set is known, and every entry names a set under its own key. *)
Record table_matches (w : World) : Prop := {
  table_exists p s : sets w !! p = Some s → is_Some (sKnownSets w);
  table_complete p s : sets w !! p = Some s → known w p s;
  table_sound t k p :
    sKnownSets w = Some t → t !! k = Some p →
    ∃ s, sets w !! p = Some s ∧ int64_t (mUniqueID s) = k
}.

(** [sChromeSet] does not dangle. *)
Definition chrome_live (w : World) : Prop :=
  ∀ p, sChromeSet w = Some p → is_Some (sets w !! p).

Definition nightly_parent : Env :=
  {| DEBUG := false; MOZ_DIAGNOSTIC_ASSERT_ENABLED := true;
     XRE_GetProcessType := ParentProcess |}.

End RelatedContextSet.

(** ** The subscription handshake *)

Module ContextGroup.

Inductive Subscription := Subscribed | UnsubscribePending | Unsubscribed.

#[global] Instance Subscription_eq_dec : EqDecision Subscription.
Proof. solve_decision. Defined.

Inductive Message :=
| UnsubscribeGroup (groupId epoch : Z).

(** Modelled from the spec: the epoch, the live count and the three
    subscription states of a group are described by the spec and by the
    comment above the class in RelatedContextSet.h; no source file
    implements them. *)
Record Group := {
  groupId : Z;
  subscription : Subscription;
  epoch : Z;
  live : nat
}.

(** Modelled from the spec: the group's side of [RegisterContextRef], which
    is not in the sources. On a reference count going from 0 to 1 the live
    count grows, and a group in UnsubscribePending aborts the pending
    unsubscription by incrementing the epoch and returns to Subscribed. *)
Definition RegisterContextRef (g : Group) : Group :=
  match subscription g with
  | UnsubscribePending =>
    {| groupId := groupId g; subscription := Subscribed;
       epoch := (epoch g + 1)%Z; live := S (live g) |}
  | _ =>
    {| groupId := groupId g; subscription := subscription g;
       epoch := epoch g; live := S (live g) |}
  end.

(** Modelled from the spec: the group's side of [UnregisterContextRef],
    which is not in the sources. On a reference count going from 1 to 0 of a
    context that is not Dead the live count is decremented; when it reaches
    0 the group goes to UnsubscribePending and sends (groupId, epoch) to the
    authority. *)
Definition UnregisterContextRef (g : Group) : Group * list Message :=
  match pred (live g) with
  | O =>
    ({| groupId := groupId g; subscription := UnsubscribePending;
        epoch := epoch g; live := O |},
     [UnsubscribeGroup (groupId g) (epoch g)])
  | S n =>
    ({| groupId := groupId g; subscription := subscription g;
        epoch := epoch g; live := S n |}, [])
  end.

(** Modelled from the spec: the receipt of an acknowledgement (groupId,
    epoch, success), which is not in the sources. If success and the local
    epoch still matches, the group goes to Unsubscribed; otherwise the
    acknowledgement is discarded. *)
Definition RecvUnsubscribeAck (g : Group) (ackEpoch : Z) (success : bool) : Group :=
  if success && bool_decide (ackEpoch = epoch g)
  then {| groupId := groupId g; subscription := Unsubscribed;
          epoch := epoch g; live := live g |}
  else g.

(** The acknowledgement was accepted: the group left its state. *)
Definition accepted (g : Group) (ackEpoch : Z) (success : bool) : Prop :=
  RecvUnsubscribeAck g ackEpoch success ≠ g.

End ContextGroup.

(** * Facts *)

(** ** Computations *)

Lemma bind_Ok {S A B} (m : Comp S A) (f : A → Comp S B) (s : S) (r : B * S) :
  (m ≫= f) s = Ok r ↔ ∃ a s1, m s = Ok (a, s1) ∧ f a s1 = Ok r.
Proof.
  unfold mbind, comp_bind, bind. split.
  - destruct (m s) as [[a s1]| | |]; try discriminate. eauto.
  - intros (a & s1 & -> & Hf). exact Hf.
Qed.

Lemma ret_Ok {S A} (a : A) (s : S) (r : A * S) : ret a s = Ok r ↔ r = (a, s).
Proof. unfold ret. split; [intros [= <-]|intros ->]; done. Qed.

Lemma MOZ_ASSERT_Ok {S} env cond (s : S) r :
  MOZ_ASSERT env cond s = Ok r ↔ r = (tt, s) ∧ (DEBUG env = true → cond = true).
Proof.
  unfold MOZ_ASSERT, abort, ret. destruct (DEBUG env), cond; simpl; split;
    try (intros [= <-]; split; done); try (intros [-> ?]; done);
    try discriminate.
  intros [-> H]. specialize (H eq_refl). discriminate.
Qed.

Lemma wrap_succ_pred (z : Z) :
  (0 ≤ z < nsrefcnt_modulus)%Z → wrap_nsrefcnt (wrap_nsrefcnt (z + 1) - 1) = z.
Proof.
  unfold wrap_nsrefcnt, nsrefcnt_modulus. intros Hz.
  destruct (decide (z = 2 ^ 32 - 1)%Z) as [->|Hne].
  - reflexivity.
  - rewrite (Z.mod_small (z + 1)) by lia. replace (z + 1 - 1)%Z with z by lia.
    apply Z.mod_small. lia.
Qed.

Lemma int32_t_small (z : Z) : (0 ≤ z < 2 ^ 31)%Z → int32_t z = z.
Proof.
  intros Hz. unfold int32_t. rewrite Z.mod_small by lia.
  destruct (z <? 2 ^ 31)%Z eqn:E; [done|]. apply Z.ltb_ge in E. lia.
Qed.

Lemma agrees_refl {S A} (m : Comp S A) : agrees_when_fuelled m m.
Proof. by intros s _. Qed.

Lemma agrees_bind {S A B} (m m' : Comp S A) (f f' : A → Comp S B) :
  agrees_when_fuelled m m' →
  (∀ a, agrees_when_fuelled (f a) (f' a)) →
  agrees_when_fuelled (m ≫= f) (m' ≫= f').
Proof.
  intros Hm Hf s. unfold mbind, comp_bind, bind. intros Hfuel.
  destruct (m s) as [[a s1]| | |] eqn:E.
  - rewrite Hm, E by (by rewrite E). by apply Hf.
  - rewrite Hm, E by (by rewrite E). done.
  - rewrite Hm, E by (by rewrite E). done.
  - done.
Qed.

Lemma agrees_for_each {S A} (f f' : A → Comp S unit) (l : list A) :
  (∀ x, agrees_when_fuelled (f x) (f' x)) →
  agrees_when_fuelled (for_each f l) (for_each f' l).
Proof.
  intros Hf. induction l as [|x l IH]; cbn [for_each].
  - apply agrees_refl.
  - apply (agrees_bind (f x) (f' x)); [apply Hf|]. intros _. exact IH.
Qed.

(** ** docshell/base/NBrowsingContext.cpp *)

Module NBrowsingContextFacts.
Import NBrowsingContext.


Lemma load_Ok p w r : load p w = Ok r ↔ ∃ c, heap w !! p = Some c ∧ r = (c, w).
Proof.
  unfold load. destruct (heap w !! p) as [c|]; split.
  - intros [= <-]. eauto.
  - intros (c' & [= <-] & ->). done.
  - discriminate.
  - intros (c' & [=] & _).
Qed.

Lemma AddRef_run env this w c :
  heap w !! this = Some c →
  AddRef env this w =
    if DEBUG env && negb (0 <=? int32_t (mRefCnt c))%Z then Abort MozAssert
    else
      let count := wrap_nsrefcnt (mRefCnt c + 1) in
      Ok (count,
          {| heap := <[this := set_mRefCnt count c]> (heap w);
             sBrowsingContexts := sBrowsingContexts w;
             set_calls := if (count =? 1)%Z && negb (IsDead c)
                          then set_calls w ++ [RegisterContextRef (mContextSet c) this]
                          else set_calls w |}).
Proof.
  intros Hc. unfold AddRef, mbind, comp_bind, bind, load. rewrite Hc.
  unfold MOZ_ASSERT. destruct (DEBUG env && negb _); [reflexivity|]. cbn.
  destruct (_ && _); reflexivity.
Qed.

Lemma Release_run env this w c :
  heap w !! this = Some c →
  Release env this w =
    if DEBUG env && negb (0 <? int32_t (mRefCnt c))%Z then Abort MozAssert
    else
      let count := wrap_nsrefcnt (mRefCnt c - 1) in
      if (count =? 0)%Z then
        if IsDead c then
          Ok (0%Z,
              {| heap := delete this (heap w);
                 sBrowsingContexts := sBrowsingContexts w;
                 set_calls := set_calls w |})
        else
          Ok (count,
              {| heap := <[this := set_mRefCnt count c]> (heap w);
                 sBrowsingContexts := sBrowsingContexts w;
                 set_calls :=
                   set_calls w ++ [UnregisterContextRef (mContextSet c) this] |})
      else
        Ok (count,
            {| heap := <[this := set_mRefCnt count c]> (heap w);
               sBrowsingContexts := sBrowsingContexts w;
               set_calls := set_calls w |}).
Proof.
  intros Hc. unfold Release, mbind, comp_bind, bind, load. rewrite Hc.
  unfold MOZ_ASSERT. destruct (DEBUG env && negb _); [reflexivity|]. cbn.
  destruct (_ =? 0)%Z; [|reflexivity].
  destruct (IsDead c) eqn:Hd; [|reflexivity].
  unfold delete_this, destructor, mbind, comp_bind, bind, load. cbn.
  rewrite lookup_insert_eq. unfold MOZ_ASSERT.
  replace (IsDead (set_mRefCnt _ c)) with true by (symmetry; exact Hd).
  rewrite orb_true_r. cbn. rewrite andb_false_r. cbn.
  unfold with_heap. cbn. rewrite delete_insert_eq. reflexivity.
Qed.

Lemma survives_refl c : survives c c.
Proof. unfold survives. tauto. Qed.

Lemma survives_trans c1 c2 c3 : survives c1 c2 → survives c2 c3 → survives c1 c3.
Proof.
  unfold survives. intros (R1 & I1 & S1 & L1 & A1 & D1) (R2 & I2 & S2 & L2 & A2 & D2).
  repeat split; try congruence; [|tauto].
  destruct A1 as [A1|A1], A2 as [A2|A2]; rewrite ?A2, ?A1; auto.
Qed.

Lemma teardown_refl w : teardown w w.
Proof.
  split.
  - intros q c ->. apply survives_refl.
  - auto.
  - auto.
Qed.

Lemma teardown_trans w1 w2 w3 : teardown w1 w2 → teardown w2 w3 → teardown w1 w3.
Proof.
  intros [K1 N1 R1] [K2 N2 R2]. split.
  - intros q c Hq. specialize (K1 q c Hq).
    destruct (heap w2 !! q) as [c2|] eqn:E2.
    + specialize (K2 q c2 E2). destruct (heap w3 !! q) as [c3|].
      * eapply survives_trans; eauto.
      * destruct K1 as (<- & _). exact K2.
    + rewrite (N2 q E2). exact K1.
  - auto.
  - intros i. destruct (R2 i) as [E2|(E2 & q & c2 & Hq & Hi & Hd)].
    + rewrite E2. destruct (R1 i) as [E1|(E1 & q & c & Hq & Hi & Hd)]; [by left|].
      right. split; [done|]. exists q, c. auto.
    + right. split; [done|].
      destruct (heap w1 !! q) as [c1|] eqn:E1.
      * exists q, c1. split; [done|]. split; [|done].
        specialize (K1 q c1 E1). rewrite Hq in K1. destruct K1 as (_ & <- & _). done.
      * rewrite (N1 q E1) in Hq. discriminate.
Qed.

Lemma teardown_refcnt_ok w w' : teardown w w' → refcnt_ok w → refcnt_ok w'.
Proof.
  intros [K N _] Hok q c' Hq.
  destruct (heap w !! q) as [c|] eqn:E.
  - specialize (K q c E). rewrite Hq in K. destruct K as (-> & _). eauto.
  - rewrite (N q E) in Hq. discriminate.
Qed.

Lemma for_each_teardown (f : addr → Comp World unit) (l : list addr) :
  (∀ x w w', refcnt_ok w → f x w = Ok (tt, w') → teardown w w') →
  ∀ w w', refcnt_ok w → for_each f l w = Ok (tt, w') → teardown w w'.
Proof.
  intros Hf. induction l as [|x l IH]; intros w w' Hok H; cbn in H.
  - injection H as <-. apply teardown_refl.
  - unfold bind in H. destruct (f x w) as [[[] w1]| | |] eqn:E; try discriminate.
    pose proof (Hf _ _ _ Hok E) as T1.
    eapply teardown_trans; [exact T1|].
    apply IH; [|exact H]. eapply teardown_refcnt_ok; eauto.
Qed.

Lemma store_run p c w :
  store p c w = Ok (tt, with_heap (<[p := c]> (heap w)) w).
Proof. reflexivity. Qed.

Lemma DieInternal_teardown env fuel :
  ∀ this w w',
    refcnt_ok w →
    DieInternal env fuel this w = Ok (tt, w') →
    teardown w w' ∧
    (∀ c', heap w' !! this = Some c' →
           mState c' = Dead ∧ mParent c' = None ∧ mAllChildren c' = []) ∧
    (∀ c, heap w !! this = Some c → mRefCnt c = 0%Z →
          heap w' !! this = None).
Proof.
  induction fuel as [|fuel IH]; intros this w w' Hok H; [discriminate|].
  cbn [DieInternal] in H.
  apply bind_Ok in H as (c & w0 & Hl & H).
  apply load_Ok in Hl as (c0 & Hc & [= -> ->]).
  apply bind_Ok in H as ([] & w0 & Ha & H).
  apply MOZ_ASSERT_Ok in Ha as [[= ->] _].
  apply bind_Ok in H as (n & w1 & Ha & H).
  rewrite (AddRef_run _ _ _ _ Hc) in Ha.
  destruct (DEBUG env && negb _); [discriminate|].
  cbn zeta in Ha. injection Ha as <- <-.
  set (k := wrap_nsrefcnt (mRefCnt c0 + 1)) in *.
  apply bind_Ok in H as (c1 & w1' & Hl & H).
  apply load_Ok in Hl as (c1' & Hc1 & [= -> ->]).
  cbn in Hc1. rewrite lookup_insert_eq in Hc1. injection Hc1 as <-.
  apply bind_Ok in H as ([] & w2 & Hs & H).
  rewrite store_run in Hs. injection Hs as <-.
  apply bind_Ok in H as ([] & w3 & Hf & H).
  apply bind_Ok in H as (c3 & w3' & Hl & H).
  apply load_Ok in Hl as (c3' & Hc3 & [= -> ->]).
  apply bind_Ok in H as ([] & w4 & Hs & H).
  rewrite store_run in Hs. injection Hs as <-.
  apply bind_Ok in H as (n & w5 & Hr & H).
  apply ret_Ok in H. injection H as ->.
  match type of Hf with for_each _ _ ?x = _ => set (w2 := x) in * end.
  assert (Hc2 : heap w2 !! this = Some (set_mAllChildren [] (set_mRefCnt k c0)))
    by (cbn; apply lookup_insert_eq).
  assert (Hother : ∀ q, q ≠ this → heap w2 !! q = heap w !! q).
  { intros q Hq. cbn. by rewrite !lookup_insert_ne. }
  assert (Hk : (0 ≤ k < nsrefcnt_modulus)%Z).
  { subst k. unfold wrap_nsrefcnt. apply Z.mod_pos_bound. reflexivity. }
  assert (Hok2 : refcnt_ok w2).
  { intros q cq Hq. destruct (decide (q = this)) as [->|Hne].
    - rewrite Hc2 in Hq. injection Hq as <-. exact Hk.
    - rewrite Hother in Hq by done. eauto. }
  assert (T23 : teardown w2 w3).
  { eapply for_each_teardown; [|exact Hok2|exact Hf].
    intros x v v' Hv Hx. by apply (IH x v v'). }
  pose proof (teardown_kept _ _ T23 _ _ Hc2) as S3. rewrite Hc3 in S3.
  destruct S3 as (R3 & I3 & C3 & L3 & A3 & _). cbn in R3, I3, C3, L3, A3.
  assert (A3' : mAllChildren c3' = []) by (destruct A3; done). clear A3.
  erewrite Release_run in Hr by (cbn; apply lookup_insert_eq).
  destruct (DEBUG env && negb _); [discriminate|].
  cbn zeta in Hr. cbn [mRefCnt set_mState set_mParent IsDead mState] in Hr.
  rewrite R3 in Hr. subst k. rewrite (wrap_succ_pred _ (Hok _ _ Hc)) in Hr.
  destruct (mRefCnt c0 =? 0)%Z eqn:E0.
  - (* the grip was the last reference: the object is gone *)
    apply Z.eqb_eq in E0. injection Hr as _ <-. cbn.
    split; [|split].
    2: { intros c'. rewrite delete_insert_eq, lookup_delete_eq. discriminate. }
    2: { intros c Hc' _. by rewrite delete_insert_eq, lookup_delete_eq. }
    split; cbn.
    + intros q cq Hq. destruct (decide (q = this)) as [->|Hne].
      * rewrite delete_insert_eq, lookup_delete_eq.
        rewrite Hc in Hq. injection Hq as <-. exact E0.
      * rewrite delete_insert_eq, lookup_delete_ne by done.
        rewrite <- Hother in Hq by done. exact (teardown_kept _ _ T23 _ _ Hq).
    + intros q Hq. rewrite delete_insert_eq.
      destruct (decide (q = this)) as [->|Hne]; [apply lookup_delete_eq|].
      rewrite lookup_delete_ne by done. apply (teardown_no_alloc _ _ T23).
      by rewrite Hother.
    + intros i.
      destruct (teardown_registry _ _ T23 i) as [E|(E & q & cq & Hq & Hi' & Hd)];
        [by left|right]. split; [done|].
      destruct (decide (q = this)) as [->|Hne]; [congruence|].
      exists q, cq. rewrite <- Hother by done.
      rewrite delete_insert_eq, lookup_delete_ne by done. done.
  - (* other references remain: the object stays, Dead *)
    injection Hr as _ <-. cbn.
    split; [|split].
    2: { intros c'. rewrite lookup_insert_eq. intros [= <-]. done. }
    2: { intros c Hc' Hzero. rewrite Hc in Hc'. injection Hc' as <-.
         apply Z.eqb_neq in E0. done. }
    split; cbn.
    + intros q cq Hq. destruct (decide (q = this)) as [->|Hne].
      * rewrite lookup_insert_eq. rewrite Hc in Hq. injection Hq as <-.
        unfold survives. cbn. rewrite I3, C3, L3, A3'. repeat split; auto.
      * rewrite !lookup_insert_ne by done.
        rewrite <- Hother in Hq by done. exact (teardown_kept _ _ T23 _ _ Hq).
    + intros q Hq. destruct (decide (q = this)) as [->|Hne]; [congruence|].
      rewrite !lookup_insert_ne by done. apply (teardown_no_alloc _ _ T23).
      by rewrite Hother.
    + intros i.
      destruct (teardown_registry _ _ T23 i) as [E|(E & q & cq & Hq & Hi' & Hd)];
        [by left|right]. split; [done|].
      destruct (decide (q = this)) as [->|Hne]; [congruence|].
      exists q, cq. rewrite <- Hother by done.
      rewrite !lookup_insert_ne by done. done.
Qed.

(** [DieInternal] never rewrites a live-children array: whatever a
    surviving context listed there before, it lists afterwards. *)
Lemma DieInternal_keeps_mLiveChildren env fuel this w w' q c c' :
  refcnt_ok w →
  DieInternal env fuel this w = Ok (tt, w') →
  heap w !! q = Some c →
  heap w' !! q = Some c' →
  mLiveChildren c' = mLiveChildren c.
Proof.
  intros Hok H Hq Hq'.
  destruct (DieInternal_teardown _ _ _ _ _ Hok H) as [T _].
  pose proof (teardown_kept _ _ T _ _ Hq) as K. rewrite Hq' in K.
  by destruct K as (_ & _ & _ & L & _).
Qed.

(** *** Fuel *)

(** More fuel changes nothing once there is enough. *)
Lemma DieInternal_one_more env fuel this :
  agrees_when_fuelled (DieInternal env fuel this) (DieInternal env (S fuel) this).
Proof.
  revert this. induction fuel as [|fuel IH]; intros this.
  - intros s H. by destruct H.
  - change (DieInternal env (S (S fuel)) this) with
      (c ← load this;
       _ ← MOZ_ASSERT env (negb (IsDead c));
       _ ← AddRef env this;
       c ← load this;
       _ ← store this (set_mAllChildren [] c);
       _ ← for_each (DieInternal env (S fuel)) (mAllChildren c);
       c ← load this;
       _ ← store this (set_mState Dead (set_mParent None c));
       _ ← Release env this;
       mret tt).
    cbn [DieInternal].
    apply agrees_bind; [apply agrees_refl|intros c].
    apply agrees_bind; [apply agrees_refl|intros _].
    apply agrees_bind; [apply agrees_refl|intros _].
    apply agrees_bind; [apply agrees_refl|intros c'].
    apply agrees_bind; [apply agrees_refl|intros _].
    apply agrees_bind; [|intros _; apply agrees_refl].
    apply agrees_for_each. exact IH.
Qed.

Lemma DieInternal_more_fuel env fuel fuel' this w :
  fuel ≤ fuel' →
  DieInternal env fuel this w ≠ OutOfFuel →
  DieInternal env fuel' this w = DieInternal env fuel this w.
Proof.
  induction 1 as [|fuel' Hle IH]; intros Hfuel; [done|].
  rewrite <- (IH Hfuel). apply DieInternal_one_more. by rewrite (IH Hfuel).
Qed.

Lemma Die_more_fuel env fuel fuel' this w :
  fuel ≤ fuel' →
  Die env fuel this w ≠ OutOfFuel →
  Die env fuel' this w = Die env fuel this w.
Proof.
  intros Hle. revert w.
  change (agrees_when_fuelled (Die env fuel this) (Die env fuel' this)).
  unfold Die.
  apply agrees_bind; [apply agrees_refl|intros c].
  apply agrees_bind; [apply agrees_refl|intros _].
  destruct (mParent c) as [parent|]; [|apply agrees_refl].
  apply agrees_bind; [apply agrees_refl|intros p].
  apply agrees_bind; [apply agrees_refl|intros _].
  apply agrees_bind; [apply agrees_refl|intros p'].
  apply agrees_bind; [apply agrees_refl|intros _].
  intros s. by apply DieInternal_more_fuel.
Qed.

(** The weight of a store, one object at a time. *)
Lemma weight_step_comm (j1 j2 : addr) (z1 z2 : BrowsingContext) (y : nat) :
  length (mAllChildren z1) + (length (mAllChildren z2) + y) =
  length (mAllChildren z2) + (length (mAllChildren z1) + y).
Proof. lia. Qed.

Lemma weight_delete w p c :
  heap w !! p = Some c →
  weight w = length (mAllChildren c) + weight (with_heap (delete p (heap w)) w).
Proof.
  intros Hp. unfold weight. cbn [heap with_heap].
  apply (map_fold_delete_L (λ _ c n, length (mAllChildren c) + n)); [|done].
  intros. apply weight_step_comm; done.
Qed.

Lemma weight_insert_fresh w p c :
  heap w !! p = None →
  weight (with_heap (<[p := c]> (heap w)) w) = length (mAllChildren c) + weight w.
Proof.
  intros Hp. unfold weight. cbn [heap with_heap].
  apply (map_fold_insert_L (λ _ c n, length (mAllChildren c) + n)); [|done].
  intros. apply weight_step_comm; done.
Qed.

Lemma weight_insert w p c c' :
  heap w !! p = Some c →
  weight (with_heap (<[p := c']> (heap w)) w) + length (mAllChildren c) =
  weight w + length (mAllChildren c').
Proof.
  intros Hp. rewrite (weight_delete w p c Hp).
  pose proof (weight_insert_fresh (with_heap (delete p (heap w)) w) p c') as H.
  cbn [heap with_heap] in H. rewrite insert_delete_eq in H.
  unfold with_heap in *. cbn in *. rewrite H by apply lookup_delete_eq. lia.
Qed.

(** A store whose arrays are pointwise no longer weighs no more. *)
Lemma weight_le (h h' : gmap addr BrowsingContext) s1 c1 s2 c2 :
  (∀ q c', h' !! q = Some c' →
           ∃ c, h !! q = Some c ∧
                length (mAllChildren c') ≤ length (mAllChildren c)) →
  weight {| heap := h'; sBrowsingContexts := s1; set_calls := c1 |} ≤
  weight {| heap := h; sBrowsingContexts := s2; set_calls := c2 |}.
Proof.
  revert h. induction h' as [|p c' h' Hfresh IH] using map_ind; intros h Hle.
  - unfold weight at 1. cbn. rewrite map_fold_empty. lia.
  - destruct (Hle p c') as (c & Hp & Hlen); [apply lookup_insert_eq|].
    pose proof (weight_insert_fresh
                  {| heap := h'; sBrowsingContexts := s1; set_calls := c1 |}
                  p c' Hfresh) as Hw'.
    pose proof (weight_delete
                  {| heap := h; sBrowsingContexts := s2; set_calls := c2 |}
                  p c Hp) as Hw.
    unfold with_heap in *. cbn [heap sBrowsingContexts set_calls] in *.
    rewrite Hw', Hw.
    specialize (IH (delete p h)).
    assert (∀ q cq', h' !! q = Some cq' →
              ∃ cq, delete p h !! q = Some cq ∧
                    length (mAllChildren cq') ≤ length (mAllChildren cq)) as Hrest.
    { intros q cq' Hq. assert (q ≠ p) by congruence.
      rewrite lookup_delete_ne by done. apply Hle. by rewrite lookup_insert_ne. }
    specialize (IH Hrest). lia.
Qed.

Lemma teardown_weight w w' : teardown w w' → weight w' ≤ weight w.
Proof.
  intros [K N _]. destruct w as [h r l], w' as [h' r' l']. cbn in *.
  apply weight_le. intros q c' Hq.
  destruct (h !! q) as [c|] eqn:E; [|by rewrite (N q E) in Hq].
  exists c. split; [done|]. specialize (K q c E). rewrite Hq in K.
  destruct K as (_ & _ & _ & _ & [->| ->] & _); cbn; lia.
Qed.

Lemma bind_fuelled {S A B} (m : Comp S A) (f : A → Comp S B) (s : S) :
  m s ≠ OutOfFuel →
  (∀ a s1, m s = Ok (a, s1) → f a s1 ≠ OutOfFuel) →
  (m ≫= f) s ≠ OutOfFuel.
Proof.
  intros Hm Hf. unfold mbind, comp_bind, bind.
  destruct (m s) as [[a s1]| | |]; [by apply Hf|done..].
Qed.

Lemma load_fuelled p w : load p w ≠ OutOfFuel.
Proof. unfold load. by destruct (heap w !! p). Qed.

Lemma MOZ_ASSERT_fuelled env cond (w : World) : MOZ_ASSERT env cond w ≠ OutOfFuel.
Proof. unfold MOZ_ASSERT. by destruct (DEBUG env && negb cond). Qed.

Lemma AddRef_fuelled env this w : AddRef env this w ≠ OutOfFuel.
Proof.
  destruct (heap w !! this) as [c|] eqn:E.
  - rewrite (AddRef_run _ _ _ _ E). by destruct (DEBUG env && negb _).
  - unfold AddRef, mbind, comp_bind, bind, load. by rewrite E.
Qed.

Lemma Release_fuelled env this w : Release env this w ≠ OutOfFuel.
Proof.
  destruct (heap w !! this) as [c|] eqn:E.
  - rewrite (Release_run _ _ _ _ E). destruct (DEBUG env && negb _); [done|].
    cbn zeta. destruct (_ =? 0)%Z; [|done]. by destruct (IsDead c).
  - unfold Release, mbind, comp_bind, bind, load. by rewrite E.
Qed.

Create HintDb fuelled.
#[local] Hint Resolve load_fuelled MOZ_ASSERT_fuelled AddRef_fuelled
  Release_fuelled : fuelled.

(** [DieInternal] makes at most one call per entry of an [mAllChildren]
    array: each call empties the array it walks.  With more fuel than the
    store weighs the recursion comes to an end. *)
Lemma DieInternal_enough_fuel env fuel :
  ∀ this w,
    refcnt_ok w → weight w < fuel →
    DieInternal env fuel this w ≠ OutOfFuel.
Proof.
  induction fuel as [|fuel IH]; intros this w Hok Hw; [lia|].
  assert (Hloop : ∀ l v, refcnt_ok v → weight v + length l ≤ fuel →
                         for_each (DieInternal env fuel) l v ≠ OutOfFuel).
  { induction l as [|x l IHl]; intros v Hv Hlen; [done|].
    cbn [for_each]. cbn [length] in Hlen. unfold bind.
    destruct (DieInternal env fuel x v) as [[[] v1]| | |] eqn:E; [|done|done|].
    - destruct (DieInternal_teardown _ _ _ _ _ Hv E) as [T _].
      apply IHl; [by eapply teardown_refcnt_ok|].
      pose proof (teardown_weight _ _ T). lia.
    - exfalso. revert E. apply IH; [done|lia]. }
  cbn [DieInternal].
  apply bind_fuelled; [auto with fuelled|]. intros c w0 Hl.
  apply load_Ok in Hl as (c0 & Hc & [= -> ->]).
  apply bind_fuelled; [auto with fuelled|]. intros [] w0 Ha.
  apply MOZ_ASSERT_Ok in Ha as [[= ->] _].
  apply bind_fuelled; [auto with fuelled|]. intros n w1 Ha.
  rewrite (AddRef_run _ _ _ _ Hc) in Ha.
  destruct (DEBUG env && negb _); [discriminate|].
  cbn zeta in Ha. injection Ha as <- <-.
  set (k := wrap_nsrefcnt (mRefCnt c0 + 1)) in *.
  apply bind_fuelled; [auto with fuelled|]. intros c1 w1 Hl.
  apply load_Ok in Hl as (c1' & Hc1 & [= -> ->]).
  cbn in Hc1. rewrite lookup_insert_eq in Hc1. injection Hc1 as <-.
  apply bind_fuelled; [done|]. intros [] w2 Hs.
  rewrite store_run in Hs. injection Hs as <-.
  apply bind_fuelled.
  - apply Hloop.
    + intros q cq. cbn. rewrite insert_insert_eq, lookup_insert.
      case_decide as E; [|by apply Hok].
      intros [= <-]. cbn. subst k. unfold wrap_nsrefcnt.
      apply Z.mod_pos_bound. reflexivity.
    + cbn [mAllChildren set_mRefCnt].
      match goal with
      | |- weight (with_heap _ ?x) + _ ≤ _ => set (v1 := x)
      end.
      pose proof (weight_insert w this c0 (set_mRefCnt k c0) Hc) as H1.
      pose proof (weight_insert v1 this (set_mRefCnt k c0)
                    (set_mAllChildren [] (set_mRefCnt k c0))
                    (lookup_insert_eq _ _ _)) as H2.
      change (weight (with_heap (<[this := set_mRefCnt k c0]> (heap w)) w))
        with (weight v1) in H1.
      cbn [mAllChildren set_mRefCnt set_mAllChildren length] in H1, H2.
      change (heap v1) with (<[this := set_mRefCnt k c0]> (heap w)) in H2.
      lia.
  - intros [] w3 _.
    apply bind_fuelled; [auto with fuelled|]. intros c3 w3' _.
    apply bind_fuelled; [done|]. intros [] w4 _.
    apply bind_fuelled; [auto with fuelled|]. intros n w5 _. done.
Qed.

Lemma Die_enough_fuel env fuel this w :
  refcnt_ok w → weight w < fuel → Die env fuel this w ≠ OutOfFuel.
Proof.
  intros Hok Hw. unfold Die.
  apply bind_fuelled; [auto with fuelled|]. intros c w0 Hl.
  apply load_Ok in Hl as (c0 & Hc & [= -> ->]).
  apply bind_fuelled; [auto with fuelled|]. intros [] w0 Ha.
  apply MOZ_ASSERT_Ok in Ha as [[= ->] _].
  destruct (mParent c0) as [parent|]; [|done].
  apply bind_fuelled; [auto with fuelled|]. intros p w0 Hl.
  apply load_Ok in Hl as (cp & Hp & [= -> ->]).
  apply bind_fuelled; [done|]. intros [] w1 Hs.
  rewrite store_run in Hs. injection Hs as <-.
  apply bind_fuelled; [auto with fuelled|]. intros p1 w1 Hl.
  apply load_Ok in Hl as (cp1 & Hp1 & [= -> ->]).
  cbn in Hp1. rewrite lookup_insert_eq in Hp1. injection Hp1 as <-.
  apply bind_fuelled; [done|]. intros [] w2 Hs.
  rewrite store_run in Hs. injection Hs as <-.
  apply DieInternal_enough_fuel.
  - intros q cq. cbn. rewrite insert_insert_eq, lookup_insert.
    case_decide as E; [|by apply Hok]. intros [= <-]. cbn. by eapply Hok.
  - destruct w as [h r l]. cbn in *. rewrite insert_insert_eq.
    eapply Nat.le_lt_trans; [|exact Hw]. apply weight_le.
    intros q cq'. rewrite lookup_insert. case_decide as E; [|eauto].
    intros [= <-]. subst q. exists cp. split; [done|]. cbn.
    clear. induction (mAllChildren cp) as [|y l' IHl']; [done|].
    cbn. case_decide; cbn; lia.
Qed.

(** *** Reference counting and the set's hooks *)

(** C2. For a context that is not Dead, [AddRef] calls the set's
    [RegisterContextRef] exactly when the count goes from 0 to 1, [Release]
    calls [UnregisterContextRef] exactly when the count goes from 1 to 0,
    and every other [AddRef] or [Release] leaves the set alone.  Both
    return whenever their debug assertion on the counter holds. *)
Theorem set_notified_exactly_at_refcount_transitions env this w c :
  heap w !! this = Some c →
  mState c ≠ Dead →
  (0 ≤ mRefCnt c < nsrefcnt_modulus)%Z →
  (∀ n w', AddRef env this w = Ok (n, w') →
     if decide (mRefCnt c = 0%Z)
     then n = 1%Z ∧ notified w w' (RegisterContextRef (mContextSet c) this)
     else n ≠ 1%Z ∧ silent w w') ∧
  (∀ n w', Release env this w = Ok (n, w') →
     if decide (mRefCnt c = 1%Z)
     then n = 0%Z ∧ notified w w' (UnregisterContextRef (mContextSet c) this)
     else n ≠ 0%Z ∧ silent w w') ∧
  (DEBUG env = false ∨ (mRefCnt c < 2 ^ 31)%Z →
     ∃ n w', AddRef env this w = Ok (n, w')) ∧
  (DEBUG env = false ∨ (0 < mRefCnt c < 2 ^ 31)%Z →
     ∃ n w', Release env this w = Ok (n, w')).
Proof.
  intros Hc Hlive Hrange.
  assert (Hd : IsDead c = false) by (unfold IsDead; destruct (mState c); done).
  unfold nsrefcnt_modulus in Hrange.
  repeat split.
  - intros n w'. rewrite (AddRef_run _ _ _ _ Hc), Hd.
    destruct (DEBUG env && negb _); [discriminate|]. cbn zeta.
    intros [= <- <-]. unfold notified, silent, wrap_nsrefcnt, nsrefcnt_modulus.
    case_decide as E0.
    + rewrite E0. done.
    + destruct (decide (mRefCnt c = 2 ^ 32 - 1)%Z) as [E|E].
      * rewrite E. done.
      * rewrite Z.mod_small by lia. cbn.
        destruct (mRefCnt c + 1 =? 1)%Z eqn:E1; [apply Z.eqb_eq in E1; lia|].
        split; [lia|done].
  - intros n w'. rewrite (Release_run _ _ _ _ Hc), Hd.
    destruct (DEBUG env && negb _); [discriminate|]. cbn zeta.
    unfold notified, silent, wrap_nsrefcnt, nsrefcnt_modulus.
    case_decide as E1.
    + rewrite E1. cbn. intros [= <- <-]. done.
    + destruct (decide (mRefCnt c = 0)%Z) as [E|E].
      * rewrite E. cbn. intros [= <- <-]. done.
      * rewrite Z.mod_small by lia.
        destruct (mRefCnt c - 1 =? 0)%Z eqn:E0; [apply Z.eqb_eq in E0; lia|].
        intros [= <- <-]. split; [lia|done].
  - intros Hdbg. rewrite (AddRef_run _ _ _ _ Hc).
    replace (DEBUG env && negb _) with false; [cbn zeta; eauto|].
    destruct Hdbg as [->|Hlt]; [done|].
    rewrite int32_t_small by lia. symmetry. apply andb_false_iff. right.
    apply negb_false_iff, Z.leb_le. lia.
  - intros Hdbg. rewrite (Release_run _ _ _ _ Hc), Hd.
    replace (DEBUG env && negb _) with false;
      [cbn zeta; destruct (_ =? 0)%Z; eauto|].
    destruct Hdbg as [->|Hlt]; [done|].
    rewrite int32_t_small by lia. symmetry. apply andb_false_iff. right.
    apply negb_false_iff, Z.ltb_lt. lia.
Qed.

Lemma set_notified_exactly_at_refcount_transitions_witness :
  heap (nested_frames 0) !! 2 = Some (context 12 0 Active (Some 1) [3] [3]) ∧
  (∀ n w', AddRef debug_build 2 (nested_frames 0) = Ok (n, w') →
     n = 1%Z ∧ notified (nested_frames 0) w' (RegisterContextRef 100 2)).
Proof.
  split; [vm_compute; reflexivity|].
  refine (proj1 (set_notified_exactly_at_refcount_transitions debug_build 2
                   (nested_frames 0) (context 12 0 Active (Some 1) [3] [3])
                   _ _ _));
    [vm_compute; reflexivity|discriminate|split; [done|reflexivity]].
Defined.

(** C10. An [AddRef] that takes the count of a Dead context from 0 to 1
    returns 1 and does not call the set: the new reference does not
    subscribe the set again. *)
Theorem AddRef_of_dead_context_does_not_notify env this w c :
  heap w !! this = Some c →
  mState c = Dead →
  mRefCnt c = 0%Z →
  ∃ w', AddRef env this w = Ok (1%Z, w') ∧ silent w w' ∧
        heap w' = <[this := set_mRefCnt 1 c]> (heap w).
Proof.
  intros Hc Hdead H0. rewrite (AddRef_run _ _ _ _ Hc), H0.
  unfold IsDead. rewrite Hdead. cbn. rewrite andb_false_r.
  eexists. split; [reflexivity|]. split; reflexivity.
Qed.

Lemma AddRef_of_dead_context_does_not_notify_witness :
  ∃ w', AddRef debug_build 2 lone_dead_context = Ok (1%Z, w') ∧
        silent lone_dead_context w' ∧
        heap w' = <[2 := set_mRefCnt 1 (context 12 0 Dead None [] [])]>
                    (heap lone_dead_context).
Proof.
  apply AddRef_of_dead_context_does_not_notify;
    [vm_compute; reflexivity|reflexivity|reflexivity].
Defined.

(** *** [Die] *)

(** The store in which [Die] calls [DieInternal]: [this] has left both
    child arrays of [parent]. *)
Lemma Die_Ok_inv env fuel this w c w' :
  heap w !! this = Some c →
  Die env fuel this w = Ok (tt, w') →
  ∃ parent cp,
    mParent c = Some parent ∧ heap w !! parent = Some cp ∧
    DieInternal env fuel this
      (with_heap
         (<[parent := set_mLiveChildren (RemoveElement this (mLiveChildren cp))
                        (set_mAllChildren (RemoveElement this (mAllChildren cp)) cp)]>
            (heap w)) w) = Ok (tt, w').
Proof.
  intros Hc H. unfold Die in H.
  apply bind_Ok in H as (c0 & w0 & Hl & H).
  apply load_Ok in Hl as (c1 & Hc1 & [= -> ->]).
  rewrite Hc in Hc1. injection Hc1 as <-.
  apply bind_Ok in H as ([] & w0 & Ha & H).
  apply MOZ_ASSERT_Ok in Ha as [[= ->] _].
  destruct (mParent c) as [parent|]; [|discriminate].
  apply bind_Ok in H as (cp & w0 & Hl & H).
  apply load_Ok in Hl as (cp' & Hp & [= -> ->]).
  apply bind_Ok in H as ([] & w1 & Hs & H).
  rewrite store_run in Hs. injection Hs as <-.
  apply bind_Ok in H as (cp1 & w1 & Hl & H).
  apply load_Ok in Hl as (cp1' & Hp1 & [= -> ->]).
  cbn in Hp1. rewrite lookup_insert_eq in Hp1. injection Hp1 as <-.
  apply bind_Ok in H as ([] & w2 & Hs & H).
  rewrite store_run in Hs. injection Hs as <-.
  exists parent, cp'. split; [done|]. split; [done|].
  cbn in H. rewrite insert_insert_eq in H. exact H.
Qed.

(** C9. [Die] reads the child arrays through [mParent] without a test: on
    a context whose parent pointer is null the call has no defined
    behaviour, and a call that returns had a parent to read through. *)
Theorem Die_of_root_context_is_undefined env fuel this w c :
  heap w !! this = Some c →
  (mParent c = None → mState c ≠ Dead → Die env fuel this w = Undefined) ∧
  (∀ w', Die env fuel this w = Ok (tt, w') →
         ∃ parent, mParent c = Some parent ∧ is_Some (heap w !! parent)).
Proof.
  intros Hc. split.
  - intros Hroot Hlive. unfold Die, mbind, comp_bind, bind, load. rewrite Hc.
    unfold MOZ_ASSERT, IsDead.
    replace (negb (negb _)) with false by (destruct (mState c); done).
    rewrite andb_false_r. cbn. rewrite Hroot. reflexivity.
  - intros w' H. destruct (Die_Ok_inv _ _ _ _ _ _ Hc H) as (p & cp & Hp & Hcp & _).
    eauto.
Qed.

Lemma Die_of_root_context_is_undefined_witness :
  heap (nested_frames 1) !! 1 = Some (context 11 1 Active None [2] [2]) ∧
  Die debug_build 3 1 (nested_frames 1) = Undefined.
Proof.
  split; [vm_compute; reflexivity|].
  refine (proj1 (Die_of_root_context_is_undefined debug_build 3 1
                   (nested_frames 1) (context 11 1 Active None [2] [2]) _) _ _);
    [vm_compute; reflexivity|reflexivity|discriminate].
Defined.

(** [Die] takes [this] out of its parent's live children and touches no
    other live-children array. *)
Lemma Die_keeps_mLiveChildren env fuel this w w' c parent q cq cq' :
  refcnt_ok w →
  heap w !! this = Some c →
  mParent c = Some parent →
  Die env fuel this w = Ok (tt, w') →
  heap w !! q = Some cq →
  heap w' !! q = Some cq' →
  mLiveChildren cq' =
    if decide (q = parent) then RemoveElement this (mLiveChildren cq)
    else mLiveChildren cq.
Proof.
  intros Hok Hc Hpar H Hq Hq'.
  destruct (Die_Ok_inv _ _ _ _ _ _ Hc H) as (p & cp & Hp & Hcp & HD).
  rewrite Hpar in Hp. injection Hp as <-.
  match type of HD with DieInternal _ _ _ ?x = _ => set (v := x) in * end.
  assert (Hokv : refcnt_ok v).
  { intros x cx. subst v. cbn. rewrite lookup_insert. case_decide as E.
    - intros [= <-]. cbn. eauto.
    - eauto. }
  case_decide as E.
  - subst q. rewrite Hcp in Hq. injection Hq as <-.
    assert (Hv : heap v !! parent = Some
              (set_mLiveChildren (RemoveElement this (mLiveChildren cp))
                 (set_mAllChildren (RemoveElement this (mAllChildren cp)) cp)))
      by (subst v; cbn; by rewrite lookup_insert_eq).
    exact (DieInternal_keeps_mLiveChildren _ _ _ _ _ _ _ _ Hokv HD Hv Hq').
  - apply (DieInternal_keeps_mLiveChildren _ _ _ _ _ q _ _ Hokv HD); [|done].
    subst v. cbn. by rewrite lookup_insert_ne.
Qed.

(** C1. The frame at 2 holds the frame at 3 in both of its child arrays.
    [Die] on 2 marks both Dead, clears their parent pointers and empties
    [mAllChildren] of 2, and 3 is still in [mLiveChildren] of 2. *)
Theorem Die_leaves_descendant_in_live_children :
  ∃ w', Die debug_build 3 2 (nested_frames 1) = Ok (tt, w') ∧
        heap w' !! 1 = Some (context 11 1 Active None [] []) ∧
        heap w' !! 2 = Some (context 12 1 Dead None [3] []) ∧
        heap w' !! 3 = Some (context 13 1 Dead None [] []).
Proof.
  eexists. split; [vm_compute; reflexivity|].
  repeat split; vm_compute; reflexivity.
Qed.

#[local] Set Warnings "-clear-no-such-hyp".
(** *** The walk of [DieInternal] *)

Lemma DieInternal_S_inv env fuel this w w' :
  DieInternal env (S fuel) this w = Ok (tt, w') →
  ∃ c w3 c3 n,
    heap w !! this = Some c ∧
    for_each (DieInternal env fuel) (mAllChildren c) (entered w this c) =
      Ok (tt, w3) ∧
    heap w3 !! this = Some c3 ∧
    Release env this (marked w3 this c3) = Ok (n, w').
Proof.
  intros H. cbn [DieInternal] in H.
  apply bind_Ok in H as (c & w0 & Hl & H).
  apply load_Ok in Hl as (c0 & Hc & [= -> ->]).
  apply bind_Ok in H as ([] & w0 & Ha & H).
  apply MOZ_ASSERT_Ok in Ha as [[= ->] _].
  apply bind_Ok in H as (n & w1 & Ha & H).
  rewrite (AddRef_run _ _ _ _ Hc) in Ha.
  destruct (DEBUG env && negb _); [discriminate|].
  cbn zeta in Ha. injection Ha as <- <-.
  apply bind_Ok in H as (c1 & w1' & Hl & H).
  apply load_Ok in Hl as (c1' & Hc1 & [= -> ->]).
  cbn in Hc1. rewrite lookup_insert_eq in Hc1. injection Hc1 as <-.
  apply bind_Ok in H as ([] & w2 & Hs & H).
  rewrite store_run in Hs. injection Hs as <-.
  apply bind_Ok in H as ([] & w3 & Hf & H).
  apply bind_Ok in H as (c3 & w3' & Hl & H).
  apply load_Ok in Hl as (c3' & Hc3 & [= -> ->]).
  apply bind_Ok in H as ([] & w4 & Hs & H).
  rewrite store_run in Hs. injection Hs as <-.
  apply bind_Ok in H as (n & w5 & Hr & H).
  apply ret_Ok in H. injection H as ->.
  exists c0, w3, c3', n. split; [done|]. split; [|done].
  unfold entered. cbn in Hf. rewrite insert_insert_eq in Hf. exact Hf.
Qed.

(** The release of the temporary reference frees [this] or leaves it as
    it was marked, and tells the set nothing. *)
Lemma Release_marked env this w c n w' :
  Release env this (marked w this c) = Ok (n, w') →
  set_calls w' = set_calls w ∧
  (heap w' = delete this (heap w) ∨
   ∃ k, heap w' =
        <[this := set_mRefCnt k (set_mState Dead (set_mParent None c))]> (heap w)).
Proof.
  erewrite Release_run by (cbn; apply lookup_insert_eq).
  destruct (DEBUG env && negb _); [discriminate|]. cbn zeta.
  cbn [IsDead mState set_mState].
  destruct (_ =? 0)%Z; intros [= <- <-]; cbn.
  - split; [done|]. left. apply delete_insert_eq.
  - split; [done|]. right. eexists. apply insert_insert_eq.
Qed.

Lemma entered_refcnt_ok w this c :
  refcnt_ok w → heap w !! this = Some c → refcnt_ok (entered w this c).
Proof.
  intros Hok Hc q cq. unfold entered. cbn. rewrite lookup_insert.
  case_decide as E; [|by apply Hok].
  intros [= <-]. cbn. unfold wrap_nsrefcnt.
  apply Z.mod_pos_bound. reflexivity.
Qed.

Lemma entered_other w this c q :
  q ≠ this → heap (entered w this c) !! q = heap w !! q.
Proof. intros Hq. unfold entered. cbn. by rewrite lookup_insert_ne. Qed.

(** *** What [Die] frees and what it keeps *)

(** [Die] frees a context only if nobody references it, allocates nothing,
    and leaves the reference count, the identifier and the set of every
    other context as they were: the temporary references are all given
    back.  A registration goes only with its object. *)
Theorem Die_frees_only_unreferenced env fuel this w w' :
  refcnt_ok w →
  Die env fuel this w = Ok (tt, w') →
  (∀ q c, heap w !! q = Some c →
     match heap w' !! q with
     | Some c' => mRefCnt c' = mRefCnt c ∧
                  mBrowsingContextId c' = mBrowsingContextId c ∧
                  mContextSet c' = mContextSet c
     | None => mRefCnt c = 0%Z
     end) ∧
  (∀ q, heap w !! q = None → heap w' !! q = None) ∧
  (∀ i p, sBrowsingContexts w !! i = Some p →
          sBrowsingContexts w' !! i = Some p ∨
          ∃ q c, heap w !! q = Some c ∧ mBrowsingContextId c = i ∧
                 heap w' !! q = None).
Proof.
  intros Hok H.
  destruct (heap w !! this) as [c|] eqn:Hc.
  2: { unfold Die, mbind, comp_bind, bind, load in H. by rewrite Hc in H. }
  destruct (Die_Ok_inv _ _ _ _ _ _ Hc H) as (p & cp & Hp & Hcp & HD).
  match type of HD with DieInternal _ _ _ ?x = _ => set (v := x) in * end.
  assert (Hv : ∀ q, heap v !! q =
            if decide (p = q)
            then Some (set_mLiveChildren (RemoveElement this (mLiveChildren cp))
                         (set_mAllChildren (RemoveElement this (mAllChildren cp)) cp))
            else heap w !! q).
  { intros q. subst v. cbn. apply lookup_insert. }
  assert (Hokv : refcnt_ok v).
  { intros q cq. rewrite Hv. case_decide as E; [|by apply Hok].
    intros [= <-]. cbn. by eapply Hok. }
  destruct (DieInternal_teardown _ _ _ _ _ Hokv HD) as (T & _ & _).
  split; [|split].
  - intros q cq Hq.
    assert (∃ cv, heap v !! q = Some cv ∧ mRefCnt cv = mRefCnt cq ∧
                  mBrowsingContextId cv = mBrowsingContextId cq ∧
                  mContextSet cv = mContextSet cq) as (cv & Hcv & R & I & C).
    { rewrite Hv. case_decide as E; [|eauto]. subst q.
      rewrite Hcp in Hq. injection Hq as <-. eauto. }
    pose proof (teardown_kept _ _ T _ _ Hcv) as K.
    destruct (heap w' !! q) as [c'|]; [|congruence].
    destruct K as (R' & I' & C' & _). repeat split; congruence.
  - intros q Hq. apply (teardown_no_alloc _ _ T). rewrite Hv.
    case_decide as E; [congruence|done].
  - intros i q Hi.
    destruct (teardown_registry _ _ T i) as [E|(_ & x & cx & Hx & Hix & Hgone)].
    + left. by rewrite E.
    + right. rewrite Hv in Hx. case_decide as E.
      * injection Hx as <-. subst x. exists p, cp. done.
      * exists x, cx. done.
Qed.

(** *** What the set hears during [Die] *)

Lemma reported_and_freed_app w1 w2 w3 l1 l2 :
  set_calls w2 = set_calls w1 ++ l1 → Forall (reported_and_freed w2) l1 →
  set_calls w3 = set_calls w2 ++ l2 → Forall (reported_and_freed w3) l2 →
  (∀ q, heap w2 !! q = None → heap w3 !! q = None) →
  set_calls w3 = set_calls w1 ++ (l1 ++ l2) ∧
  Forall (reported_and_freed w3) (l1 ++ l2).
Proof.
  intros E1 F1 E2 F2 Hmono. split; [by rewrite E2, E1, app_assoc|].
  apply Forall_app. split; [|done].
  eapply Forall_impl; [exact F1|]. intros [s x|s x]; cbn; auto.
Qed.

Lemma DieInternal_reports env fuel :
  ∀ this w w',
    refcnt_ok w →
    DieInternal env fuel this w = Ok (tt, w') →
    ∃ l, set_calls w' = set_calls w ++ l ∧ Forall (reported_and_freed w') l.
Proof.
  induction fuel as [|fuel IH]; intros this w w' Hok H; [discriminate|].
  destruct (DieInternal_teardown _ _ _ _ _ Hok H) as (_ & _ & Hzero).
  apply DieInternal_S_inv in H as (c & w3 & c3 & n & Hc & Hloop & Hc3 & Hrel).
  pose proof (entered_refcnt_ok _ _ _ Hok Hc) as Hok2.
  assert (Hwalk : ∀ l v v3, refcnt_ok v →
            for_each (DieInternal env fuel) l v = Ok (tt, v3) →
            teardown v v3 ∧
            ∃ k, set_calls v3 = set_calls v ++ k ∧
                 Forall (reported_and_freed v3) k).
  { induction l as [|x l IHl]; intros v v3 Hv Hl; cbn [for_each] in Hl.
    - injection Hl as <-. split; [apply teardown_refl|].
      exists []. by rewrite app_nil_r.
    - unfold bind in Hl.
      destruct (DieInternal env fuel x v) as [[[] v1]| | |] eqn:E;
        try discriminate.
      destruct (DieInternal_teardown _ _ _ _ _ Hv E) as (T1 & _ & _).
      destruct (IH _ _ _ Hv E) as (k1 & E1 & F1).
      destruct (IHl v1 v3 (teardown_refcnt_ok _ _ T1 Hv) Hl)
        as (T2 & k2 & E2 & F2).
      split; [by eapply teardown_trans|].
      exists (k1 ++ k2).
      eapply reported_and_freed_app; eauto. apply (teardown_no_alloc _ _ T2). }
  destruct (Hwalk _ _ _ Hok2 Hloop) as (T & k & Ek & Fk).
  destruct (Release_marked _ _ _ _ _ _ Hrel) as (Ecalls & Hheap).
  assert (Hkeep : ∀ q, heap w3 !! q = None → heap w' !! q = None).
  { intros q Hq. destruct Hheap as [-> | (j & ->)].
    - rewrite lookup_delete. by case_decide.
    - rewrite lookup_insert_ne; [done|]. intros <-. congruence. }
  set (k0 := wrap_nsrefcnt (mRefCnt c + 1)).
  destruct ((k0 =? 1)%Z && negb (IsDead c)) eqn:Ereg.
  - exists (RegisterContextRef (mContextSet c) this :: k). split.
    + rewrite Ecalls, Ek. unfold entered. cbn. fold k0. rewrite Ereg.
      by rewrite <- app_assoc.
    + apply Forall_cons. split.
      * cbn. apply (Hzero c Hc).
        apply andb_true_iff in Ereg as [E1 _]. apply Z.eqb_eq in E1.
        subst k0. unfold wrap_nsrefcnt, nsrefcnt_modulus in *.
        specialize (Hok _ _ Hc). unfold nsrefcnt_modulus in Hok.
        destruct (decide (mRefCnt c = 2 ^ 32 - 1)%Z) as [E|E].
        -- rewrite E in E1. done.
        -- rewrite Z.mod_small in E1 by lia. lia.
      * eapply Forall_impl; [exact Fk|]. intros [s x|s x]; cbn; auto.
  - exists k. split.
    + rewrite Ecalls, Ek. unfold entered. cbn. fold k0. by rewrite Ereg.
    + eapply Forall_impl; [exact Fk|]. intros [s x|s x]; cbn; auto.
Qed.

(** [Die] never tells the set that a reference was dropped.  What the set
    hears is a [RegisterContextRef] for each context that nobody referenced:
    the temporary reference of the walk is reported, the context is freed
    when that reference is released, and the release is not reported. *)
Theorem Die_reports_only_freed_contexts env fuel this w w' :
  refcnt_ok w →
  Die env fuel this w = Ok (tt, w') →
  ∃ l, set_calls w' = set_calls w ++ l ∧ Forall (reported_and_freed w') l.
Proof.
  intros Hok H.
  destruct (heap w !! this) as [c|] eqn:Hc.
  2: { unfold Die, mbind, comp_bind, bind, load in H. by rewrite Hc in H. }
  destruct (Die_Ok_inv _ _ _ _ _ _ Hc H) as (p & cp & Hp & Hcp & HD).
  apply DieInternal_reports in HD; [exact HD|].
  intros q cq. cbn. rewrite lookup_insert. case_decide as E; [|by apply Hok].
  intros [= <-]. cbn. by eapply Hok.
Qed.

(** *** Every descendant is reached *)

(** A step of [DieInternal] that rewrites only [x], a context of the walk,
    keeps the walk. *)
Lemma walk_rewrite w v v' (S F : gset addr) x :
  walk w v S F →
  x ∈ F ∪ S →
  (∀ q, q ≠ x → heap v' !! q = heap v !! q) →
  (∀ c', heap v' !! x = Some c' → mAllChildren c' = []) →
  (x ∈ F → dead_or_freed v' x) →
  walk w v' S F.
Proof.
  intros [Hfin Hcl Hun Hclr] Hx Hother Hkids Hdead. split.
  - intros p Hp. destruct (decide (p = x)) as [->|Hne]; [by apply Hdead|].
    unfold dead_or_freed. rewrite Hother by done. by apply Hfin.
  - exact Hcl.
  - intros p Hp. rewrite Hother; [by apply Hun|]. intros ->. done.
  - intros p c Hp Hc. destruct (decide (p = x)) as [->|Hne]; [eauto|].
    rewrite Hother in Hc by done. eauto.
Qed.

Lemma walk_mono w v (S F : gset addr) p :
  walk w v S F → p ∈ F ∪ S → ∀ c, heap v !! p = Some c → mAllChildren c = [].
Proof.
  intros [Hfin _ _ Hclr] Hp c Hc. apply elem_of_union in Hp as [Hp|Hp].
  - specialize (Hfin p Hp). unfold dead_or_freed in Hfin. rewrite Hc in Hfin.
    by destruct Hfin as (_ & _ & ?).
  - eauto.
Qed.

Lemma DieInternal_walk env w fuel :
  ∀ x v v' (S F : gset addr),
    walk w v S F →
    DieInternal env fuel x v = Ok (tt, v') →
    ∃ F', F ⊆ F' ∧ walk w v' S F' ∧ x ∈ F' ∪ S.
Proof.
  induction fuel as [|fuel IH]; intros x v v' S F Hwalk H; [discriminate|].
  apply DieInternal_S_inv in H as (c & v3 & c3 & n & Hc & Hloop & Hc3 & Hrel).
  destruct (Release_marked _ _ _ _ _ _ Hrel) as (_ & Hheap).
  assert (Hafter : ∀ q, q ≠ x → heap v' !! q = heap v3 !! q).
  { intros q Hq. destruct Hheap as [-> | (j & ->)].
    - by rewrite lookup_delete_ne.
    - by rewrite lookup_insert_ne. }
  assert (Hx' : mAllChildren c3 = [] → dead_or_freed v' x ∧
                ∀ c', heap v' !! x = Some c' → mAllChildren c' = []).
  { intros Hk. unfold dead_or_freed. destruct Hheap as [-> | (j & ->)].
    - rewrite lookup_delete_eq. done.
    - rewrite lookup_insert_eq. cbn. split; [done|]. by intros c' [= <-]. }
  (* the children are walked with [x] among the running calls *)
  assert (Hchildren : ∀ l u u' (G : gset addr),
            walk w u (S ∪ {[x]}) G →
            for_each (DieInternal env fuel) l u = Ok (tt, u') →
            ∃ G', G ⊆ G' ∧ walk w u' (S ∪ {[x]}) G' ∧
                  ∀ q, q ∈ l → q ∈ G' ∪ (S ∪ {[x]})).
  { induction l as [|y l IHl]; intros u u' G Hu Hl; cbn [for_each] in Hl.
    - injection Hl as <-. exists G. split; [done|]. split; [done|].
      intros q Hq. by apply elem_of_nil in Hq.
    - unfold bind in Hl.
      destruct (DieInternal env fuel y u) as [[[] u1]| | |] eqn:E;
        try discriminate.
      destruct (IH _ _ _ _ _ Hu E) as (G1 & HG1 & Hu1 & Hy).
      destruct (IHl _ _ _ Hu1 Hl) as (G2 & HG2 & Hu2 & Hrest).
      exists G2. split; [set_solver|]. split; [done|].
      intros q Hq. apply elem_of_cons in Hq as [->|Hq]; [set_solver|eauto]. }
  destruct (decide (x ∈ F ∪ S)) as [Hin|Hout].
  - (* [x] was walked before: it has no children left *)
    pose proof (walk_mono _ _ _ _ _ Hwalk Hin c Hc) as Hnil.
    rewrite Hnil in Hloop. cbn in Hloop. injection Hloop as <-.
    unfold entered in Hc3. cbn in Hc3. rewrite lookup_insert_eq in Hc3.
    injection Hc3 as <-.
    destruct Hx' as [Hdead Hkids]; [done|].
    exists F. split; [done|]. split; [|done].
    eapply walk_rewrite; [exact Hwalk|exact Hin| |exact Hkids|by intros _].
    intros q Hq. rewrite Hafter by done. by apply entered_other.
  - (* first visit *)
    assert (Hw : heap w !! x = Some c).
    { rewrite <- (walk_untouched _ _ _ _ Hwalk x Hout). exact Hc. }
    assert (Hentered : walk w (entered v x c) (S ∪ {[x]}) F).
    { destruct Hwalk as [Hfin Hcl Hun Hclr]. split.
      - intros p Hp. unfold dead_or_freed.
        rewrite entered_other by set_solver. by apply Hfin.
      - intros p cp q Hp Hcp Hq. specialize (Hcl p cp q Hp Hcp Hq). set_solver.
      - intros p Hp. rewrite entered_other by set_solver. apply Hun. set_solver.
      - intros p cp Hp. destruct (decide (p = x)) as [->|Hne].
        + unfold entered. cbn. rewrite lookup_insert_eq. by intros [= <-].
        + rewrite entered_other by done. apply Hclr. set_solver. }
    destruct (Hchildren _ _ _ _ Hentered Hloop) as (G & HFG & HG & Hkids).
    assert (Hnil : mAllChildren c3 = []).
    { apply (walk_cleared _ _ _ _ HG x); [set_solver|done]. }
    destruct (Hx' Hnil) as [Hdead Hclean].
    exists (G ∪ {[x]}). split; [set_solver|]. split; [|set_solver].
    destruct HG as [Hfin Hcl Hun Hclr]. split.
    + intros p Hp. destruct (decide (p = x)) as [->|Hne]; [done|].
      unfold dead_or_freed. rewrite Hafter by done. apply Hfin. set_solver.
    + intros p cp q Hp Hcp Hq. destruct (decide (p = x)) as [->|Hne].
      * rewrite Hw in Hcp. injection Hcp as <-.
        specialize (Hkids q Hq). set_solver.
      * assert (p ∈ G) by set_solver.
        specialize (Hcl p cp q H Hcp Hq). set_solver.
    + intros p Hp. rewrite Hafter by set_solver. apply Hun. set_solver.
    + intros p cp Hp. assert (p ≠ x) by set_solver.
      rewrite Hafter by done. apply Hclr. set_solver.
Qed.

(** [DieInternal] reaches every descendant: whatever the children arrays
    of the store lead to from [this], shared or cyclic, is freed or is Dead
    without parent and without children when the call returns. *)
Lemma DieInternal_kills_every_descendant env fuel this w w' q :
  DieInternal env fuel this w = Ok (tt, w') →
  descendant w this q →
  dead_or_freed w' q.
Proof.
  intros H Hq.
  assert (Hstart : walk w w ∅ ∅).
  { split; [set_solver|set_solver|done|set_solver]. }
  destruct (DieInternal_walk _ _ _ _ _ _ _ _ Hstart H) as (F & _ & Hwalk & Hthis).
  assert (Hin : this ∈ F) by set_solver. clear Hthis.
  enough (q ∈ F) by (by apply (walk_finished _ _ _ _ Hwalk)).
  clear H Hstart.
  induction Hq as [x|x y z (c & Hc & Hy) _ IHq]; [done|].
  apply IHq. pose proof (walk_closed _ _ _ _ Hwalk x c y Hin Hc Hy) as Hy'.
  apply elem_of_union in Hy' as [Hy'|Hy']; [done|].
  by apply elem_of_empty in Hy'.
Qed.

Lemma elem_of_RemoveElement_ne (x y : addr) (l : list addr) :
  y ≠ x → y ∈ l → y ∈ RemoveElement x l.
Proof.
  intros Hne. induction l as [|z l IH]; cbn; [done|].
  intros Hin. apply elem_of_cons in Hin as [->|Hin].
  - rewrite decide_False by done. apply elem_of_cons. by left.
  - case_decide; [done|]. apply elem_of_cons. right. by apply IH.
Qed.

(** A path from [x] can do without the edges that lead back to [x]. *)
Lemma rtc_avoid_start {A} (R : relation A) `{!EqDecision A} (x q : A) :
  rtc R x q → rtc (λ a b, R a b ∧ b ≠ x) x q.
Proof.
  revert q. apply rtc_ind_r; [done|].
  intros y z _ Hyz IH.
  destruct (decide (z = x)) as [->|Hne]; [done|].
  eapply rtc_r; [exact IH|done].
Qed.

(** [Die] reaches every descendant: whatever the children arrays of the
    store lead to from [this], shared or cyclic, is freed or is Dead
    without parent and without children when [Die] returns. *)
Theorem Die_kills_every_descendant env fuel this w w' q :
  Die env fuel this w = Ok (tt, w') →
  descendant w this q →
  dead_or_freed w' q.
Proof.
  intros H Hq.
  destruct (heap w !! this) as [c|] eqn:Hc.
  2: { unfold Die, mbind, comp_bind, bind, load in H. by rewrite Hc in H. }
  destruct (Die_Ok_inv _ _ _ _ _ _ Hc H) as (p & cp & Hp & Hcp & HD).
  eapply DieInternal_kills_every_descendant; [exact HD|].
  apply rtc_avoid_start in Hq; [|apply _].
  eapply rtc_subrel; [|exact Hq].
  intros a b [(ca & Ha & Hb) Hne]. unfold child_edge. cbn.
  rewrite lookup_insert. case_decide as E.
  - subst a. rewrite Hcp in Ha. injection Ha as <-.
    eexists. split; [done|]. cbn. by apply elem_of_RemoveElement_ne.
  - eauto.
Qed.

Lemma nested_frames_heap refs q cq :
  heap (nested_frames refs) !! q = Some cq →
  (q = 1 ∧ cq = context 11 1 Active None [2] [2]) ∨
  (q = 2 ∧ cq = context 12 refs Active (Some 1) [3] [3]) ∨
  (q = 3 ∧ cq = context 13 refs Active (Some 2) [] []).
Proof.
  unfold nested_frames. cbn [heap].
  rewrite !lookup_insert. repeat case_decide; subst;
    rewrite ?lookup_empty; intros [= <-]; auto.
Qed.

Lemma nested_frames_refcnt_ok refs :
  (0 ≤ refs < nsrefcnt_modulus)%Z → refcnt_ok (nested_frames refs).
Proof.
  intros Hr q cq Hq.
  destruct (nested_frames_heap _ _ _ Hq) as [[_ ->]|[[_ ->]|[_ ->]]];
    cbn; [done|exact Hr|exact Hr].
Qed.

Lemma Die_kills_every_descendant_witness :
  descendant (nested_frames 1) 2 3 ∧
  ∃ w', Die debug_build 3 2 (nested_frames 1) = Ok (tt, w') ∧
        dead_or_freed w' 3.
Proof.
  assert (Hd : descendant (nested_frames 1) 2 3).
  { apply rtc_once. exists (context 12 1 Active (Some 1) [3] [3]).
    split; [vm_compute; reflexivity|]. apply list_elem_of_singleton. reflexivity. }
  split; [exact Hd|]. eexists. split; [vm_compute; reflexivity|].
  eapply (Die_kills_every_descendant debug_build 3 2 (nested_frames 1));
    [vm_compute; reflexivity|exact Hd].
Defined.

Lemma Die_frees_only_unreferenced_witness :
  refcnt_ok (nested_frames 0) ∧
  ∃ w', Die debug_build 3 2 (nested_frames 0) = Ok (tt, w') ∧
        ∀ q, heap (nested_frames 0) !! q = None → heap w' !! q = None.
Proof.
  assert (Hok : refcnt_ok (nested_frames 0))
    by (apply nested_frames_refcnt_ok; split; [done|reflexivity]).
  split; [exact Hok|]. eexists. split; [vm_compute; reflexivity|].
  refine (proj1 (proj2 (Die_frees_only_unreferenced debug_build 3 2
                          (nested_frames 0) _ Hok _))).
  vm_compute. reflexivity.
Defined.

Lemma Die_reports_only_freed_contexts_witness :
  refcnt_ok (nested_frames 0) ∧
  ∃ w' l, Die debug_build 3 2 (nested_frames 0) = Ok (tt, w') ∧
          set_calls w' = set_calls (nested_frames 0) ++ l ∧
          Forall (reported_and_freed w') l.
Proof.
  assert (Hok : refcnt_ok (nested_frames 0))
    by (apply nested_frames_refcnt_ok; split; [done|reflexivity]).
  split; [exact Hok|]. eexists.
  match goal with
  | |- ∃ l, ?D = Ok (tt, ?x) ∧ _ =>
    assert (HD : D = Ok (tt, x)) by (vm_compute; reflexivity)
  end.
  destruct (Die_reports_only_freed_contexts debug_build 3 2 (nested_frames 0)
              _ Hok HD) as (l & El & Fl).
  exists l. done.
Defined.

(** [Die] comes to an end on every store: with more fuel than the child
    arrays have entries the walk does not run out, and more fuel than that
    changes nothing of what it does. *)
Theorem Die_terminates env fuel fuel' this w :
  refcnt_ok w → weight w < fuel → fuel ≤ fuel' →
  Die env fuel this w ≠ OutOfFuel ∧
  Die env fuel' this w = Die env fuel this w.
Proof.
  intros Hok Hw Hle.
  pose proof (Die_enough_fuel env fuel this w Hok Hw) as H.
  split; [exact H|]. by apply Die_more_fuel.
Qed.

Lemma Die_terminates_witness :
  refcnt_ok (nested_frames 1) ∧ weight (nested_frames 1) < 3 ∧
  Die debug_build 3 2 (nested_frames 1) ≠ OutOfFuel ∧
  Die debug_build 10 2 (nested_frames 1) = Die debug_build 3 2 (nested_frames 1).
Proof.
  assert (Hok : refcnt_ok (nested_frames 1))
    by (apply nested_frames_refcnt_ok; split; [done|reflexivity]).
  assert (Hw : weight (nested_frames 1) < 3) by (vm_compute; lia).
  split; [exact Hok|]. split; [exact Hw|].
  apply (Die_terminates debug_build 3 10 2 (nested_frames 1) Hok Hw). lia.
Defined.

(** *** A reference taken and given back *)

Lemma set_mRefCnt_same c : set_mRefCnt (mRefCnt c) c = c.
Proof. by destruct c. Qed.



(** [AddRef] followed by [Release] leaves the store as it was, with one
    exception: a Dead context that nobody referenced is freed; its
    destructor only asserts, and the registry stays as it is.  The set hears
    of the pair only for a context that is not Dead and was not referenced:
    once of the reference, once of its release. *)
Theorem AddRef_then_Release env this w c :
  heap w !! this = Some c →
  (0 ≤ mRefCnt c < nsrefcnt_modulus)%Z →
  DEBUG env = false ∨ (mRefCnt c < 2 ^ 31 - 1)%Z →
  ∃ n w1 m w2,
    AddRef env this w = Ok (n, w1) ∧
    Release env this w1 = Ok (m, w2) ∧
    if decide (mRefCnt c = 0%Z)
    then
      if decide (mState c = Dead)
      then heap w2 = delete this (heap w) ∧
           sBrowsingContexts w2 = sBrowsingContexts w ∧
           set_calls w2 = set_calls w
      else heap w2 = heap w ∧
           sBrowsingContexts w2 = sBrowsingContexts w ∧
           set_calls w2 = set_calls w ++
             [RegisterContextRef (mContextSet c) this;
              UnregisterContextRef (mContextSet c) this]
    else w2 = w.
Proof.
  intros Hc Hrange Hdbg. unfold nsrefcnt_modulus in Hrange.
  rewrite (AddRef_run _ _ _ _ Hc).
  assert (Hk : wrap_nsrefcnt (wrap_nsrefcnt (mRefCnt c + 1) - 1) = mRefCnt c)
    by (by apply wrap_succ_pred).
  set (k := wrap_nsrefcnt (mRefCnt c + 1)) in *.
  assert (Hk1 : (k =? 1)%Z = bool_decide (mRefCnt c = 0%Z)).
  { subst k. unfold wrap_nsrefcnt, nsrefcnt_modulus.
    destruct (decide (mRefCnt c = 2 ^ 32 - 1)%Z) as [E|E].
    - rewrite E. by rewrite bool_decide_eq_false_2.
    - rewrite Z.mod_small by lia. case_bool_decide as E0.
      + apply Z.eqb_eq. lia.
      + apply Z.eqb_neq. lia. }
  assert (Hadd : DEBUG env && negb (0 <=? int32_t (mRefCnt c))%Z = false).
  { destruct Hdbg as [->|Hlt]; [done|].
    rewrite int32_t_small by lia. apply andb_false_iff. right.
    apply negb_false_iff, Z.leb_le. lia. }
  assert (Hrel : DEBUG env && negb (0 <? int32_t k)%Z = false).
  { destruct Hdbg as [->|Hlt]; [done|].
    assert (k = mRefCnt c + 1)%Z as ->.
    { subst k. unfold wrap_nsrefcnt, nsrefcnt_modulus.
      apply Z.mod_small. lia. }
    rewrite int32_t_small by lia. apply andb_false_iff. right.
    apply negb_false_iff, Z.ltb_lt. lia. }
  rewrite Hadd. cbn zeta.
  match goal with
  | |- ∃ n w1 m w2, Ok (_, ?x) = Ok (n, w1) ∧ _ => set (w1 := x)
  end.
  pose proof (Release_run env this w1 (set_mRefCnt k c)
                (lookup_insert_eq _ _ _)) as HR.
  cbn [mRefCnt set_mRefCnt] in HR. rewrite Hrel, Hk in HR. cbn zeta in HR.
  change (IsDead (set_mRefCnt k c)) with (IsDead c) in HR.
  change (mContextSet (set_mRefCnt k c)) with (mContextSet c) in HR.
  change (set_mRefCnt (mRefCnt c) (set_mRefCnt k c)) with
    (set_mRefCnt (mRefCnt c) c) in HR.
  rewrite set_mRefCnt_same in HR.
  subst w1. cbn [heap sBrowsingContexts set_calls] in HR.
  rewrite insert_insert_eq, delete_insert_eq, (insert_id _ _ _ Hc) in HR.
  rewrite Hk1 in *.
  case_decide as E0.
  - rewrite E0 in HR. cbn [Z.eqb] in HR.
    rewrite bool_decide_eq_true_2 in * by done. unfold IsDead in *.
    destruct (mState c) eqn:Ed; cbn [andb negb] in *; case_decide as Ed';
      try discriminate; try (by destruct Ed');
      (eexists _, _, _, _; split; [reflexivity|]; split; [exact HR|]);
      cbn; rewrite <- ?app_assoc; done.
  - replace (mRefCnt c =? 0)%Z with false in HR
      by (symmetry; by apply Z.eqb_neq).
    rewrite bool_decide_eq_false_2 in * by done. cbn [andb] in *.
    eexists _, _, _, _. split; [reflexivity|]. split; [exact HR|].
    by destruct w.
Qed.

Lemma AddRef_then_Release_witness :
  heap (nested_frames 1) !! 2 = Some (context 12 1 Active (Some 1) [3] [3]) ∧
  ∃ n w1 m,
    AddRef debug_build 2 (nested_frames 1) = Ok (n, w1) ∧
    Release debug_build 2 w1 = Ok (m, nested_frames 1).
Proof.
  assert (Hc : heap (nested_frames 1) !! 2 =
               Some (context 12 1 Active (Some 1) [3] [3]))
    by (vm_compute; reflexivity).
  split; [exact Hc|].
  destruct (AddRef_then_Release debug_build 2 (nested_frames 1) _ Hc)
    as (n & w1 & m & w2 & Hadd & Hrel & Hend);
    [split; [done|reflexivity]|right; reflexivity|].
  case_decide as E; [by cbn in E|]. subst w2. exists n, w1, m. done.
Defined.

(** *** The child arrays after [Die] *)

(** When [Die] has returned, the child arrays of the contexts that are still
    there are these: [mLiveChildren] is what it was everywhere, except that
    the parent of [this] has lost the first occurrence of [this];
    [mAllChildren] is what it was, with the same exception, or is empty.
    [Die] takes nothing out of the [mLiveChildren] of a descendant. *)
Theorem Die_unlinks_this_from_its_parent_only
    env fuel this w w' c parent q cq cq' :
  refcnt_ok w →
  heap w !! this = Some c →
  mParent c = Some parent →
  Die env fuel this w = Ok (tt, w') →
  heap w !! q = Some cq →
  heap w' !! q = Some cq' →
  mLiveChildren cq' =
    (if decide (q = parent) then RemoveElement this (mLiveChildren cq)
     else mLiveChildren cq) ∧
  (mAllChildren cq' =
     (if decide (q = parent) then RemoveElement this (mAllChildren cq)
      else mAllChildren cq) ∨
   mAllChildren cq' = []).
Proof.
  intros Hok Hc Hpar H Hq Hq'.
  destruct (Die_Ok_inv _ _ _ _ _ _ Hc H) as (p & cp & Hp & Hcp & HD).
  rewrite Hpar in Hp. injection Hp as <-.
  match type of HD with DieInternal _ _ _ ?x = _ => set (v := x) in * end.
  assert (Hokv : refcnt_ok v).
  { intros x cx. subst v. cbn. rewrite lookup_insert. case_decide as E.
    - intros [= <-]. cbn. eauto.
    - eauto. }
  destruct (DieInternal_teardown _ _ _ _ _ Hokv HD) as [T _].
  case_decide as E.
  - subst q. rewrite Hcp in Hq. injection Hq as <-.
    assert (Hv : heap v !! parent = Some
              (set_mLiveChildren (RemoveElement this (mLiveChildren cp))
                 (set_mAllChildren (RemoveElement this (mAllChildren cp)) cp)))
      by (subst v; cbn; by rewrite lookup_insert_eq).
    pose proof (teardown_kept _ _ T _ _ Hv) as K. rewrite Hq' in K.
    destruct K as (_ & _ & _ & L & A & _). cbn in L, A. done.
  - assert (Hv : heap v !! q = Some cq)
      by (subst v; cbn; by rewrite lookup_insert_ne).
    pose proof (teardown_kept _ _ T _ _ Hv) as K. rewrite Hq' in K.
    by destruct K as (_ & _ & _ & L & A & _).
Qed.

Lemma Die_unlinks_this_from_its_parent_only_witness :
  ∃ w', Die debug_build 3 2 (nested_frames 1) = Ok (tt, w') ∧
    ∀ q cq cq', heap (nested_frames 1) !! q = Some cq →
      heap w' !! q = Some cq' →
      mLiveChildren cq' =
        (if decide (q = 1) then RemoveElement 2 (mLiveChildren cq)
         else mLiveChildren cq) ∧
      (mAllChildren cq' =
         (if decide (q = 1) then RemoveElement 2 (mAllChildren cq)
          else mAllChildren cq) ∨
       mAllChildren cq' = []).
Proof.
  eexists. split; [vm_compute; reflexivity|]. intros q cq cq'.
  apply (Die_unlinks_this_from_its_parent_only debug_build 3 2 (nested_frames 1)
           _ (context 12 1 Active (Some 1) [3] [3]) 1).
  - apply nested_frames_refcnt_ok. split; [done|reflexivity].
  - vm_compute. reflexivity.
  - reflexivity.
  - vm_compute. reflexivity.
Defined.

(** *** Counts that the assertions exclude *)

(** [Release] of a context that nobody references stops at its assertion in
    a debug build.  In another build the counter is decremented all the
    same: the count that [Release] returns is not 0, so nothing is freed,
    Dead or not, and the set hears nothing.  [AddRef] at a count that is
    negative as an [int32_t] stops at its assertion in a debug build; in
    another build it counts on and the set hears nothing. *)
Theorem counter_assertions_stop_debug_builds_only env this w c :
  heap w !! this = Some c →
  (0 ≤ mRefCnt c < nsrefcnt_modulus)%Z →
  (mRefCnt c = 0%Z →
   if DEBUG env then Release env this w = Abort MozAssert
   else ∃ n, n ≠ 0%Z ∧
          Release env this w =
            Ok (n, with_heap (<[this := set_mRefCnt n c]> (heap w)) w)) ∧
  ((int32_t (mRefCnt c) < 0)%Z →
   if DEBUG env then AddRef env this w = Abort MozAssert
   else ∃ n, n ≠ 1%Z ∧
          AddRef env this w =
            Ok (n, with_heap (<[this := set_mRefCnt n c]> (heap w)) w)).
Proof.
  intros Hc Hrange. unfold nsrefcnt_modulus in Hrange. split.
  - intros Hz. rewrite (Release_run _ _ _ _ Hc), Hz.
    destruct (DEBUG env); [reflexivity|]. cbn [andb]. cbn zeta.
    exists (wrap_nsrefcnt (0 - 1)). split; [by vm_compute|].
    replace (wrap_nsrefcnt (0 - 1) =? 0)%Z with false by (by vm_compute).
    reflexivity.
  - intros Hneg. rewrite (AddRef_run _ _ _ _ Hc).
    assert ((0 <=? int32_t (mRefCnt c))%Z = false) as -> by (apply Z.leb_gt; lia).
    rewrite andb_true_r. destruct (DEBUG env); [reflexivity|]. cbn zeta.
    assert (Hone : wrap_nsrefcnt (mRefCnt c + 1) ≠ 1%Z).
    { unfold wrap_nsrefcnt, nsrefcnt_modulus.
      destruct (decide (mRefCnt c = 2 ^ 32 - 1)%Z) as [->|Hne]; [done|].
      rewrite Z.mod_small by lia. intros E.
      assert (mRefCnt c = 0)%Z as E0 by lia. rewrite E0 in Hneg. by vm_compute in Hneg. }
    exists (wrap_nsrefcnt (mRefCnt c + 1)). split; [exact Hone|].
    apply Z.eqb_neq in Hone. rewrite Hone. reflexivity.
Qed.

Lemma counter_assertions_stop_debug_builds_only_witness :
  Release debug_build 2 lone_dead_context = Abort MozAssert ∧
  (∃ n, n ≠ 0%Z ∧
        Release release_build 2 lone_dead_context =
          Ok (n, with_heap (<[2 := set_mRefCnt n (context 12 0 Dead None [] [])]>
                              (heap lone_dead_context)) lone_dead_context)) ∧
  AddRef debug_build 3 (nested_frames (2 ^ 31)) = Abort MozAssert.
Proof.
  split; [|split].
  - apply (counter_assertions_stop_debug_builds_only debug_build 2
             lone_dead_context (context 12 0 Dead None [] []));
      [vm_compute; reflexivity|split; [done|reflexivity]|reflexivity].
  - apply (counter_assertions_stop_debug_builds_only release_build 2
             lone_dead_context (context 12 0 Dead None [] []));
      [vm_compute; reflexivity|split; [done|reflexivity]|reflexivity].
  - apply (counter_assertions_stop_debug_builds_only debug_build 3
             (nested_frames (2 ^ 31))
             (context 13 (2 ^ 31) Active (Some 2) [] []));
      [vm_compute; reflexivity|split; [done|reflexivity]|by vm_compute].
Defined.

(** *** Death and destruction *)

(** The walk frees what nobody referenced: the call on such a context gives
    back the only reference there is, on a Dead object. *)
Lemma DieInternal_walk_unreferenced env w fuel :
  ∀ x v v' (S F : gset addr),
    refcnt_ok v →
    walk w v S F →
    unreferenced_freed w v S F →
    DieInternal env fuel x v = Ok (tt, v') →
    ∃ F', F ⊆ F' ∧ walk w v' S F' ∧ unreferenced_freed w v' S F' ∧ x ∈ F' ∪ S.
Proof.
  induction fuel as [|fuel IH]; intros x v v' S F Hok Hwalk Hfree H;
    [discriminate|].
  pose proof (DieInternal_teardown _ _ _ _ _ Hok H) as (_ & _ & Hzero).
  apply DieInternal_S_inv in H as (c & v3 & c3 & n & Hc & Hloop & Hc3 & Hrel).
  destruct (Release_marked _ _ _ _ _ _ Hrel) as (_ & Hheap).
  assert (Hafter : ∀ q, q ≠ x → heap v' !! q = heap v3 !! q).
  { intros q Hq. destruct Hheap as [-> | (j & ->)].
    - by rewrite lookup_delete_ne.
    - by rewrite lookup_insert_ne. }
  assert (Hx' : mAllChildren c3 = [] → dead_or_freed v' x ∧
                ∀ c', heap v' !! x = Some c' → mAllChildren c' = []).
  { intros Hk. unfold dead_or_freed. destruct Hheap as [-> | (j & ->)].
    - rewrite lookup_delete_eq. done.
    - rewrite lookup_insert_eq. cbn. split; [done|]. by intros c' [= <-]. }
  (* the children are walked with [x] among the running calls *)
  assert (Hchildren : ∀ l u u' (G : gset addr),
            refcnt_ok u →
            walk w u (S ∪ {[x]}) G →
            unreferenced_freed w u (S ∪ {[x]}) G →
            for_each (DieInternal env fuel) l u = Ok (tt, u') →
            ∃ G', G ⊆ G' ∧ walk w u' (S ∪ {[x]}) G' ∧
                  unreferenced_freed w u' (S ∪ {[x]}) G' ∧
                  ∀ q, q ∈ l → q ∈ G' ∪ (S ∪ {[x]})).
  { induction l as [|y l IHl]; intros u u' G Hoku Hu Hfu Hl;
      cbn [for_each] in Hl.
    - injection Hl as <-. exists G. split; [done|]. split; [done|].
      split; [done|]. intros q Hq. by apply elem_of_nil in Hq.
    - unfold bind in Hl.
      destruct (DieInternal env fuel y u) as [[[] u1]| | |] eqn:E;
        try discriminate.
      destruct (IH _ _ _ _ _ Hoku Hu Hfu E) as (G1 & HG1 & Hu1 & Hf1 & Hy).
      assert (Hok1 : refcnt_ok u1).
      { eapply teardown_refcnt_ok; [|exact Hoku].
        by destruct (DieInternal_teardown _ _ _ _ _ Hoku E) as [T _]. }
      destruct (IHl _ _ _ Hok1 Hu1 Hf1 Hl) as (G2 & HG2 & Hu2 & Hf2 & Hrest).
      exists G2. split; [set_solver|]. split; [done|]. split; [done|].
      intros q Hq. apply elem_of_cons in Hq as [->|Hq]; [set_solver|eauto]. }
  destruct (decide (x ∈ F ∪ S)) as [Hin|Hout].
  - (* [x] was walked before: it has no children left *)
    pose proof (walk_mono _ _ _ _ _ Hwalk Hin c Hc) as Hnil.
    rewrite Hnil in Hloop. cbn in Hloop. injection Hloop as <-.
    unfold entered in Hc3. cbn in Hc3. rewrite lookup_insert_eq in Hc3.
    injection Hc3 as <-.
    destruct Hx' as [Hdead Hkids]; [done|].
    exists F. split; [done|]. split; [|split; [|done]].
    + eapply walk_rewrite; [exact Hwalk|exact Hin| |exact Hkids|by intros _].
      intros q Hq. rewrite Hafter by done. by apply entered_other.
    + intros p cp Hp HpS Hcp Hz. destruct (decide (p = x)) as [->|Hne].
      * rewrite (Hfree x cp Hp HpS Hcp Hz) in Hc. discriminate.
      * rewrite Hafter, entered_other by done. by eapply Hfree.
  - (* first visit *)
    assert (Hw : heap w !! x = Some c).
    { rewrite <- (walk_untouched _ _ _ _ Hwalk x Hout). exact Hc. }
    assert (Hentered : walk w (entered v x c) (S ∪ {[x]}) F).
    { destruct Hwalk as [Hfin Hcl Hun Hclr]. split.
      - intros p Hp. unfold dead_or_freed.
        rewrite entered_other by set_solver. by apply Hfin.
      - intros p cp q Hp Hcp Hq. specialize (Hcl p cp q Hp Hcp Hq). set_solver.
      - intros p Hp. rewrite entered_other by set_solver. apply Hun. set_solver.
      - intros p cp Hp. destruct (decide (p = x)) as [->|Hne].
        + unfold entered. cbn. rewrite lookup_insert_eq. by intros [= <-].
        + rewrite entered_other by done. apply Hclr. set_solver. }
    assert (Hfentered : unreferenced_freed w (entered v x c) (S ∪ {[x]}) F).
    { intros p cp Hp HpS Hcp Hz. rewrite entered_other by set_solver.
      eapply Hfree; [exact Hp|set_solver|exact Hcp|exact Hz]. }
    destruct (Hchildren _ _ _ _ (entered_refcnt_ok _ _ _ Hok Hc) Hentered
                Hfentered Hloop) as (G & HFG & HG & HfG & Hkids).
    assert (Hnil : mAllChildren c3 = []).
    { apply (walk_cleared _ _ _ _ HG x); [set_solver|done]. }
    destruct (Hx' Hnil) as [Hdead Hclean].
    exists (G ∪ {[x]}). split; [set_solver|]. split; [|split; [|set_solver]].
    + destruct HG as [Hfin Hcl Hun Hclr]. split.
      * intros p Hp. destruct (decide (p = x)) as [->|Hne]; [done|].
        unfold dead_or_freed. rewrite Hafter by done. apply Hfin. set_solver.
      * intros p cp q Hp Hcp Hq. destruct (decide (p = x)) as [->|Hne].
        -- rewrite Hw in Hcp. injection Hcp as <-.
           specialize (Hkids q Hq). set_solver.
        -- assert (p ∈ G) by set_solver.
           specialize (Hcl p cp q H Hcp Hq). set_solver.
      * intros p Hp. rewrite Hafter by set_solver. apply Hun. set_solver.
      * intros p cp Hp. assert (p ≠ x) by set_solver.
        rewrite Hafter by done. apply Hclr. set_solver.
    + intros p cp Hp HpS Hcp Hz. destruct (decide (p = x)) as [->|Hne].
      * rewrite Hw in Hcp. injection Hcp as <-. by apply (Hzero c).
      * rewrite Hafter by done.
        eapply HfG; [set_solver|set_solver|exact Hcp|exact Hz].
Qed.

Lemma DieInternal_frees_unreferenced env fuel this w w' q c :
  refcnt_ok w →
  DieInternal env fuel this w = Ok (tt, w') →
  descendant w this q →
  heap w !! q = Some c → mRefCnt c = 0%Z →
  heap w' !! q = None.
Proof.
  intros Hok H Hq Hc Hz.
  assert (Hstart : walk w w ∅ ∅).
  { split; [set_solver|set_solver|done|set_solver]. }
  assert (Hfstart : unreferenced_freed w w ∅ ∅).
  { intros p cp Hp. by apply elem_of_empty in Hp. }
  destruct (DieInternal_walk_unreferenced _ _ _ _ _ _ _ _ Hok Hstart Hfstart H)
    as (F & _ & Hwalk & Hfree & Hthis).
  assert (Hin : this ∈ F) by set_solver. clear Hthis.
  enough (q ∈ F) by (eapply Hfree; [done|set_solver|exact Hc|exact Hz]).
  clear H Hstart Hfstart Hc Hz.
  induction Hq as [x|x y z (cx & Hcx & Hy) _ IHq]; [done|].
  apply IHq. pose proof (walk_closed _ _ _ _ Hwalk x cx y Hin Hcx Hy) as Hy'.
  apply elem_of_union in Hy' as [Hy'|Hy']; [done|].
  by apply elem_of_empty in Hy'.
Qed.

(** [Die] is [DieInternal] on the store in which the parent has let go of
    [this]: the counts are those of the store before, and so is what the
    children arrays lead to from [this]. *)
Lemma Die_as_DieInternal env fuel this w w' :
  refcnt_ok w →
  Die env fuel this w = Ok (tt, w') →
  ∃ v, DieInternal env fuel this v = Ok (tt, w') ∧ refcnt_ok v ∧
       (∀ q, descendant w this q → descendant v this q) ∧
       (∀ q c, heap w !! q = Some c →
               ∃ c', heap v !! q = Some c' ∧ mRefCnt c' = mRefCnt c).
Proof.
  intros Hok H.
  destruct (heap w !! this) as [c|] eqn:Hc.
  2: { unfold Die, mbind, comp_bind, bind, load in H. by rewrite Hc in H. }
  destruct (Die_Ok_inv _ _ _ _ _ _ Hc H) as (p & cp & Hp & Hcp & HD).
  eexists. split; [exact HD|]. split; [|split].
  - intros q cq. cbn. rewrite lookup_insert. case_decide as E.
    + intros [= <-]. cbn. eauto.
    + eauto.
  - intros q Hq. apply rtc_avoid_start in Hq; [|apply _].
    eapply rtc_subrel; [|exact Hq].
    intros a b [(ca & Ha & Hb) Hne]. unfold child_edge. cbn.
    rewrite lookup_insert. case_decide as E.
    + subst a. rewrite Hcp in Ha. injection Ha as <-.
      eexists. split; [done|]. cbn. by apply elem_of_RemoveElement_ne.
    + eauto.
  - intros q cq Hq. cbn. rewrite lookup_insert. case_decide as E.
    + subst q. rewrite Hcp in Hq. injection Hq as <-. eexists. split; [done|]. done.
    + eauto.
Qed.

(** A context without references does not outlive [Die]: the frame at 2 and
    the frame at 3 below it are there before the call, nobody references
    them, and both are freed when [Die] on 2 returns; the release of the
    temporary self-reference of [DieInternal] does it. *)
Lemma Die_destroys_unreferenced_context :
  heap (nested_frames 0) !! 2 = Some (context 12 0 Active (Some 1) [3] [3]) ∧
  heap (nested_frames 0) !! 3 = Some (context 13 0 Active (Some 2) [] []) ∧
  ∃ w', Die debug_build 3 2 (nested_frames 0) = Ok (tt, w') ∧
        heap w' !! 2 = None ∧ heap w' !! 3 = None.
Proof.
  split; [vm_compute; reflexivity|]. split; [vm_compute; reflexivity|].
  eexists. split; [vm_compute; reflexivity|].
  split; vm_compute; reflexivity.
Qed.

(** C3, amended. [Die] is called on [this] and returns; [q] is [this] or a
    descendant of it.  If [q] was referenced, it is still there afterwards,
    Dead, with its count unchanged; if nobody referenced it, it is freed
    before [Die] returns.  A [Release] on [q] frees it exactly when it
    takes the count from 1 to 0 while [q] is Dead, and a [Release] on a
    Dead context with a positive count returns (in a debug build, when the
    count is below 2^31). *)
Theorem dead_context_is_destroyed_at_last_release env fuel this w w' q cq :
  refcnt_ok w →
  Die env fuel this w = Ok (tt, w') →
  descendant w this q →
  heap w !! q = Some cq →
  (mRefCnt cq ≠ 0%Z →
   ∃ cq', heap w' !! q = Some cq' ∧ mState cq' = Dead ∧
          mRefCnt cq' = mRefCnt cq) ∧
  (mRefCnt cq = 0%Z → heap w' !! q = None) ∧
  (∀ v d n v',
     heap v !! q = Some d →
     (0 ≤ mRefCnt d < nsrefcnt_modulus)%Z →
     Release env q v = Ok (n, v') →
     if decide (mRefCnt d = 1%Z ∧ mState d = Dead)
     then heap v' = delete q (heap v)
     else ∃ d', heap v' !! q = Some d' ∧ mState d' = mState d) ∧
  (∀ v d,
     heap v !! q = Some d → mState d = Dead →
     (0 < mRefCnt d < nsrefcnt_modulus)%Z →
     DEBUG env = false ∨ (mRefCnt d < 2 ^ 31)%Z →
     ∃ n v', Release env q v = Ok (n, v')).
Proof.
  intros Hok H Hq Hcq.
  destruct (Die_as_DieInternal _ _ _ _ _ Hok H) as (v & HD & Hokv & Hdesc & Hcnt).
  destruct (Hcnt _ _ Hcq) as (cv & Hcv & Hrv).
  destruct (DieInternal_teardown _ _ _ _ _ Hokv HD) as (T & _ & _).
  split; [|split; [|split]].
  - intros Hrc. pose proof (teardown_kept _ _ T _ _ Hcv) as K.
    destruct (heap w' !! q) as [cq'|] eqn:E'; [|congruence].
    destruct K as (R & _). exists cq'. split; [done|]. split; [|congruence].
    pose proof (DieInternal_kills_every_descendant _ _ _ _ _ _ HD (Hdesc _ Hq))
      as Hdead.
    unfold dead_or_freed in Hdead. rewrite E' in Hdead. by destruct Hdead.
  - intros Hz.
    eapply DieInternal_frees_unreferenced;
      [exact Hokv|exact HD|by apply Hdesc|exact Hcv|congruence].
  - intros u d n u' Hd Hrange. rewrite (Release_run _ _ _ _ Hd).
    destruct (DEBUG env && negb _); [discriminate|]. cbn zeta.
    unfold wrap_nsrefcnt, nsrefcnt_modulus in *.
    assert (Hz : ((mRefCnt d - 1) mod 2 ^ 32 = 0)%Z ↔ mRefCnt d = 1%Z).
    { destruct (decide (mRefCnt d = 0)%Z) as [->|Hne]; [done|].
      rewrite Z.mod_small by lia. lia. }
    destruct (_ =? 0)%Z eqn:E0.
    + apply Z.eqb_eq, Hz in E0. unfold IsDead.
      destruct (mState d) eqn:Hs; intros [= <- <-]; cbn;
        case_decide as Hdec; try (destruct Hdec; congruence);
        try (exfalso; apply Hdec; done);
        rewrite ?lookup_insert_eq; eauto.
    + apply Z.eqb_neq in E0. intros [= <- <-]. cbn.
      case_decide as Hdec; [destruct Hdec as [H1 _]; apply Hz in H1; done|].
      rewrite lookup_insert_eq. eauto.
  - intros u d Hd Hdead Hrange Hdbg. rewrite (Release_run _ _ _ _ Hd).
    replace (DEBUG env && negb _) with false.
    + cbn zeta. unfold IsDead. rewrite Hdead.
      destruct (_ =? 0)%Z; eauto.
    + destruct Hdbg as [->|Hlt]; [done|].
      rewrite int32_t_small by lia. symmetry. apply andb_false_iff. right.
      apply negb_false_iff, Z.ltb_lt. lia.
Qed.

Lemma dead_context_is_destroyed_at_last_release_witness :
  refcnt_ok (nested_frames 1) ∧
  descendant (nested_frames 1) 2 3 ∧
  ∃ w', Die debug_build 3 2 (nested_frames 1) = Ok (tt, w') ∧
        ∃ cq', heap w' !! 3 = Some cq' ∧ mState cq' = Dead ∧
               mRefCnt cq' = 1%Z.
Proof.
  assert (Hok : refcnt_ok (nested_frames 1))
    by (apply nested_frames_refcnt_ok; split; [done|reflexivity]).
  assert (Hd : descendant (nested_frames 1) 2 3).
  { eapply rtc_l; [|apply rtc_refl].
    exists (context 12 1 Active (Some 1) [3] [3]).
    split; [vm_compute; reflexivity|]. cbn. by apply list_elem_of_singleton. }
  split; [exact Hok|]. split; [exact Hd|].
  eexists. split; [vm_compute; reflexivity|].
  refine (proj1 (dead_context_is_destroyed_at_last_release debug_build
                   3 2 (nested_frames 1) _ 3
                   (context 13 1 Active (Some 2) [] []) Hok _ Hd _) _);
    [vm_compute; reflexivity|vm_compute; reflexivity|discriminate].
Defined.

End NBrowsingContextFacts.

(** ** BrowsingContext.cpp *)

Lemma bind_run {S A B} (m : Comp S A) (f : A → Comp S B) (s s1 : S) (a : A) r :
  m s = Ok (a, s1) → f a s1 = r → (m ≫= f) s = r.
Proof. intros Hm Hf. unfold mbind, comp_bind, bind. by rewrite Hm. Qed.

Module BrowsingContextFacts.
Import BrowsingContext.

Lemma load_run p w c : heap w !! p = Some c → load p w = Ok (c, w).
Proof. intros H. unfold load. by rewrite H. Qed.

Lemma AddRef_counts this w c :
  heap w !! this = Some c →
  AddRef this w =
    Ok (tt, with_heap (<[this := set_mRefCnt (wrap_nsrefcnt (mRefCnt c + 1)) c]>
                         (heap w)) w).
Proof. intros H. unfold AddRef. eapply bind_run; [by apply load_run|done]. Qed.

Lemma Release_counts this w c :
  heap w !! this = Some c →
  Release this w =
    Ok (tt, with_heap (<[this := set_mRefCnt (wrap_nsrefcnt (mRefCnt c - 1)) c]>
                         (heap w)) w).
Proof. intros H. unfold Release. eapply bind_run; [by apply load_run|done]. Qed.

(** *** The registry *)

(** C8. The registry is initialised and names only objects that are there,
    each under its own identifier, and the null address holds no object.
    Then [GetOrCreate(id, n1)] returns, and [GetOrCreate(id, n2)] called
    next returns the same object: one address, not null, at which the store
    holds a context with the identifier [id].  The second call finds the
    registration that the first call found or made; it creates nothing and
    changes nothing of the object but its reference count. *)
Theorem GetOrCreate_twice_same_context aId n1 n2 w t :
  sBrowsingContexts w = Some t →
  registry_sound w →
  heap w !! 0 = None →
  ∃ p w1 w2 t1 c1,
    GetOrCreate aId n1 w = Ok (p, w1) ∧
    GetOrCreate aId n2 w1 = Ok (p, w2) ∧
    p ≠ 0 ∧
    heap w1 !! p = Some c1 ∧ mBrowsingContextId c1 = aId ∧
    sBrowsingContexts w1 = Some t1 ∧ t1 !! aId = Some p ∧
    heap w2 = <[p := set_mRefCnt (wrap_nsrefcnt (mRefCnt c1 + 1)) c1]> (heap w1) ∧
    sBrowsingContexts w2 = Some t1.
Proof.
  intros Ht Hsound Hnull. unfold GetOrCreate at 1.
  destruct (t !! aId) as [q|] eqn:Hq.
  - destruct (Hsound t aId q Ht Hq) as (c & Hc & Hid).
    eexists q, _, _, t, _. split.
    { eapply bind_run; [unfold registry; by rewrite Ht|]. rewrite Hq.
      eapply bind_run; [by apply AddRef_counts|reflexivity]. }
    split.
    { unfold GetOrCreate.
      eapply bind_run; [unfold registry; cbn; by rewrite Ht|]. rewrite Hq.
      eapply bind_run; [apply AddRef_counts; cbn; apply lookup_insert_eq|].
      reflexivity. }
    split; [intros ->; congruence|].
    split; [cbn; apply lookup_insert_eq|]. split; [exact Hid|].
    split; [exact Ht|]. split; [exact Hq|]. split; [reflexivity|exact Ht].
  - set (this := fresh (dom (heap w) ∪ {[0]})).
    assert (Hfresh : this ≠ 0).
    { intros E. apply (is_fresh (dom (heap w) ∪ {[0]})). fold this.
      rewrite E. set_solver. }
    eexists this, _, _, (<[aId := this]> t), _. split.
    { eapply bind_run; [unfold registry; by rewrite Ht|]. rewrite Hq.
      eapply bind_run.
      - unfold new_BrowsingContext.
        eapply bind_run; [reflexivity|].
        eapply bind_run; [reflexivity|].
        eapply bind_run; [unfold registry; cbn; by rewrite Ht|].
        eapply bind_run; [reflexivity|]. reflexivity.
      - eapply bind_run; [apply AddRef_counts; cbn; apply lookup_insert_eq|].
        reflexivity. }
    split.
    { unfold GetOrCreate.
      eapply bind_run; [unfold registry; cbn; reflexivity|].
      rewrite lookup_insert_eq.
      eapply bind_run; [apply AddRef_counts; cbn; apply lookup_insert_eq|].
      reflexivity. }
    split; [exact Hfresh|].
    split; [cbn; apply lookup_insert_eq|]. split; [reflexivity|].
    split; [reflexivity|]. split; [apply lookup_insert_eq|].
    split; reflexivity.
Qed.

Lemma GetOrCreate_twice_same_context_witness :
  ∃ p w1 w2 t1 c1,
    GetOrCreate 5 "a" after_Init = Ok (p, w1) ∧
    GetOrCreate 5 "b" w1 = Ok (p, w2) ∧
    p ≠ 0 ∧
    heap w1 !! p = Some c1 ∧ mBrowsingContextId c1 = 5%Z ∧
    sBrowsingContexts w1 = Some t1 ∧ t1 !! 5%Z = Some p ∧
    heap w2 = <[p := set_mRefCnt (wrap_nsrefcnt (mRefCnt c1 + 1)) c1]> (heap w1) ∧
    sBrowsingContexts w2 = Some t1.
Proof.
  apply (GetOrCreate_twice_same_context 5 "a" "b" after_Init ∅);
    [reflexivity| |reflexivity].
  intros t k p [= <-] Hk. by rewrite lookup_empty in Hk.
Defined.

(** *** Attach and detach *)

Lemma same_lists_refl w : same_lists w w.
Proof. by split. Qed.

Lemma same_lists_trans w1 w2 w3 :
  same_lists w1 w2 → same_lists w2 w3 → same_lists w1 w3.
Proof. intros [R1 C1 S1] [R2 C2 S2]. split; intros; congruence. Qed.

Lemma same_lists_allocated w w' q :
  same_lists w w' → is_Some (heap w !! q) → is_Some (heap w' !! q).
Proof.
  intros [_ C _] [c Hc]. specialize (C q). rewrite Hc in C.
  destruct (heap w' !! q); [eauto|discriminate].
Qed.

Lemma same_lists_store w p c c' :
  heap w !! p = Some c → mChildren c' = mChildren c →
  same_lists w (with_heap (<[p := c']> (heap w)) w).
Proof.
  intros Hp Hc. split; [done| |done]. intros q. cbn.
  rewrite lookup_insert. case_decide as E; [|done].
  subst q. rewrite Hp. cbn. by rewrite Hc.
Qed.

Lemma isInList_false this w :
  isInList this w = false ↔
  (this ∉ default [] (sRootBrowsingContexts w)) ∧
  (∀ q c, heap w !! q = Some c → this ∉ mChildren c).
Proof.
  unfold isInList. rewrite orb_false_iff, !bool_decide_eq_false.
  rewrite map_Exists_lookup. split.
  - intros [Hr Hc]. split; [done|]. intros q c Hq Hin. apply Hc. eauto.
  - intros [Hr Hc]. split; [done|]. intros (q & c & Hq & Hin). eapply Hc; eauto.
Qed.

Lemma isInList_true this w q c :
  heap w !! q = Some c → this ∈ mChildren c → isInList this w = true.
Proof.
  intros Hq Hin. unfold isInList. apply orb_true_iff. right.
  apply bool_decide_eq_true. eapply map_Exists_lookup_2; eauto.
Qed.

Lemma isInList_true_root this w l :
  sRootBrowsingContexts w = Some l → this ∈ l → isInList this w = true.
Proof.
  intros Hr Hin. unfold isInList. apply orb_true_iff. left.
  apply bool_decide_eq_true. by rewrite Hr.
Qed.

Lemma unlink_absent this (l : list addr) : this ∉ l → unlink this l = l.
Proof.
  intros Hn. unfold unlink. induction l as [|x l IH]; [done|].
  rewrite filter_cons. apply not_elem_of_cons in Hn as [Hx Hl].
  rewrite decide_True by done. by rewrite IH.
Qed.

Lemma unlink_inserted this (l : list addr) :
  this ∉ l → unlink this (l ++ [this]) = l.
Proof.
  intros Hn. unfold unlink. rewrite filter_app. fold (unlink this l).
  rewrite unlink_absent by done. rewrite filter_cons.
  rewrite decide_False by (intros H; by apply H). by rewrite app_nil_r.
Qed.

(** A message leaves when the singleton is there. *)
Lemma ContentChild_send_run env m w :
  ContentChild_singleton w = true →
  ContentChild_send env m w = Ok (tt, with_sent (sent w ++ [m]) w).
Proof.
  intros H. unfold ContentChild_send.
  eapply bind_run; [reflexivity|]. rewrite H.
  eapply bind_run; [|reflexivity].
  unfold MOZ_DIAGNOSTIC_ASSERT. by rewrite andb_false_r.
Qed.

Lemma Attach_run env this aParent w c :
  heap w !! this = Some c →
  isInList this w = false →
  collection_exists w aParent →
  (XRE_IsContentProcess env = true → ContentChild_singleton w = true) →
  ∃ w1, Attach env this aParent w = Ok (tt, w1) ∧
        same_lists (inserted w aParent this) w1.
Proof.
  intros Hc Hout Hcoll Hcc. unfold Attach.
  (* the store after the insertion, reference included *)
  assert (Hins : ∃ ca, heap (inserted w aParent this) !! this = Some ca ∧
                 insertBack aParent this w =
                   Ok (tt, with_heap
                         (<[this := set_mRefCnt (wrap_nsrefcnt (mRefCnt ca + 1)) ca]>
                            (heap (inserted w aParent this)))
                         (inserted w aParent this))).
  { unfold insertBack, inserted, collection_exists in *.
    destruct aParent as [parent|].
    - destruct Hcoll as [cp Hcp]. rewrite Hcp.
      assert (∃ ca, <[parent := set_mChildren (mChildren cp ++ [this]) cp]>
                      (heap w) !! this = Some ca) as [ca Hca].
      { rewrite lookup_insert. case_decide; eauto. }
      exists ca. split; [exact Hca|].
      eapply bind_run.
      + eapply bind_run; [by apply load_run|reflexivity].
      + by apply AddRef_counts.
    - destruct Hcoll as [l Hl]. rewrite Hl. exists c. split; [exact Hc|].
      eapply bind_run.
      + eapply bind_run; [unfold roots; by rewrite Hl|reflexivity].
      + by apply AddRef_counts. }
  destruct Hins as (ca & Hca & Hrun).
  set (wi := inserted w aParent this) in *.
  set (cb := set_mRefCnt (wrap_nsrefcnt (mRefCnt ca + 1)) ca) in *.
  set (wb := with_heap (<[this := cb]> (heap wi)) wi) in *.
  set (wc := with_heap (<[this := set_mParent aParent cb]> (heap wb)) wb).
  assert (Hb : same_lists wi wb) by (by eapply same_lists_store).
  assert (Hbc : same_lists wb wc).
  { eapply same_lists_store; [apply lookup_insert_eq|done]. }
  assert (Hic : same_lists wi wc) by (eapply same_lists_trans; eauto).
  assert (Hsingle : ContentChild_singleton wi = ContentChild_singleton w).
  { subst wi. unfold inserted. destruct aParent as [parent|]; [|done].
    by destruct (heap w !! parent). }
  destruct (XRE_IsContentProcess env) eqn:Hproc.
  - (* content process: the parent hears of the attachment *)
    assert (Hsend : ContentChild_singleton wc = true).
    { rewrite (same_singleton _ _ Hic), Hsingle. auto. }
    assert (Hpid : ∃ parentId,
              match aParent with
              | Some parent => p ← load parent; mret (mBrowsingContextId p)
              | None => mret 0%Z
              end wc = Ok (parentId, wc)).
    { destruct aParent as [parent|]; [|by eexists].
      assert (is_Some (heap wc !! parent)) as [cp' Hcp'].
      { eapply same_lists_allocated; [exact Hic|].
        subst wi. unfold inserted. destruct Hcoll as [cp Hcp]. rewrite Hcp.
        cbn. rewrite lookup_insert_eq. eauto. }
      eexists. eapply bind_run; [by apply load_run|reflexivity]. }
    destruct Hpid as (parentId & Hpid).
    eexists. split.
    + eapply bind_run; [by apply load_run|].
      eapply bind_run; [reflexivity|]. rewrite Hout.
      eapply bind_run; [exact Hrun|].
      eapply bind_run; [apply load_run; apply lookup_insert_eq|].
      eapply bind_run; [reflexivity|]. cbn [negb].
      eapply bind_run; [exact Hpid|].
      by apply ContentChild_send_run.
    + eapply same_lists_trans; [exact Hic|]. by split.
  - exists wc. split; [|exact Hic].
    eapply bind_run; [by apply load_run|].
    eapply bind_run; [reflexivity|]. rewrite Hout.
    eapply bind_run; [exact Hrun|].
    eapply bind_run; [apply load_run; apply lookup_insert_eq|].
    eapply bind_run; [reflexivity|]. reflexivity.
Qed.

Lemma isInList_same_lists this w w' :
  same_lists w w' → isInList this w' = isInList this w.
Proof.
  intros [R C _]. unfold isInList. rewrite R. f_equal.
  apply bool_decide_ext. rewrite !map_Exists_lookup.
  split; intros (q & c & Hq & Hin).
  - specialize (C q). rewrite Hq in C.
    destruct (heap w !! q) as [c0|] eqn:E; [|discriminate].
    injection C as C. exists q, c0. by rewrite <- C.
  - specialize (C q). rewrite Hq in C.
    destruct (heap w' !! q) as [c0|] eqn:E; [|discriminate].
    injection C as C. exists q, c0. by rewrite C.
Qed.

Lemma Detach_run env this w c :
  heap w !! this = Some c →
  isInList this w = true →
  (XRE_IsContentProcess env = true → ContentChild_singleton w = true) →
  ∃ w2, Detach env this w = Ok (tt, w2) ∧
        sRootBrowsingContexts w2 = unlink this <$> sRootBrowsingContexts w ∧
        ∀ q, mChildren <$> heap w2 !! q =
             unlink this <$> (mChildren <$> heap w !! q).
Proof.
  intros Hc Hin Hcc. unfold Detach.
  set (ca := set_mRefCnt (wrap_nsrefcnt (mRefCnt c + 1)) c).
  set (wa := with_heap (<[this := ca]> (heap w)) w).
  assert (Ha : same_lists w wa) by (by eapply same_lists_store).
  set (f := λ x, set_mChildren (unlink this (mChildren x)) x).
  set (wr := {| heap := f <$> heap wa;
                sRootBrowsingContexts := unlink this <$> sRootBrowsingContexts wa;
                sBrowsingContexts := sBrowsingContexts wa;
                ContentChild_singleton := ContentChild_singleton wa;
                sent := sent wa |}).
  assert (Hr : heap wr !! this = Some (f ca)).
  { subst wr. cbn. by rewrite lookup_fmap, lookup_insert_eq. }
  set (cr := set_mRefCnt (wrap_nsrefcnt (mRefCnt (f ca) - 1)) (f ca)).
  set (wq := with_heap (<[this := cr]> (heap wr)) wr).
  assert (Hq : same_lists wr wq) by (by eapply same_lists_store).
  assert (Hremove : remove this wa = Ok (tt, wq)).
  { unfold remove. eapply bind_run; [reflexivity|]. by apply Release_counts. }
  assert (Hlists : ∀ w2, same_lists wq w2 →
            sRootBrowsingContexts w2 = unlink this <$> sRootBrowsingContexts w ∧
            ∀ q, mChildren <$> heap w2 !! q =
                 unlink this <$> (mChildren <$> heap w !! q)).
  { intros w2 H2.
    pose proof (same_lists_trans _ _ _ Hq H2) as [R C _]. split.
    - rewrite R. subst wr. cbn. done.
    - intros q. rewrite C. subst wr. cbn [heap]. rewrite lookup_fmap.
      rewrite <- (same_children _ _ Ha q).
      destruct (heap wa !! q); done. }
  assert (Hfinal : ∀ v cv, heap v !! this = Some cv → same_lists wq v →
            ∃ w2, Release this v = Ok (tt, w2) ∧ same_lists wq w2).
  { intros v cv Hv Hsv. eexists. split; [by apply Release_counts|].
    eapply same_lists_trans; [exact Hsv|]. by eapply same_lists_store. }
  rewrite <- (isInList_same_lists this _ _ Ha) in Hin.
  destruct (XRE_IsContentProcess env) eqn:Hproc.
  - set (ws := with_sent (sent wq ++ [DetachBrowsingContext (mBrowsingContextId cr)]) wq).
    assert (Hs : same_lists wq ws) by (by split).
    destruct (Hfinal ws cr) as (w2 & Hrel & H2); [apply lookup_insert_eq|done|].
    exists w2. split; [|by apply Hlists].
    eapply bind_run; [exact (AddRef_counts _ _ _ Hc : AddRef this w = Ok (tt, wa))|].
    eapply bind_run; [reflexivity|]. rewrite Hin. cbn [negb].
    eapply bind_run; [|exact Hrel].
    eapply bind_run; [exact Hremove|]. cbn [negb].
    eapply bind_run; [apply load_run; apply lookup_insert_eq|].
    apply ContentChild_send_run. auto.
  - destruct (Hfinal wq cr) as (w2 & Hrel & H2);
      [apply lookup_insert_eq|apply same_lists_refl|].
    exists w2. split; [|by apply Hlists].
    eapply bind_run; [exact (AddRef_counts _ _ _ Hc : AddRef this w = Ok (tt, wa))|].
    eapply bind_run; [reflexivity|]. rewrite Hin. cbn [negb].
    eapply bind_run; [|exact Hrel].
    eapply bind_run; [exact Hremove|]. reflexivity.
Qed.

(** C7. A context that is in no child collection is attached and then
    detached: both calls return, and the root list and the children of
    every context are what they were before the attach. *)
Theorem Attach_then_Detach_restores_child_collections env this aParent w c :
  heap w !! this = Some c →
  isInList this w = false →
  collection_exists w aParent →
  (XRE_IsContentProcess env = true → ContentChild_singleton w = true) →
  ∃ w1 w2,
    Attach env this aParent w = Ok (tt, w1) ∧
    Detach env this w1 = Ok (tt, w2) ∧
    child_collections w2 = child_collections w.
Proof.
  intros Hc Hout Hcoll Hcc.
  destruct (Attach_run _ _ _ _ _ Hc Hout Hcoll Hcc) as (w1 & Hattach & H1).
  apply isInList_false in Hout as [Hroot Hkids].
  set (wi := inserted w aParent this) in *.
  assert (Hthis : is_Some (heap w1 !! this)).
  { eapply same_lists_allocated; [exact H1|]. subst wi. unfold inserted.
    destruct aParent as [parent|]; [|eauto].
    destruct (heap w !! parent); [|eauto]. cbn.
    rewrite lookup_insert. case_decide; eauto. }
  destruct Hthis as [c1 Hc1].
  assert (Hin : isInList this w1 = true).
  { rewrite (isInList_same_lists this _ _ H1). subst wi. unfold inserted.
    destruct aParent as [parent|].
    - destruct Hcoll as [cp Hcp]. rewrite Hcp.
      eapply isInList_true; [cbn; apply lookup_insert_eq|].
      cbn. apply elem_of_app. right. by apply list_elem_of_singleton.
    - eapply isInList_true_root; [reflexivity|].
      apply elem_of_app. right. by apply list_elem_of_singleton. }
  assert (Hcc1 : XRE_IsContentProcess env = true → ContentChild_singleton w1 = true).
  { intros Hp. rewrite (same_singleton _ _ H1). subst wi. unfold inserted.
    destruct aParent as [parent|]; [|by apply Hcc].
    destruct (heap w !! parent); by apply Hcc. }
  destruct (Detach_run _ _ _ _ Hc1 Hin Hcc1) as (w2 & Hdetach & R2 & C2).
  exists w1, w2. split; [done|]. split; [done|].
  unfold child_collections. f_equal.
  - rewrite R2, (same_roots _ _ H1). subst wi. unfold inserted.
    destruct aParent as [parent|].
    + assert (sRootBrowsingContexts
                match heap w !! parent with
                | Some p => with_heap (<[parent := set_mChildren (mChildren p ++ [this]) p]> (heap w)) w
                | None => w
                end = sRootBrowsingContexts w) as -> by (by destruct (heap w !! parent)).
      destruct (sRootBrowsingContexts w) as [l|]; [|done].
      cbn in *. f_equal. by apply unlink_absent.
    + destruct Hcoll as [l Hl]. rewrite Hl in *. cbn in *.
      f_equal. by apply unlink_inserted.
  - apply map_eq. intros q. rewrite !lookup_fmap.
    rewrite C2, (same_children _ _ H1). subst wi. unfold inserted.
    destruct aParent as [parent|].
    + destruct Hcoll as [cp Hcp]. rewrite Hcp. cbn [heap with_heap].
      rewrite lookup_insert. case_decide as E.
      * subst q. rewrite Hcp. cbn. f_equal. apply unlink_inserted; eauto.
      * destruct (heap w !! q) as [cq|] eqn:Eq; [|done]. cbn.
        f_equal. apply unlink_absent; eauto.
    + cbn [heap with_roots].
      destruct (heap w !! q) as [cq|] eqn:Eq; [|done]. cbn.
      f_equal. apply unlink_absent; eauto.
Qed.

Lemma Attach_then_Detach_restores_child_collections_witness :
  heap one_tab !! 3 = Some (context 13 "new" None [] 1) ∧
  isInList 3 one_tab = false ∧
  ∃ w1 w2,
    Attach content_process 3 (Some 2) one_tab = Ok (tt, w1) ∧
    Detach content_process 3 w1 = Ok (tt, w2) ∧
    child_collections w2 = child_collections one_tab.
Proof.
  split; [vm_compute; reflexivity|]. split; [vm_compute; reflexivity|].
  apply (Attach_then_Detach_restores_child_collections content_process 3
           (Some 2) one_tab (context 13 "new" None [] 1));
    [vm_compute; reflexivity|vm_compute; reflexivity| |reflexivity].
  exists (context 12 "frame" (Some 1) [] 1). vm_compute. reflexivity.
Defined.

(** *** Reading a returning call backwards *)

Lemma modify_inv {S} (f : S → S) (w : S) u w' :
  modify f w = Ok (u, w') → w' = f w.
Proof. unfold modify. by intros [= _ <-]. Qed.

Lemma gets_inv {S A} (f : S → A) (w : S) a w' :
  gets f w = Ok (a, w') → a = f w ∧ w' = w.
Proof. unfold gets. by intros [= <- <-]. Qed.

Lemma load_context_inv p w c w' :
  load p w = Ok (c, w') → heap w !! p = Some c ∧ w' = w.
Proof. unfold load. destruct (heap w !! p); [|done]. by intros [= -> ->]. Qed.

Lemma registry_inv w t w' :
  registry w = Ok (t, w') → sBrowsingContexts w = Some t ∧ w' = w.
Proof.
  unfold registry. destruct (sBrowsingContexts w); [|done]. by intros [= -> ->].
Qed.

Lemma roots_inv w l w' :
  roots w = Ok (l, w') → sRootBrowsingContexts w = Some l ∧ w' = w.
Proof.
  unfold roots. destruct (sRootBrowsingContexts w); [|done]. by intros [= -> ->].
Qed.

Lemma AddRef_inv this w u w' :
  AddRef this w = Ok (u, w') →
  ∃ c, heap w !! this = Some c ∧
    w' = with_heap (<[this := set_mRefCnt (wrap_nsrefcnt (mRefCnt c + 1)) c]>
                      (heap w)) w.
Proof.
  unfold AddRef. intros H. apply bind_Ok in H as (c & w1 & Hl & H).
  apply load_context_inv in Hl as [Hc ->]. exists c. split; [done|].
  by apply modify_inv in H.
Qed.

Lemma Release_inv this w u w' :
  Release this w = Ok (u, w') →
  ∃ c, heap w !! this = Some c ∧
    w' = with_heap (<[this := set_mRefCnt (wrap_nsrefcnt (mRefCnt c - 1)) c]>
                      (heap w)) w.
Proof.
  unfold Release. intros H. apply bind_Ok in H as (c & w1 & Hl & H).
  apply load_context_inv in Hl as [Hc ->]. exists c. split; [done|].
  by apply modify_inv in H.
Qed.

Lemma MOZ_DIAGNOSTIC_ASSERT_inv env cond (w : World) u w' :
  MOZ_DIAGNOSTIC_ASSERT env cond w = Ok (u, w') →
  w' = w ∧ (diagnostic_asserts env = true → cond = true).
Proof.
  unfold MOZ_DIAGNOSTIC_ASSERT, abort.
  destruct (diagnostic_asserts env), cond; cbn; try discriminate;
    intros [= _ <-]; split; done.
Qed.

Lemma ContentChild_send_inv env m w u w' :
  ContentChild_send env m w = Ok (u, w') →
  ContentChild_singleton w = true ∧ w' = with_sent (sent w ++ [m]) w.
Proof.
  unfold ContentChild_send. intros H.
  apply bind_Ok in H as (cc & w1 & Hg & H). apply gets_inv in Hg as [-> ->].
  apply bind_Ok in H as (u1 & w2 & Ha & H).
  apply MOZ_DIAGNOSTIC_ASSERT_inv in Ha as [-> _].
  destruct (ContentChild_singleton w); [|done].
  by apply modify_inv in H.
Qed.

(** *** Steps that keep the tree *)

Lemma skeleton_of_lookup (o : option BrowsingContext) c :
  skeleton <$> o = skeleton <$> Some c →
  ∃ c', o = Some c' ∧ skeleton c' = skeleton c.
Proof.
  destruct o as [c'|]; [|done]. intros E. exists c'. split; [done|].
  change (Some (skeleton c') = Some (skeleton c)) in E. congruence.
Qed.

Lemma same_tree_refl w : same_tree w w.
Proof. by split. Qed.

Lemma same_tree_trans w1 w2 w3 :
  same_tree w1 w2 → same_tree w2 w3 → same_tree w1 w3.
Proof. intros [R1 T1 C1] [R2 T2 C2]. split; intros; congruence. Qed.

Lemma same_tree_sym w1 w2 : same_tree w1 w2 → same_tree w2 w1.
Proof. intros [R T C]. split; intros; congruence. Qed.

Lemma same_tree_store w p c c' :
  heap w !! p = Some c → skeleton c' = skeleton c →
  same_tree w (with_heap (<[p := c']> (heap w)) w).
Proof.
  intros Hp Hc. split; [done|done|]. intros q. cbn.
  rewrite lookup_insert. case_decide as E; [|done].
  subst q. rewrite Hp. cbn. by rewrite Hc.
Qed.

Lemma same_tree_lookup w w' q c :
  same_tree w w' → heap w !! q = Some c →
  ∃ c', heap w' !! q = Some c' ∧ skeleton c' = skeleton c.
Proof.
  intros [_ _ C] Hc. specialize (C q). rewrite Hc in C.
  by apply skeleton_of_lookup.
Qed.

Lemma skeleton_eq c c' :
  skeleton c' = skeleton c →
  mBrowsingContextId c' = mBrowsingContextId c ∧ mParent c' = mParent c ∧
  mChildren c' = mChildren c.
Proof. unfold skeleton. intros [= E1 E2 E3]. done. Qed.

Lemma AddRef_same_tree this w u w' :
  AddRef this w = Ok (u, w') → same_tree w w'.
Proof.
  intros H. apply AddRef_inv in H as (c & Hc & ->). by eapply same_tree_store.
Qed.

Lemma Release_same_tree this w u w' :
  Release this w = Ok (u, w') → same_tree w w'.
Proof.
  intros H. apply Release_inv in H as (c & Hc & ->). by eapply same_tree_store.
Qed.

Lemma tree_wf_same_tree w w' : same_tree w w' → tree_wf w → tree_wf w'.
Proof.
  intros Hs [RN CN RP CP]. pose proof (same_tree_sym _ _ Hs) as Hs'.
  destruct Hs as [R T C]. split.
  - intros l Hl. apply RN. congruence.
  - intros q c Hq. destruct (same_tree_lookup _ _ _ _ Hs' Hq) as (c0 & Hq0 & E).
    apply skeleton_eq in E as (_ & _ & E). rewrite <- E. eauto.
  - intros l p Hl Hin. rewrite R in Hl. destruct (RP l p Hl Hin) as (cp & Hp & E).
    specialize (C p). rewrite Hp in C.
    apply skeleton_of_lookup in C as (cp' & Hp' & C).
    apply skeleton_eq in C as (_ & C & _). exists cp'. split; [done|congruence].
  - intros q c p Hq Hin.
    destruct (same_tree_lookup _ _ _ _ Hs' Hq) as (c0 & Hq0 & E).
    apply skeleton_eq in E as (_ & _ & E). rewrite <- E in Hin.
    destruct (CP q c0 p Hq0 Hin) as (cp & Hp & Ep).
    specialize (C p). rewrite Hp in C.
    apply skeleton_of_lookup in C as (cp' & Hp' & C).
    apply skeleton_eq in C as (_ & C & _). exists cp'. split; [done|congruence].
Qed.

Lemma registry_sound_same_tree w w' :
  same_tree w w' → registry_sound w → registry_sound w'.
Proof.
  intros [R T C] Hs t k p Ht Hk. rewrite T in Ht.
  destruct (Hs t k p Ht Hk) as (c & Hc & E).
  specialize (C p). rewrite Hc in C.
  apply skeleton_of_lookup in C as (c' & Hc' & C).
  apply skeleton_eq in C as (C & _ & _). exists c'. split; [done|congruence].
Qed.

(** *** The constructors *)

Lemma fresh_unallocated (w : World) :
  heap w !! fresh (dom (heap w) ∪ {[0]}) = None.
Proof.
  apply not_elem_of_dom. intros Hin.
  apply (is_fresh (dom (heap w) ∪ {[0]})). set_solver.
Qed.

Lemma fresh_not_null (w : World) : fresh (dom (heap w) ∪ {[0]}) ≠ 0.
Proof.
  intros E. apply (is_fresh (dom (heap w) ∪ {[0]})). rewrite E. set_solver.
Qed.

Lemma new_BrowsingContext_inv aId aName w this w' :
  new_BrowsingContext aId aName w = Ok (this, w') →
  this = fresh (dom (heap w) ∪ {[0]}) ∧ is_Some (sBrowsingContexts w) ∧
  w' = constructed w this
         {| mBrowsingContextId := aId; mParent := None; mChildren := [];
            mDocShell := None; mName := aName; mRefCnt := 0 |}.
Proof.
  unfold new_BrowsingContext. intros H.
  apply bind_Ok in H as (p & w1 & Hg & H). apply gets_inv in Hg as [-> ->].
  apply bind_Ok in H as (u1 & w2 & Hs & H). apply modify_inv in Hs as ->.
  apply bind_Ok in H as (t & w3 & Ht & H).
  apply registry_inv in Ht as [Ht ->]. cbn in Ht.
  apply bind_Ok in H as (u2 & w4 & Hm & H). apply modify_inv in Hm as ->.
  apply ret_Ok in H. injection H as -> ->.
  split; [done|]. split; [by eauto|].
  unfold constructed. by rewrite Ht.
Qed.

Lemma new_BrowsingContext_of_docshell_inv generated aDocShell w this w' :
  new_BrowsingContext_of_docshell generated aDocShell w = Ok (this, w') →
  this = fresh (dom (heap w) ∪ {[0]}) ∧ is_Some (sBrowsingContexts w) ∧
  w' = constructed w this
         {| mBrowsingContextId := generated; mParent := None; mChildren := [];
            mDocShell := aDocShell; mName := EmptyString; mRefCnt := 0 |}.
Proof.
  unfold new_BrowsingContext_of_docshell. intros H.
  apply bind_Ok in H as (p & w1 & Hg & H). apply gets_inv in Hg as [-> ->].
  apply bind_Ok in H as (u1 & w2 & Hs & H). apply modify_inv in Hs as ->.
  apply bind_Ok in H as (t & w3 & Ht & H).
  apply registry_inv in Ht as [Ht ->]. cbn in Ht.
  apply bind_Ok in H as (u2 & w4 & Hm & H). apply modify_inv in Hm as ->.
  apply ret_Ok in H. injection H as -> ->.
  split; [done|]. split; [by eauto|].
  unfold constructed. by rewrite Ht.
Qed.

Lemma tree_wf_listed_allocated w p :
  tree_wf w → isInList p w = true → is_Some (heap w !! p).
Proof.
  intros [RN CN RP CP]. unfold isInList. rewrite orb_true_iff.
  rewrite !bool_decide_eq_true, map_Exists_lookup.
  intros [Hin|(q & c & Hq & Hin)].
  - destruct (sRootBrowsingContexts w) as [l|] eqn:El; cbn in Hin.
    + destruct (RP l p eq_refl Hin) as (cp & Hp & _). eauto.
    + by apply elem_of_nil in Hin.
  - destruct (CP q c p Hq Hin) as (cp & Hp & _). eauto.
Qed.

Lemma tree_wf_constructed w this c :
  tree_wf w → heap w !! this = None → mChildren c = [] →
  tree_wf (constructed w this c).
Proof.
  intros Hwf Hnew Hkids. destruct Hwf as [RN CN RP CP].
  unfold constructed. split; cbn.
  - apply RN.
  - intros q cq. rewrite lookup_insert. case_decide as E.
    + intros [= <-]. rewrite Hkids. constructor.
    + apply CN.
  - intros l p Hl Hin. destruct (RP l p Hl Hin) as (cp & Hp & E).
    exists cp. split; [|done]. rewrite lookup_insert_ne; [done|congruence].
  - intros q cq p. rewrite lookup_insert. case_decide as E.
    + intros [= <-]. rewrite Hkids. intros Hin. by apply elem_of_nil in Hin.
    + intros Hq Hin. destruct (CP q cq p Hq Hin) as (cp & Hp & Ep).
      exists cp. split; [|done]. rewrite lookup_insert_ne; [done|congruence].
Qed.

Lemma registry_sound_constructed w this c :
  registry_sound w → heap w !! this = None →
  registry_sound (constructed w this c).
Proof.
  intros Hs Hnew t k p. unfold constructed. cbn. intros [= <-].
  rewrite lookup_insert. case_decide as E.
  - intros [= <-]. exists c. split; [apply lookup_insert_eq|done].
  - intros Hk. destruct (sBrowsingContexts w) as [t|] eqn:Et; cbn in Hk.
    + destruct (Hs t k p Et Hk) as (cp & Hp & Ep).
      exists cp. split; [|done]. rewrite lookup_insert_ne; [done|congruence].
    + by rewrite lookup_empty in Hk.
Qed.

(** *** Attach *)

Lemma inserted_statics w aParent this :
  sBrowsingContexts (inserted w aParent this) = sBrowsingContexts w ∧
  ContentChild_singleton (inserted w aParent this) = ContentChild_singleton w ∧
  sent (inserted w aParent this) = sent w.
Proof.
  unfold inserted. destruct aParent as [parent|]; [|done].
  by destruct (heap w !! parent).
Qed.

Lemma insertBack_inv aParent this w u w' :
  insertBack aParent this w = Ok (u, w') →
  collection_exists w aParent ∧
  ∃ c1, heap (inserted w aParent this) !! this = Some c1 ∧
    w' = with_heap
           (<[this := set_mRefCnt (wrap_nsrefcnt (mRefCnt c1 + 1)) c1]>
              (heap (inserted w aParent this)))
           (inserted w aParent this).
Proof.
  unfold insertBack. intros H. apply bind_Ok in H as (u1 & w1 & Hi & H).
  assert (collection_exists w aParent ∧ w1 = inserted w aParent this) as [Hc ->].
  { unfold collection_exists, inserted. destruct aParent as [parent|].
    - apply bind_Ok in Hi as (p & w2 & Hl & Hi).
      apply load_context_inv in Hl as [Hp ->]. rewrite Hp. split; [by eauto|].
      by apply modify_inv in Hi.
    - apply bind_Ok in Hi as (l & w2 & Hl & Hi).
      apply roots_inv in Hl as [Hl ->]. rewrite Hl. split; [by eauto|].
      by apply modify_inv in Hi. }
  split; [done|]. by apply AddRef_inv in H.
Qed.

(** What [Attach] does to a context that is in no list. *)
Lemma Attach_inv env this aParent w u w' :
  Attach env this aParent w = Ok (u, w') → isInList this w = false →
  collection_exists w aParent ∧
  (XRE_IsContentProcess env = true → ContentChild_singleton w = true) ∧
  ∃ c1, heap (inserted w aParent this) !! this = Some c1 ∧
    let h := <[this := set_mParent aParent
                         (set_mRefCnt (wrap_nsrefcnt (mRefCnt c1 + 1)) c1)]>
               (heap (inserted w aParent this)) in
    heap w' = h ∧
    sRootBrowsingContexts w' = sRootBrowsingContexts (inserted w aParent this) ∧
    sBrowsingContexts w' = sBrowsingContexts w ∧
    ContentChild_singleton w' = ContentChild_singleton w ∧
    sent w' = sent w ++
      if XRE_IsContentProcess env
      then [AttachBrowsingContext
              match aParent with
              | Some parent => default 0%Z (mBrowsingContextId <$> h !! parent)
              | None => 0%Z
              end (mBrowsingContextId c1) (mName c1)]
      else [].
Proof.
  unfold Attach. intros H Hout.
  apply bind_Ok in H as (c & w1 & Hl & H). apply load_context_inv in Hl as [Hc ->].
  apply bind_Ok in H as (b & w1 & Hg & H). apply gets_inv in Hg as [-> ->].
  rewrite Hout in H.
  apply bind_Ok in H as (u1 & w1 & Hi & H).
  apply insertBack_inv in Hi as (Hcoll & c1 & Hc1 & ->).
  apply bind_Ok in H as (c2 & w2 & Hl & H).
  apply load_context_inv in Hl as [Hc2 ->]. cbn [heap with_heap] in Hc2.
  rewrite lookup_insert_eq in Hc2. injection Hc2 as <-.
  apply bind_Ok in H as (u2 & w2 & Hs & H). apply modify_inv in Hs as ->.
  destruct (inserted_statics w aParent this) as (Et & Es & Em).
  split; [done|].
  set (wx := with_heap _ (with_heap _ _)) in H.
  assert (Hh : heap wx =
               <[this := set_mParent aParent
                           (set_mRefCnt (wrap_nsrefcnt (mRefCnt c1 + 1)) c1)]>
                 (heap (inserted w aParent this))).
  { subst wx. cbn [heap with_heap]. apply insert_insert_eq. }
  assert (Hx : sRootBrowsingContexts wx =
                 sRootBrowsingContexts (inserted w aParent this) ∧
               sBrowsingContexts wx = sBrowsingContexts w ∧
               ContentChild_singleton wx = ContentChild_singleton w ∧
               sent wx = sent w) by (by subst wx).
  destruct Hx as (Hr & Ht & Hs & Hm). clearbody wx.
  destruct (XRE_IsContentProcess env); cbn [negb] in H.
  - apply bind_Ok in H as (pid & w3 & Hp & H).
    apply ContentChild_send_inv in H as [Hcc ->].
    assert (w3 = wx ∧
            pid = match aParent with
                  | Some parent =>
                    default 0%Z (mBrowsingContextId <$> heap wx !! parent)
                  | None => 0%Z
                  end) as [-> ->].
    { destruct aParent as [parent|].
      - apply bind_Ok in Hp as (p & w4 & Hl & Hp).
        apply load_context_inv in Hl as [Hl ->]. apply ret_Ok in Hp.
        injection Hp as -> ->. split; [done|]. by rewrite Hl.
      - apply ret_Ok in Hp. by injection Hp as -> ->. }
    split; [intros _; congruence|].
    exists c1. split; [done|].
    cbn [heap sRootBrowsingContexts sBrowsingContexts ContentChild_singleton
         sent with_heap with_sent].
    rewrite Hh, Hm. by repeat split.
  - apply ret_Ok in H. injection H as _ <-.
    split; [done|]. exists c1. split; [done|].
    rewrite Hh, Hm, app_nil_r. by repeat split.
Qed.

(** What [Attach] does to a context that is in a list already: nothing. *)
Lemma Attach_inv_listed env this aParent w u w' :
  Attach env this aParent w = Ok (u, w') → isInList this w = true → w' = w.
Proof.
  unfold Attach. intros H Hin.
  apply bind_Ok in H as (c & w1 & Hl & H). apply load_context_inv in Hl as [Hc ->].
  apply bind_Ok in H as (b & w1 & Hg & H). apply gets_inv in Hg as [-> ->].
  rewrite Hin in H. destruct (diagnostic_asserts env).
  - apply bind_Ok in H as (t & w1 & Ht & H). apply registry_inv in Ht as [_ ->].
    by apply MOZ_DIAGNOSTIC_ASSERT_inv in H as [-> _].
  - apply ret_Ok in H. by injection H as _ <-.
Qed.

(** The contexts after [Attach] has linked [this], read one by one. *)
Lemma Attach_contexts env this aParent w u w' :
  Attach env this aParent w = Ok (u, w') → isInList this w = false →
  (∀ q, match heap w !! q, heap w' !! q with
        | Some c, Some c' =>
          mBrowsingContextId c' = mBrowsingContextId c ∧
          mParent c' = (if decide (q = this) then aParent else mParent c) ∧
          mChildren c' = (if decide (aParent = Some q)
                          then mChildren c ++ [this] else mChildren c)
        | None, None => True
        | _, _ => False
        end) ∧
  sRootBrowsingContexts w' =
    match aParent with
    | None => (λ l, l ++ [this]) <$> sRootBrowsingContexts w
    | Some _ => sRootBrowsingContexts w
    end ∧
  sBrowsingContexts w' = sBrowsingContexts w ∧
  is_Some (heap w !! this) ∧ collection_exists w aParent.
Proof.
  intros H Hout.
  assert (Hthis : is_Some (heap w !! this)).
  { unfold Attach in H. apply bind_Ok in H as (c & w1 & Hl & _).
    apply load_context_inv in Hl as [Hc _]. eauto. }
  destruct (Attach_inv _ _ _ _ _ _ H Hout)
    as (Hcoll & _ & c1 & Hc1 & Hh & Hr & Ht & _).
  cbv zeta in Hh. split; [|split; [|split; [done|split; done]]].
  - intros q. rewrite Hh. unfold inserted in *.
    destruct aParent as [parent|].
    + destruct Hcoll as [cp Hcp]. rewrite Hcp in *. cbn [heap with_heap] in *.
      rewrite lookup_insert. case_decide as E1.
      * subst q. rewrite lookup_insert in Hc1. case_decide as E2.
        -- subst parent. injection Hc1 as <-. rewrite Hcp. cbn.
           repeat case_decide; by try congruence.
        -- rewrite Hc1. cbn. repeat case_decide; by try congruence.
      * rewrite lookup_insert. case_decide as E2.
        -- subst q. rewrite Hcp. cbn. repeat case_decide; by try congruence.
        -- destruct (heap w !! q) as [cq|]; [|done].
           repeat case_decide; by try congruence.
    + cbn [heap with_roots] in *. rewrite lookup_insert. case_decide as E1.
      * subst q. rewrite Hc1. cbn. repeat case_decide; by try congruence.
      * destruct (heap w !! q) as [cq|]; [|done].
        repeat case_decide; by try congruence.
  - rewrite Hr. unfold inserted, collection_exists in *.
    destruct aParent as [parent|].
    + by destruct (heap w !! parent).
    + destruct Hcoll as [l ->]. done.
Qed.

Lemma tree_wf_Attach env this aParent w u w' :
  tree_wf w → Attach env this aParent w = Ok (u, w') → tree_wf w'.
Proof.
  intros Hwf H. destruct (isInList this w) eqn:Hin.
  { by rewrite (Attach_inv_listed _ _ _ _ _ _ H Hin). }
  destruct (Attach_contexts _ _ _ _ _ _ H Hin) as (Hc & Hr & _ & Hthis & Hcoll).
  apply isInList_false in Hin as [Hroot Hkids].
  destruct Hwf as [RN CN RP CP].
  (* the object found at [p] afterwards, for a [p] other than [this] *)
  assert (Hkeep : ∀ p cp, p ≠ this → heap w !! p = Some cp →
            ∃ cp', heap w' !! p = Some cp' ∧ mParent cp' = mParent cp).
  { intros p cp Hne Hp. specialize (Hc p). rewrite Hp in Hc.
    destruct (heap w' !! p) as [cp'|]; [|done]. exists cp'. split; [done|].
    destruct Hc as (_ & Hc & _). by rewrite decide_False in Hc. }
  split.
  - intros l Hl. rewrite Hr in Hl. destruct aParent as [parent|]; [by apply RN|].
    destruct (sRootBrowsingContexts w) as [l0|] eqn:El; [|done].
    injection Hl as <-. apply NoDup_app. split; [by apply RN|].
    split; [|apply NoDup_singleton].
    intros x Hx Hx'. apply list_elem_of_singleton in Hx'. subst x. by apply Hroot.
  - intros q c' Hq. specialize (Hc q). rewrite Hq in Hc.
    destruct (heap w !! q) as [c|] eqn:Eq; [|done].
    destruct Hc as (_ & _ & ->). case_decide as E; [|by eapply CN].
    apply NoDup_app. split; [by eapply CN|]. split; [|apply NoDup_singleton].
    intros x Hx Hx'. apply list_elem_of_singleton in Hx'. subst x.
    exact (Hkids q c Eq Hx).
  - intros l p Hl Hp. rewrite Hr in Hl. destruct aParent as [parent|].
    + destruct (RP l p Hl Hp) as (cp & Hcp & E).
      destruct (Hkeep p cp) as (cp' & Hcp' & E'); [|done|].
      { intros ->. apply Hroot. by rewrite Hl. }
      exists cp'. split; [done|congruence].
    + destruct (sRootBrowsingContexts w) as [l0|] eqn:El; [|done].
      injection Hl as <-. apply elem_of_app in Hp as [Hp|Hp].
      * destruct (RP l0 p eq_refl Hp) as (cp & Hcp & E).
        destruct (Hkeep p cp) as (cp' & Hcp' & E'); [|done|].
        { intros ->. by apply Hroot. }
        exists cp'. split; [done|congruence].
      * apply list_elem_of_singleton in Hp. subst p.
        destruct Hthis as [c Hthis]. specialize (Hc this). rewrite Hthis in Hc.
        destruct (heap w' !! this) as [c'|]; [|done]. exists c'. split; [done|].
        destruct Hc as (_ & Hc & _). by rewrite decide_True in Hc.
  - intros q c' p Hq Hp. specialize (Hc q) as Hcq. rewrite Hq in Hcq.
    destruct (heap w !! q) as [c|] eqn:Eq; [|done].
    destruct Hcq as (_ & _ & Hkq). rewrite Hkq in Hp.
    assert (Hold : p ∈ mChildren c →
              ∃ cp', heap w' !! p = Some cp' ∧ mParent cp' = Some q).
    { intros Hp'. destruct (CP q c p Eq Hp') as (cp & Hcp & E).
      destruct (Hkeep p cp) as (cp' & Hcp' & E'); [|done|].
      { intros ->. exact (Hkids q c Eq Hp'). }
      exists cp'. split; [done|congruence]. }
    case_decide as E; [|by apply Hold].
    apply elem_of_app in Hp as [Hp|Hp]; [by apply Hold|].
    apply list_elem_of_singleton in Hp. subst p.
    destruct Hthis as [c0 Hthis]. specialize (Hc this). rewrite Hthis in Hc.
    destruct (heap w' !! this) as [c0'|]; [|done]. exists c0'. split; [done|].
    destruct Hc as (_ & Hc & _). rewrite decide_True in Hc by done. congruence.
Qed.

Lemma registry_sound_Attach env this aParent w u w' :
  registry_sound w → Attach env this aParent w = Ok (u, w') → registry_sound w'.
Proof.
  intros Hs H. destruct (isInList this w) eqn:Hin.
  { by rewrite (Attach_inv_listed _ _ _ _ _ _ H Hin). }
  destruct (Attach_contexts _ _ _ _ _ _ H Hin) as (Hc & _ & Ht & _).
  intros t k p Et Hk. rewrite Ht in Et.
  destruct (Hs t k p Et Hk) as (c & Hp & E).
  specialize (Hc p). rewrite Hp in Hc.
  destruct (heap w' !! p) as [c'|]; [|done]. exists c'. split; [done|].
  destruct Hc as (Hc & _). congruence.
Qed.

(** *** Detach *)

Lemma detached_lookup w this q :
  heap (detached w this) !! q =
  (λ c, set_mChildren (unlink this (mChildren c)) c) <$> heap w !! q.
Proof. unfold detached. cbn. apply lookup_fmap. Qed.

Lemma detached_same_tree w w' this :
  same_tree w w' → same_tree (detached w this) (detached w' this).
Proof.
  intros [R T C]. split.
  - cbn. by rewrite R.
  - done.
  - intros q. rewrite !detached_lookup. specialize (C q).
    destruct (heap w !! q) as [c|].
    + apply skeleton_of_lookup in C as (c' & -> & C).
      apply skeleton_eq in C as (C1 & C2 & C3). cbn. unfold skeleton. cbn.
      by rewrite C1, C2, C3.
    + by destruct (heap w' !! q).
Qed.

Lemma detached_absent w this :
  isInList this w = false → same_tree w (detached w this).
Proof.
  intros [Hroot Hkids]%isInList_false. split.
  - cbn. destruct (sRootBrowsingContexts w) as [l|]; [|done].
    cbn in *. f_equal. by apply unlink_absent.
  - done.
  - intros q. rewrite detached_lookup.
    destruct (heap w !! q) as [c|] eqn:Eq; [|done]. cbn. unfold skeleton. cbn.
    rewrite unlink_absent; [done|]. by eapply Hkids.
Qed.

Lemma remove_inv this w u w' :
  remove this w = Ok (u, w') → same_tree (detached w this) w'.
Proof.
  unfold remove. intros H. apply bind_Ok in H as (u1 & w1 & Hm & H).
  apply modify_inv in Hm as ->. by apply Release_same_tree in H.
Qed.

Lemma with_sent_same_tree w l : same_tree w (with_sent l w).
Proof. by split. Qed.

Lemma Detach_same_tree env this w u w' :
  Detach env this w = Ok (u, w') → same_tree (detached w this) w'.
Proof.
  unfold Detach. intros H.
  apply bind_Ok in H as (u1 & wa & Ha & H). apply AddRef_same_tree in Ha.
  apply (detached_same_tree _ _ this) in Ha.
  apply bind_Ok in H as (b & w1 & Hg & H). apply gets_inv in Hg as [-> ->].
  apply bind_Ok in H as (u2 & w2 & Hb & H). apply Release_same_tree in H.
  eapply same_tree_trans; [exact Ha|]. eapply same_tree_trans; [|exact H].
  destruct (isInList this wa) eqn:Hin; cbn [negb] in Hb.
  - apply bind_Ok in Hb as (u3 & w3 & Hr & Hb). apply remove_inv in Hr.
    eapply same_tree_trans; [exact Hr|].
    destruct (XRE_IsContentProcess env); cbn [negb] in Hb.
    + apply bind_Ok in Hb as (c & w4 & Hl & Hb).
      apply load_context_inv in Hl as [_ ->].
      apply ContentChild_send_inv in Hb as [_ ->]. apply with_sent_same_tree.
    + apply ret_Ok in Hb. injection Hb as _ <-. apply same_tree_refl.
  - apply ret_Ok in Hb. injection Hb as _ <-.
    apply same_tree_sym. by apply detached_absent.
Qed.

Lemma tree_wf_detached w this : tree_wf w → tree_wf (detached w this).
Proof.
  intros [RN CN RP CP]. split.
  - cbn. intros l Hl. destruct (sRootBrowsingContexts w) as [l0|] eqn:El; [|done].
    injection Hl as <-. apply NoDup_filter. by apply RN.
  - intros q c'. rewrite detached_lookup.
    destruct (heap w !! q) as [c|] eqn:Eq; [|done]. intros [= <-]. cbn.
    apply NoDup_filter. by eapply CN.
  - intros l p Hl Hp. cbn [sRootBrowsingContexts detached] in Hl.
    destruct (sRootBrowsingContexts w) as [l0|] eqn:El; [|done].
    injection Hl as <-. apply list_elem_of_filter in Hp as [_ Hp].
    destruct (RP l0 p eq_refl Hp) as (cp & Hcp & E).
    eexists. split; [rewrite detached_lookup, Hcp; reflexivity|done].
  - intros q c' p. rewrite detached_lookup.
    destruct (heap w !! q) as [c|] eqn:Eq; [|done]. intros [= <-].
    cbn [mChildren set_mChildren]. intros [_ Hp]%list_elem_of_filter.
    destruct (CP q c p Eq Hp) as (cp & Hcp & E).
    eexists. split; [rewrite detached_lookup, Hcp; reflexivity|done].
Qed.

Lemma registry_sound_detached w this :
  registry_sound w → registry_sound (detached w this).
Proof.
  intros Hs t k p Ht Hk. destruct (Hs t k p Ht Hk) as (c & Hc & E).
  eexists. split; [rewrite detached_lookup, Hc; reflexivity|done].
Qed.

(** After [Detach] the context is in no list. *)
Lemma isInList_detached w this : isInList this (detached w this) = false.
Proof.
  apply isInList_false. split.
  - cbn. destruct (sRootBrowsingContexts w) as [l|]; cbn.
    + intros [Hne _]%list_elem_of_filter. by apply Hne.
    + apply not_elem_of_nil.
  - intros q c'. rewrite detached_lookup.
    destruct (heap w !! q) as [c|]; [|done]. intros [= <-]. cbn.
    intros [Hne _]%list_elem_of_filter. by apply Hne.
Qed.

Lemma isInList_same_tree this w w' :
  same_tree w w' → isInList this w' = isInList this w.
Proof.
  intros Hs. pose proof (same_tree_sym _ _ Hs) as Hs'.
  unfold isInList. rewrite (tree_roots _ _ Hs). f_equal.
  apply bool_decide_ext. rewrite !map_Exists_lookup.
  split; intros (q & c & Hq & Hin).
  - destruct (same_tree_lookup _ _ _ _ Hs' Hq) as (c0 & Hq0 & E).
    apply skeleton_eq in E as (_ & _ & E). exists q, c0. by rewrite E.
  - destruct (same_tree_lookup _ _ _ _ Hs Hq) as (c0 & Hq0 & E).
    apply skeleton_eq in E as (_ & _ & E). exists q, c0. by rewrite E.
Qed.

(** *** The registry *)

Lemma Get_inv aId w r w' :
  Get aId w = Ok (r, w') →
  ∃ t, sBrowsingContexts w = Some t ∧ r = t !! aId ∧
    match r with
    | Some p => AddRef p w = Ok (tt, w')
    | None => w' = w
    end.
Proof.
  unfold Get. intros H. apply bind_Ok in H as (t & w1 & Ht & H).
  apply registry_inv in Ht as [Ht ->]. exists t. split; [done|].
  destruct (t !! aId) as [p|].
  - apply bind_Ok in H as ([] & w1 & Ha & H). apply ret_Ok in H.
    by injection H as -> ->.
  - apply ret_Ok in H. by injection H as -> ->.
Qed.

Lemma GetOrCreate_inv aId aName w p w' :
  GetOrCreate aId aName w = Ok (p, w') →
  ∃ t, sBrowsingContexts w = Some t ∧
    match t !! aId with
    | Some q => p = q ∧ AddRef p w = Ok (tt, w')
    | None =>
      p = fresh (dom (heap w) ∪ {[0]}) ∧
      AddRef p (constructed w p
                  {| mBrowsingContextId := aId; mParent := None; mChildren := [];
                     mDocShell := None; mName := aName; mRefCnt := 0 |}) =
        Ok (tt, w')
    end.
Proof.
  unfold GetOrCreate. intros H. apply bind_Ok in H as (t & w1 & Ht & H).
  apply registry_inv in Ht as [Ht ->]. exists t. split; [done|].
  destruct (t !! aId) as [q|].
  - apply bind_Ok in H as ([] & w1 & Ha & H). apply ret_Ok in H.
    by injection H as -> ->.
  - apply bind_Ok in H as (q & w1 & Hn & H).
    apply new_BrowsingContext_inv in Hn as (-> & _ & ->).
    apply bind_Ok in H as ([] & w2 & Ha & H). apply ret_Ok in H.
    by injection H as -> ->.
Qed.

Lemma SetName_same_tree this aName w u w' :
  SetName this aName w = Ok (u, w') → same_tree w w'.
Proof.
  unfold SetName. intros H. apply bind_Ok in H as (c & w1 & Hl & H).
  apply load_context_inv in Hl as [Hc ->]. apply modify_inv in H as ->.
  by eapply same_tree_store.
Qed.

(** *** What every run keeps *)

Lemma Init_inv w u w' :
  Init w = Ok (u, w') →
  heap w' = heap w ∧
  sRootBrowsingContexts w' = Some (default [] (sRootBrowsingContexts w)) ∧
  sBrowsingContexts w' = Some (default ∅ (sBrowsingContexts w)) ∧
  ContentChild_singleton w' = ContentChild_singleton w ∧ sent w' = sent w.
Proof.
  unfold Init. intros H. apply modify_inv in H as ->.
  destruct w as [h [l|] [t|] cc m]; done.
Qed.

Lemma Init_keeps w u w' :
  Init w = Ok (u, w') →
  tree_wf w ∧ registry_sound w → tree_wf w' ∧ registry_sound w'.
Proof.
  intros H [[RN CN RP CP] Hs].
  apply Init_inv in H as (Hh & Hr & Ht & _). split; [split|].
  - rewrite Hr. intros l [= <-].
    destruct (sRootBrowsingContexts w) as [l|]; [by apply RN|constructor].
  - rewrite Hh. apply CN.
  - rewrite Hr, Hh. intros l p [= <-].
    destruct (sRootBrowsingContexts w) as [l|]; [by apply RP|].
    intros Hin. by apply elem_of_nil in Hin.
  - rewrite Hh. apply CP.
  - intros t k p. rewrite Ht, Hh. intros [= <-].
    destruct (sBrowsingContexts w) as [t|] eqn:Et; [by apply Hs|].
    cbn. by rewrite lookup_empty.
Qed.

Lemma tree_wf_startup cc : tree_wf (startup cc).
Proof. by split. Qed.

Lemma registry_sound_startup cc : registry_sound (startup cc).
Proof. intros t k p. done. Qed.

Lemma run_op_keeps env op w u w' :
  run_op env op w = Ok (u, w') →
  tree_wf w ∧ registry_sound w → tree_wf w' ∧ registry_sound w'.
Proof.
  intros H [Hwf Hs]. destruct op as [|aId|aId aName|g d|this aParent|this|this aName];
    cbn [run_op] in H.
  - by eapply Init_keeps.
  - apply bind_Ok in H as (r & w1 & Hg & H). apply ret_Ok in H.
    injection H as _ <-. apply Get_inv in Hg as (t & Ht & _ & Hg).
    destruct r as [p|]; [|by subst].
    apply AddRef_same_tree in Hg.
    split; [by eapply tree_wf_same_tree|by eapply registry_sound_same_tree].
  - apply bind_Ok in H as (p & w1 & Hg & H). apply ret_Ok in H.
    injection H as _ <-. apply GetOrCreate_inv in Hg as (t & Ht & Hg).
    destruct (t !! aId) as [q|].
    + destruct Hg as [_ Hg]. apply AddRef_same_tree in Hg.
      split; [by eapply tree_wf_same_tree|by eapply registry_sound_same_tree].
    + destruct Hg as [-> Hg]. apply AddRef_same_tree in Hg. split.
      * eapply tree_wf_same_tree; [exact Hg|].
        apply tree_wf_constructed; [done|apply fresh_unallocated|done].
      * eapply registry_sound_same_tree; [exact Hg|].
        apply registry_sound_constructed; [done|apply fresh_unallocated].
  - apply bind_Ok in H as (p & w1 & Hn & H). apply ret_Ok in H.
    injection H as _ <-.
    apply new_BrowsingContext_of_docshell_inv in Hn as (-> & _ & ->). split.
    + apply tree_wf_constructed; [done|apply fresh_unallocated|done].
    + apply registry_sound_constructed; [done|apply fresh_unallocated].
  - split; [by eapply tree_wf_Attach|by eapply registry_sound_Attach].
  - apply Detach_same_tree in H. split.
    + eapply tree_wf_same_tree; [exact H|]. by apply tree_wf_detached.
    + eapply registry_sound_same_tree; [exact H|]. by apply registry_sound_detached.
  - apply SetName_same_tree in H.
    split; [by eapply tree_wf_same_tree|by eapply registry_sound_same_tree].
Qed.

Lemma run_keeps env ops w w' :
  run env ops w = Ok (tt, w') →
  tree_wf w ∧ registry_sound w → tree_wf w' ∧ registry_sound w'.
Proof.
  unfold run. revert w. induction ops as [|op ops IH]; intros w H Hinv.
  - cbn in H. apply ret_Ok in H. by injection H as <-.
  - cbn [for_each] in H. apply (bind_Ok (run_op env op)) in H as (u & w1 & Hop & H).
    apply (IH w1 H). by eapply run_op_keeps.
Qed.

(** No operation puts an object at the null address. *)
Lemma same_tree_unallocated w w' q :
  same_tree w w' → heap w !! q = None → heap w' !! q = None.
Proof.
  intros Hs Hq. pose proof (tree_contexts _ _ Hs q) as E. rewrite Hq in E.
  by destruct (heap w' !! q).
Qed.

Lemma run_op_keeps_null env op w u w' :
  run_op env op w = Ok (u, w') → heap w !! 0 = None → heap w' !! 0 = None.
Proof.
  intros H Hnull.
  destruct op as [|aId|aId aName|g d|this aParent|this|this aName];
    cbn [run_op] in H.
  - apply Init_inv in H as (Hh & _). by rewrite Hh.
  - apply bind_Ok in H as (r & w1 & Hg & H). apply ret_Ok in H.
    injection H as _ <-. apply Get_inv in Hg as (t & Ht & _ & Hg).
    destruct r as [p|]; [|by subst].
    apply AddRef_same_tree in Hg. by eapply same_tree_unallocated.
  - apply bind_Ok in H as (p & w1 & Hg & H). apply ret_Ok in H.
    injection H as _ <-. apply GetOrCreate_inv in Hg as (t & Ht & Hg).
    destruct (t !! aId) as [q|].
    + destruct Hg as [_ Hg]. apply AddRef_same_tree in Hg.
      by eapply same_tree_unallocated.
    + destruct Hg as [-> Hg]. apply AddRef_same_tree in Hg.
      eapply same_tree_unallocated; [exact Hg|]. unfold constructed. cbn.
      rewrite lookup_insert_ne; [done|]. apply fresh_not_null.
  - apply bind_Ok in H as (p & w1 & Hn & H). apply ret_Ok in H.
    injection H as _ <-.
    apply new_BrowsingContext_of_docshell_inv in Hn as (-> & _ & ->).
    unfold constructed. cbn.
    rewrite lookup_insert_ne; [done|]. apply fresh_not_null.
  - destruct (isInList this w) eqn:Hin.
    { by rewrite (Attach_inv_listed _ _ _ _ _ _ H Hin). }
    destruct (Attach_contexts _ _ _ _ _ _ H Hin) as (Hc & _).
    specialize (Hc 0). rewrite Hnull in Hc. by destruct (heap w' !! 0).
  - apply Detach_same_tree in H.
    eapply same_tree_unallocated; [exact H|].
    by rewrite detached_lookup, Hnull.
  - apply SetName_same_tree in H. by eapply same_tree_unallocated.
Qed.

Lemma run_keeps_null env ops w w' :
  run env ops w = Ok (tt, w') → heap w !! 0 = None → heap w' !! 0 = None.
Proof.
  unfold run. revert w. induction ops as [|op ops IH]; intros w H Hnull.
  - cbn in H. apply ret_Ok in H. by injection H as <-.
  - cbn [for_each] in H. apply (bind_Ok (run_op env op)) in H as (u & w1 & Hop & H).
    apply (IH w1 H). by eapply run_op_keeps_null.
Qed.

(** In every store that a run of the public operations reaches from the
    start of the process, the lists form a forest that [mParent] agrees
    with; so a context is in at most one list: never in the children of two
    contexts, never in the root list and in some context's children. *)
Theorem lists_form_a_forest env cc ops w :
  run env ops (startup cc) = Ok (tt, w) →
  tree_wf w ∧
  (∀ p q1 q2 c1 c2,
     heap w !! q1 = Some c1 → heap w !! q2 = Some c2 →
     p ∈ mChildren c1 → p ∈ mChildren c2 → q1 = q2) ∧
  (∀ p l q c,
     sRootBrowsingContexts w = Some l → p ∈ l → heap w !! q = Some c →
     p ∉ mChildren c).
Proof.
  intros H.
  destruct (run_keeps _ _ _ _ H) as [Hwf _];
    [split; [apply tree_wf_startup|apply registry_sound_startup]|].
  split; [done|]. destruct Hwf as [RN CN RP CP]. split.
  - intros p q1 q2 c1 c2 H1 H2 Hp1 Hp2.
    destruct (CP q1 c1 p H1 Hp1) as (cp & Hcp & E1).
    destruct (CP q2 c2 p H2 Hp2) as (cp' & Hcp' & E2). congruence.
  - intros p l q c Hl Hp Hq Hin.
    destruct (RP l p Hl Hp) as (cp & Hcp & E1).
    destruct (CP q c p Hq Hin) as (cp' & Hcp' & E2). congruence.
Qed.

Lemma lists_form_a_forest_witness :
  ∃ w, run content_process sample_run (startup true) = Ok (tt, w) ∧
       tree_wf w ∧ sRootBrowsingContexts w = Some [].
Proof.
  eexists. split; [vm_compute; reflexivity|]. split; [|vm_compute; reflexivity].
  eapply (lists_form_a_forest content_process true sample_run).
  vm_compute. reflexivity.
Defined.

(** In every store that a run reaches, [Get] on an initialised registry
    returns: either null, and then nothing changes, or an object that is
    there and has the identifier asked for, with one more reference. *)
Theorem Get_returns_a_context_with_that_identifier env cc ops w aId :
  run env ops (startup cc) = Ok (tt, w) →
  is_Some (sBrowsingContexts w) →
  ∃ r w', Get aId w = Ok (r, w') ∧
    match r with
    | Some p =>
      ∃ c, heap w !! p = Some c ∧ mBrowsingContextId c = aId ∧
           heap w' = <[p := set_mRefCnt (wrap_nsrefcnt (mRefCnt c + 1)) c]> (heap w)
    | None => w' = w
    end.
Proof.
  intros H [t Ht].
  destruct (run_keeps _ _ _ _ H) as [_ Hs];
    [split; [apply tree_wf_startup|apply registry_sound_startup]|].
  unfold Get. destruct (t !! aId) as [p|] eqn:Hp.
  - destruct (Hs t aId p Ht Hp) as (c & Hc & E).
    exists (Some p), (with_heap (<[p := set_mRefCnt (wrap_nsrefcnt (mRefCnt c + 1)) c]>
                                  (heap w)) w).
    split; [|by exists c].
    eapply bind_run; [unfold registry; by rewrite Ht|]. rewrite Hp.
    eapply bind_run; [by apply AddRef_counts|reflexivity].
  - exists None, w. split; [|done].
    eapply bind_run; [unfold registry; by rewrite Ht|]. by rewrite Hp.
Qed.

Lemma Get_returns_a_context_with_that_identifier_witness :
  ∃ w, run content_process sample_run (startup true) = Ok (tt, w) ∧
    ∃ r w', Get 8 w = Ok (r, w') ∧
      match r with
      | Some p =>
        ∃ c, heap w !! p = Some c ∧ mBrowsingContextId c = 8%Z ∧
             heap w' = <[p := set_mRefCnt (wrap_nsrefcnt (mRefCnt c + 1)) c]> (heap w)
      | None => w' = w
      end.
Proof.
  eexists. split; [vm_compute; reflexivity|].
  eapply (Get_returns_a_context_with_that_identifier content_process true
            sample_run); [vm_compute; reflexivity|vm_compute; eauto].
Defined.

(** *** Before and after [Init] *)

(** While the registry is null the static lookups dereference null. [Init]
    makes the statics that are missing and keeps those that are there, so
    that a second [Init] changes nothing; on a registry made by [Init] a
    lookup returns null. *)
Theorem Init_makes_the_missing_statics w aId aName :
  (sBrowsingContexts w = None →
     Get aId w = Undefined ∧ GetOrCreate aId aName w = Undefined) ∧
  ∃ w1, Init w = Ok (tt, w1) ∧ Init w1 = Ok (tt, w1) ∧
    heap w1 = heap w ∧
    sRootBrowsingContexts w1 = Some (default [] (sRootBrowsingContexts w)) ∧
    sBrowsingContexts w1 = Some (default ∅ (sBrowsingContexts w)) ∧
    (sBrowsingContexts w = None → Get aId w1 = Ok (None, w1)).
Proof.
  split.
  - intros Ht. unfold Get, GetOrCreate, mbind, comp_bind, bind, registry.
    by rewrite Ht.
  - destruct w as [h [l|] [t|] cc m]; eexists; (split; [reflexivity|]);
      repeat split; try done.
Qed.

(** *** Constructors and lookups *)

Lemma constructed_registry w t this c :
  sBrowsingContexts w = Some t →
  constructed w this c =
    with_registry (Some (<[mBrowsingContextId c := this]> t))
      (with_heap (<[this := c]> (heap w)) w).
Proof. intros Ht. unfold constructed. by rewrite Ht. Qed.

Lemma constructed_then_Get w t this c :
  sBrowsingContexts w = Some t →
  Get (mBrowsingContextId c) (constructed w this c) =
    Ok (Some this,
        with_heap (<[this := set_mRefCnt (wrap_nsrefcnt (mRefCnt c + 1)) c]>
                     (heap (constructed w this c))) (constructed w this c)).
Proof.
  intros Ht. rewrite (constructed_registry _ _ _ _ Ht). unfold Get.
  eapply bind_run; [unfold registry; cbn; reflexivity|].
  rewrite lookup_insert_eq.
  eapply bind_run; [apply AddRef_counts; cbn; apply lookup_insert_eq|reflexivity].
Qed.

Lemma new_BrowsingContext_run aId aName w t :
  sBrowsingContexts w = Some t →
  new_BrowsingContext aId aName w =
    Ok (fresh (dom (heap w) ∪ {[0]}),
        constructed w (fresh (dom (heap w) ∪ {[0]}))
          {| mBrowsingContextId := aId; mParent := None; mChildren := [];
             mDocShell := None; mName := aName; mRefCnt := 0 |}).
Proof.
  intros Ht. unfold new_BrowsingContext.
  eapply bind_run; [reflexivity|].
  eapply bind_run; [reflexivity|].
  eapply bind_run; [unfold registry; cbn; by rewrite Ht|].
  eapply bind_run; [reflexivity|]. unfold constructed. by rewrite Ht.
Qed.

Lemma new_BrowsingContext_of_docshell_run generated d w t :
  sBrowsingContexts w = Some t →
  new_BrowsingContext_of_docshell generated d w =
    Ok (fresh (dom (heap w) ∪ {[0]}),
        constructed w (fresh (dom (heap w) ∪ {[0]}))
          {| mBrowsingContextId := generated; mParent := None; mChildren := [];
             mDocShell := d; mName := EmptyString; mRefCnt := 0 |}).
Proof.
  intros Ht. unfold new_BrowsingContext_of_docshell.
  eapply bind_run; [reflexivity|].
  eapply bind_run; [reflexivity|].
  eapply bind_run; [unfold registry; cbn; by rewrite Ht|].
  eapply bind_run; [reflexivity|]. unfold constructed. by rewrite Ht.
Qed.

(** With the registry initialised, either constructor returns an object at
    an address that was not in use and is not null, registered under its
    identifier in place of whatever was registered there; [Get] with that
    identifier then returns the new object, which has one reference, no
    parent, no children and the name given (the empty name for the
    constructor that takes a docshell). *)
Theorem constructor_registers_the_new_context aId aName d w t :
  sBrowsingContexts w = Some t →
  ∃ this, this ≠ 0 ∧ heap w !! this = None ∧
    (∃ w1 w2,
       new_BrowsingContext aId aName w = Ok (this, w1) ∧
       sBrowsingContexts w1 = Some (<[aId := this]> t) ∧
       Get aId w1 = Ok (Some this, w2) ∧
       heap w2 = <[this := {| mBrowsingContextId := aId; mParent := None;
                              mChildren := []; mDocShell := None;
                              mName := aName; mRefCnt := 1 |}]> (heap w) ∧
       NameEquals this aName w2 = Ok (true, w2)) ∧
    (∃ w1 w2,
       new_BrowsingContext_of_docshell aId d w = Ok (this, w1) ∧
       sBrowsingContexts w1 = Some (<[aId := this]> t) ∧
       Get aId w1 = Ok (Some this, w2) ∧
       heap w2 = <[this := {| mBrowsingContextId := aId; mParent := None;
                              mChildren := []; mDocShell := d;
                              mName := EmptyString; mRefCnt := 1 |}]> (heap w) ∧
       NameEquals this EmptyString w2 = Ok (true, w2)).
Proof.
  intros Ht. exists (fresh (dom (heap w) ∪ {[0]})).
  split; [apply fresh_not_null|]. split; [apply fresh_unallocated|].
  split.
  - eexists _, _. split; [by apply (new_BrowsingContext_run _ _ _ t)|].
    split; [by rewrite (constructed_registry _ _ _ _ Ht)|].
    split; [exact (constructed_then_Get w t _ _ Ht)|].
    split; [unfold constructed; cbn; apply insert_insert_eq|].
    unfold NameEquals. eapply bind_run.
    { apply load_run. unfold constructed. cbn. apply lookup_insert_eq. }
    cbn. by rewrite bool_decide_eq_true_2.
  - eexists _, _. split; [by apply (new_BrowsingContext_of_docshell_run _ _ _ t)|].
    split; [by rewrite (constructed_registry _ _ _ _ Ht)|].
    split; [exact (constructed_then_Get w t _ _ Ht)|].
    split; [unfold constructed; cbn; apply insert_insert_eq|].
    unfold NameEquals. eapply bind_run.
    { apply load_run. unfold constructed. cbn. apply lookup_insert_eq. }
    cbn. by rewrite bool_decide_eq_true_2.
Qed.

Lemma constructor_registers_the_new_context_witness :
  ∃ this, this ≠ 0 ∧ heap one_tab !! this = None ∧
    (∃ w1 w2,
       new_BrowsingContext 11 "again" one_tab = Ok (this, w1) ∧
       sBrowsingContexts w1 =
         Some (<[11%Z := this]> (<[11%Z := 1]> (<[12%Z := 2]> (<[13%Z := 3]> ∅)))) ∧
       Get 11 w1 = Ok (Some this, w2) ∧
       heap w2 = <[this := {| mBrowsingContextId := 11; mParent := None;
                              mChildren := []; mDocShell := None;
                              mName := "again"; mRefCnt := 1 |}]> (heap one_tab) ∧
       NameEquals this "again" w2 = Ok (true, w2)) ∧
    (∃ w1 w2,
       new_BrowsingContext_of_docshell 11 None one_tab = Ok (this, w1) ∧
       sBrowsingContexts w1 =
         Some (<[11%Z := this]> (<[11%Z := 1]> (<[12%Z := 2]> (<[13%Z := 3]> ∅)))) ∧
       Get 11 w1 = Ok (Some this, w2) ∧
       heap w2 = <[this := {| mBrowsingContextId := 11; mParent := None;
                              mChildren := []; mDocShell := None;
                              mName := EmptyString; mRefCnt := 1 |}]> (heap one_tab) ∧
       NameEquals this EmptyString w2 = Ok (true, w2)).
Proof.
  apply (constructor_registers_the_new_context 11 "again" None one_tab).
  reflexivity.
Defined.

(** [GetOrCreate] with an identifier that is registered does what [Get]
    does: it returns the registered object with one more reference, makes
    no object, and ignores the name it is given. *)
Theorem GetOrCreate_of_registered_identifier_ignores_the_name
    aId aName w t p c :
  sBrowsingContexts w = Some t → t !! aId = Some p → heap w !! p = Some c →
  ∃ w', GetOrCreate aId aName w = Ok (p, w') ∧ Get aId w = Ok (Some p, w') ∧
    heap w' = <[p := set_mRefCnt (wrap_nsrefcnt (mRefCnt c + 1)) c]> (heap w) ∧
    sBrowsingContexts w' = Some t ∧
    GetName p w' = Ok (mName c, w') ∧
    NameEquals p aName w' = Ok (bool_decide (mName c = aName), w').
Proof.
  intros Ht Hp Hc. eexists. split.
  { unfold GetOrCreate. eapply bind_run; [unfold registry; by rewrite Ht|].
    rewrite Hp. eapply bind_run; [by apply AddRef_counts|reflexivity]. }
  split.
  { unfold Get. eapply bind_run; [unfold registry; by rewrite Ht|].
    rewrite Hp. eapply bind_run; [by apply AddRef_counts|reflexivity]. }
  split; [done|]. split; [done|]. split.
  - unfold GetName. eapply bind_run; [apply load_run; cbn; apply lookup_insert_eq|].
    reflexivity.
  - unfold NameEquals.
    eapply bind_run; [apply load_run; cbn; apply lookup_insert_eq|]. reflexivity.
Qed.

Lemma GetOrCreate_of_registered_identifier_ignores_the_name_witness :
  ∃ w', GetOrCreate 12 "other" one_tab = Ok (2, w') ∧
    Get 12 one_tab = Ok (Some 2, w') ∧
    heap w' = <[2 := set_mRefCnt (wrap_nsrefcnt (1 + 1))
                        (context 12 "frame" (Some 1) [] 1)]> (heap one_tab) ∧
    sBrowsingContexts w' = sBrowsingContexts one_tab ∧
    GetName 2 w' = Ok ("frame", w') ∧
    NameEquals 2 "other" w' =
      Ok (bool_decide (mName (context 12 "frame" (Some 1) [] 1) = "other"), w').
Proof.
  apply (GetOrCreate_of_registered_identifier_ignores_the_name 12 "other" one_tab
           (<[11%Z := 1]> (<[12%Z := 2]> (<[13%Z := 3]> ∅))) 2
           (context 12 "frame" (Some 1) [] 1));
    vm_compute; reflexivity.
Defined.

(** *** Attaching twice, detaching twice *)

Lemma Attach_listed_run env this aParent w c :
  heap w !! this = Some c → isInList this w = true →
  (diagnostic_asserts env = true →
   ∃ t, sBrowsingContexts w = Some t ∧ is_Some (t !! mBrowsingContextId c)) →
  Attach env this aParent w = Ok (tt, w).
Proof.
  intros Hc Hin Hreg. unfold Attach.
  eapply bind_run; [by apply load_run|].
  eapply bind_run; [reflexivity|]. rewrite Hin.
  destruct (diagnostic_asserts env) eqn:Ed; [|reflexivity].
  destruct (Hreg eq_refl) as (t & Ht & Hk).
  eapply bind_run; [unfold registry; by rewrite Ht|].
  unfold MOZ_DIAGNOSTIC_ASSERT. rewrite Ed.
  by rewrite bool_decide_eq_true_2.
Qed.

(** A context that is in no list is attached under [p1]; a second [Attach],
    under whatever parent, then returns without changing anything: the
    context stays where it is and [Parent] still answers [p1]. Where
    diagnostic assertions are compiled the context has to be registered
    for that. *)
Theorem second_Attach_is_ignored env this p1 p2 w w1 c :
  heap w !! this = Some c → isInList this w = false →
  Attach env this p1 w = Ok (tt, w1) →
  (diagnostic_asserts env = true →
   ∃ t, sBrowsingContexts w = Some t ∧ is_Some (t !! mBrowsingContextId c)) →
  isInList this w1 = true ∧ Parent this w1 = Ok (p1, w1) ∧
  Attach env this p2 w1 = Ok (tt, w1).
Proof.
  intros Hc Hout H Hreg.
  destruct (Attach_contexts _ _ _ _ _ _ H Hout) as (Hq & Hr & Ht & _ & Hcoll).
  pose proof (Hq this) as Hthis. rewrite Hc in Hthis.
  destruct (heap w1 !! this) as [c1|] eqn:Hc1; [|done].
  destruct Hthis as (Eid & Epar & _). rewrite decide_True in Epar by done.
  assert (Hin : isInList this w1 = true).
  { destruct p1 as [parent|].
    - destruct Hcoll as [cp Hcp]. specialize (Hq parent). rewrite Hcp in Hq.
      destruct (heap w1 !! parent) as [cp'|] eqn:Hcp'; [|done].
      destruct Hq as (_ & _ & Hk). rewrite decide_True in Hk by done.
      eapply isInList_true; [exact Hcp'|]. rewrite Hk.
      apply elem_of_app. right. by apply list_elem_of_singleton.
    - destruct Hcoll as [l Hl]. rewrite Hl in Hr.
      eapply isInList_true_root; [exact Hr|].
      apply elem_of_app. right. by apply list_elem_of_singleton. }
  split; [done|]. split.
  - unfold Parent. eapply bind_run; [by apply load_run|]. by rewrite Epar.
  - eapply Attach_listed_run; [done|done|]. rewrite Ht, Eid. exact Hreg.
Qed.

Lemma second_Attach_is_ignored_witness :
  ∃ w1, Attach content_process 3 (Some 2) one_tab = Ok (tt, w1) ∧
    isInList 3 w1 = true ∧ Parent 3 w1 = Ok (Some 2, w1) ∧
    Attach content_process 3 None w1 = Ok (tt, w1).
Proof.
  eexists. split; [vm_compute; reflexivity|].
  eapply (second_Attach_is_ignored content_process 3 (Some 2) None one_tab _
            (context 13 "new" None [] 1)).
  - vm_compute. reflexivity.
  - vm_compute. reflexivity.
  - vm_compute. reflexivity.
  - intros _. eexists. split; [reflexivity|]. vm_compute. eauto.
Defined.

Lemma with_heap_same w this c :
  heap w !! this = Some c → with_heap (<[this := c]> (heap w)) w = w.
Proof. intros H. destruct w. unfold with_heap. cbn in *. by rewrite insert_id. Qed.

Lemma Detach_unlisted_run env this w c :
  heap w !! this = Some c → isInList this w = false →
  (0 ≤ mRefCnt c < nsrefcnt_modulus)%Z →
  Detach env this w = Ok (tt, w).
Proof.
  intros Hc Hout Hn. unfold Detach.
  eapply bind_run; [by apply AddRef_counts|].
  eapply bind_run; [reflexivity|].
  assert (isInList this
            (with_heap (<[this := set_mRefCnt (wrap_nsrefcnt (mRefCnt c + 1)) c]>
                          (heap w)) w) = false) as ->.
  { rewrite <- Hout. apply isInList_same_tree. by eapply same_tree_store. }
  cbn [negb]. eapply bind_run; [reflexivity|].
  rewrite (Release_counts _ _ _ (lookup_insert_eq _ _ _)).
  cbn [heap with_heap mRefCnt set_mRefCnt]. rewrite insert_insert_eq.
  rewrite wrap_succ_pred by done. do 2 f_equal.
  transitivity (with_heap (<[this := c]> (heap w)) w); [|by apply with_heap_same].
  unfold with_heap. cbn. do 2 f_equal. by destruct c.
Qed.

Lemma Detach_final_count env this w u w' :
  Detach env this w = Ok (u, w') →
  ∃ c', heap w' !! this = Some c' ∧ (0 ≤ mRefCnt c' < nsrefcnt_modulus)%Z.
Proof.
  unfold Detach. intros H.
  apply bind_Ok in H as (u1 & wa & _ & H).
  apply bind_Ok in H as (b & w1 & _ & H).
  apply bind_Ok in H as (u2 & w2 & _ & H).
  apply Release_inv in H as (c & Hc & ->). eexists.
  split; [cbn; apply lookup_insert_eq|]. cbn.
  unfold wrap_nsrefcnt, nsrefcnt_modulus. apply Z.mod_pos_bound. lia.
Qed.

Lemma Detach_after env this w u w1 :
  Detach env this w = Ok (u, w1) →
  isInList this w1 = false ∧
  ∃ c c1, heap w !! this = Some c ∧ heap w1 !! this = Some c1 ∧
          (0 ≤ mRefCnt c1 < nsrefcnt_modulus)%Z ∧
          mParent c1 = mParent c ∧ Parent this w1 = Ok (mParent c, w1).
Proof.
  intros H. pose proof (Detach_same_tree _ _ _ _ _ H) as Hs.
  assert (Hout : isInList this w1 = false).
  { rewrite (isInList_same_tree this _ _ Hs). apply isInList_detached. }
  destruct (Detach_final_count _ _ _ _ _ H) as (c1 & Hc1 & Hn).
  split; [done|].
  pose proof (tree_contexts _ _ Hs this) as E. rewrite Hc1 in E.
  rewrite detached_lookup in E.
  destruct (heap w !! this) as [c|] eqn:Hc; [|done].
  change (Some (skeleton c1) =
          Some (skeleton (set_mChildren (unlink this (mChildren c)) c))) in E.
  assert (skeleton c1 = skeleton (set_mChildren (unlink this (mChildren c)) c))
    as E' by congruence.
  apply skeleton_eq in E' as (_ & E' & _). cbn in E'.
  exists c, c1. repeat split; try done; try apply Hn.
  unfold Parent. eapply bind_run; [by apply load_run|]. by rewrite E'.
Qed.

(** When [Detach] has returned the context is in no list and its parent
    pointer is what it was: [Detach] does not clear [mParent]. A second
    [Detach] then returns without changing anything. *)
Theorem Detach_twice env this w w1 :
  Detach env this w = Ok (tt, w1) →
  isInList this w1 = false ∧
  (∃ c c1, heap w !! this = Some c ∧ heap w1 !! this = Some c1 ∧
           mParent c1 = mParent c ∧ Parent this w1 = Ok (mParent c, w1)) ∧
  Detach env this w1 = Ok (tt, w1).
Proof.
  intros H.
  destruct (Detach_after _ _ _ _ _ H) as (Hout & c & c1 & Hc & Hc1 & Hn & E & Hp).
  split; [done|]. split; [by exists c, c1|]. by eapply Detach_unlisted_run.
Qed.

Lemma Detach_twice_witness :
  ∃ w1, Detach content_process 2 one_tab = Ok (tt, w1) ∧
    isInList 2 w1 = false ∧
    (∃ c c1, heap one_tab !! 2 = Some c ∧ heap w1 !! 2 = Some c1 ∧
             mParent c1 = mParent c ∧ Parent 2 w1 = Ok (mParent c, w1)) ∧
    Detach content_process 2 w1 = Ok (tt, w1).
Proof.
  eexists. split; [vm_compute; reflexivity|].
  eapply (Detach_twice content_process 2 one_tab). vm_compute. reflexivity.
Defined.

(** *** Messages to the parent process *)

Lemma Detach_sent env this w u w' :
  Detach env this w = Ok (u, w') →
  ∃ c, heap w !! this = Some c ∧
    sent w' = sent w ++
      if isInList this w && XRE_IsContentProcess env
      then [DetachBrowsingContext (mBrowsingContextId c)] else [].
Proof.
  unfold Detach. intros H.
  apply bind_Ok in H as (u1 & wa & Ha & H).
  pose proof (AddRef_same_tree _ _ _ _ Ha) as Hsa.
  apply AddRef_inv in Ha as (c & Hc & Ea). exists c. split; [done|].
  assert (Hma : sent wa = sent w) by (by subst wa).
  assert (Hca : heap wa !! this =
                Some (set_mRefCnt (wrap_nsrefcnt (mRefCnt c + 1)) c)).
  { subst wa. cbn. apply lookup_insert_eq. }
  clear Ea.
  apply bind_Ok in H as (b & w1 & Hg & H). apply gets_inv in Hg as [-> ->].
  rewrite (isInList_same_tree this _ _ Hsa) in H.
  apply bind_Ok in H as (u2 & w2 & Hb & H).
  apply Release_inv in H as (c2 & Hc2 & ->). cbn [sent with_heap].
  destruct (isInList this w); cbn [negb andb] in *.
  - apply bind_Ok in Hb as (u3 & w3 & Hr & Hb).
    unfold remove in Hr. apply bind_Ok in Hr as (u4 & w4 & Hm & Hr).
    apply modify_inv in Hm as ->. apply Release_inv in Hr as (c3 & Hc3 & ->).
    cbn [heap] in Hc3. rewrite lookup_fmap, Hca in Hc3. injection Hc3 as <-.
    destruct (XRE_IsContentProcess env); cbn [negb] in Hb.
    + apply bind_Ok in Hb as (c4 & w5 & Hl & Hb).
      apply load_context_inv in Hl as [Hl ->].
      cbn [heap with_heap] in Hl. rewrite lookup_insert_eq in Hl.
      injection Hl as <-. apply ContentChild_send_inv in Hb as [_ ->].
      cbn. by rewrite Hma.
    + apply ret_Ok in Hb. injection Hb as _ ->. cbn. by rewrite Hma, app_nil_r.
  - apply ret_Ok in Hb. injection Hb as _ ->. by rewrite Hma, app_nil_r.
Qed.

(** A context that is in no list is attached and then detached. In a
    content process the parent process is told of both, in that order: the
    attach message carries the identifier of the parent (0 for a root), the
    identifier and the name of the context, the detach message its
    identifier. In another process nothing is sent. Afterwards the context
    is in no list, and [Parent] still answers the parent it was attached
    under. *)
Theorem Attach_then_Detach_tells_the_parent_process env this aParent w c :
  heap w !! this = Some c →
  isInList this w = false →
  collection_exists w aParent →
  (XRE_IsContentProcess env = true → ContentChild_singleton w = true) →
  ∃ w1 w2,
    Attach env this aParent w = Ok (tt, w1) ∧
    Detach env this w1 = Ok (tt, w2) ∧
    sent w1 = sent w ++
      (if XRE_IsContentProcess env
       then [AttachBrowsingContext
               match aParent with
               | Some parent =>
                 default 0%Z (mBrowsingContextId <$> heap w !! parent)
               | None => 0%Z
               end (mBrowsingContextId c) (mName c)]
       else []) ∧
    sent w2 = sent w1 ++
      (if XRE_IsContentProcess env
       then [DetachBrowsingContext (mBrowsingContextId c)] else []) ∧
    isInList this w2 = false ∧
    Parent this w2 = Ok (aParent, w2).
Proof.
  intros Hc Hout Hcoll Hcc.
  destruct (Attach_run _ _ _ _ _ Hc Hout Hcoll Hcc) as (w1 & Hattach & H1).
  destruct (Attach_inv _ _ _ _ _ _ Hattach Hout)
    as (_ & _ & c1 & Hc1 & Hh & _ & _ & Hcs & Hsent).
  cbv zeta in Hh, Hsent.
  destruct (Attach_contexts _ _ _ _ _ _ Hattach Hout) as (Hq & Hr & _ & _ & _).
  (* the context after the attach *)
  pose proof (Hq this) as Hthis. rewrite Hc in Hthis.
  destruct (heap w1 !! this) as [c1'|] eqn:Hc1'; [|done].
  destruct Hthis as (Eid & Epar & _). rewrite decide_True in Epar by done.
  assert (Hin : isInList this w1 = true).
  { destruct aParent as [parent|].
    - destruct Hcoll as [cp Hcp]. specialize (Hq parent). rewrite Hcp in Hq.
      destruct (heap w1 !! parent) as [cp'|] eqn:Hcp'; [|done].
      destruct Hq as (_ & _ & Hk). rewrite decide_True in Hk by done.
      eapply isInList_true; [exact Hcp'|]. rewrite Hk.
      apply elem_of_app. right. by apply list_elem_of_singleton.
    - destruct Hcoll as [l Hl]. rewrite Hl in Hr.
      eapply isInList_true_root; [exact Hr|].
      apply elem_of_app. right. by apply list_elem_of_singleton. }
  assert (Hcc1 : XRE_IsContentProcess env = true → ContentChild_singleton w1 = true).
  { intros Hp. rewrite Hcs. by apply Hcc. }
  destruct (Detach_run _ _ _ _ Hc1' Hin Hcc1) as (w2 & Hdetach & _).
  exists w1, w2. split; [done|]. split; [done|].
  (* what the inserted store holds at [this] and at the parent *)
  assert (Ec1 : mBrowsingContextId c1 = mBrowsingContextId c ∧ mName c1 = mName c).
  { unfold inserted in Hc1. destruct aParent as [parent|].
    - destruct Hcoll as [cp Hcp]. rewrite Hcp in Hc1. cbn in Hc1.
      rewrite lookup_insert in Hc1. case_decide as E.
      + subst parent. injection Hc1 as <-. rewrite Hcp in Hc.
        by injection Hc as ->.
      + rewrite Hc in Hc1. by injection Hc1 as <-.
    - cbn in Hc1. rewrite Hc in Hc1. by injection Hc1 as <-. }
  destruct Ec1 as [Ei En]. split.
  { rewrite Hsent. destruct (XRE_IsContentProcess env); [|done].
    rewrite Ei, En. do 3 f_equal.
    destruct aParent as [parent|]; [|done].
    specialize (Hq parent). rewrite <- Hh.
    destruct (heap w !! parent) as [cp|], (heap w1 !! parent) as [cp'|];
      try done.
    destruct Hq as (Hq & _). cbn. by rewrite Hq. }
  destruct (Detach_sent _ _ _ _ _ Hdetach) as (c1'' & Hc1'' & Hsent2).
  rewrite Hc1' in Hc1''. injection Hc1'' as <-. rewrite Hin in Hsent2.
  split; [by rewrite Hsent2, Eid|].
  destruct (Detach_after _ _ _ _ _ Hdetach)
    as (Hout2 & c3 & c4 & Hc3 & Hc4 & _ & E34 & Hpar).
  split; [done|]. rewrite Hc1' in Hc3. injection Hc3 as <-.
  by rewrite Epar in Hpar.
Qed.

Lemma Attach_then_Detach_tells_the_parent_process_witness :
  ∃ w1 w2,
    Attach content_process 3 (Some 2) one_tab = Ok (tt, w1) ∧
    Detach content_process 3 w1 = Ok (tt, w2) ∧
    sent w1 = [AttachBrowsingContext 12 13 "new"] ∧
    sent w2 = sent w1 ++ [DetachBrowsingContext 13] ∧
    isInList 3 w2 = false ∧
    Parent 3 w2 = Ok (Some 2, w2).
Proof.
  apply (Attach_then_Detach_tells_the_parent_process content_process 3 (Some 2)
           one_tab (context 13 "new" None [] 1)).
  - vm_compute. reflexivity.
  - vm_compute. reflexivity.
  - vm_compute. eauto.
  - intros _. reflexivity.
Defined.

Lemma insertBack_run aParent this w c :
  heap w !! this = Some c → collection_exists w aParent →
  ∃ c1, heap (inserted w aParent this) !! this = Some c1 ∧
    insertBack aParent this w =
      Ok (tt, with_heap
                (<[this := set_mRefCnt (wrap_nsrefcnt (mRefCnt c1 + 1)) c1]>
                   (heap (inserted w aParent this)))
                (inserted w aParent this)).
Proof.
  intros Hc Hcoll. unfold insertBack, inserted, collection_exists in *.
  destruct aParent as [parent|].
  - destruct Hcoll as [cp Hcp]. rewrite Hcp.
    assert (∃ c1, <[parent := set_mChildren (mChildren cp ++ [this]) cp]>
                    (heap w) !! this = Some c1) as [c1 Hc1].
    { rewrite lookup_insert. case_decide; eauto. }
    exists c1. split; [done|].
    eapply bind_run.
    { eapply bind_run; [by apply load_run|]. reflexivity. }
    by apply AddRef_counts.
  - destruct Hcoll as [l Hl]. rewrite Hl. exists c. split; [done|].
    eapply bind_run.
    { eapply bind_run; [unfold roots; by rewrite Hl|]. reflexivity. }
    by apply AddRef_counts.
Qed.

Lemma ContentChild_send_null env m w :
  ContentChild_singleton w = false →
  ContentChild_send env m w =
    if diagnostic_asserts env then Abort MozDiagnosticAssert else Undefined.
Proof.
  intros H. unfold ContentChild_send, MOZ_DIAGNOSTIC_ASSERT.
  unfold mbind, comp_bind, bind, gets. rewrite H. cbn.
  by destruct (diagnostic_asserts env).
Qed.

(** In a content process without a [ContentChild] neither call returns:
    [Attach] of a context that is in no list and [Detach] of a context that
    is in a list stop at the diagnostic assertion where it is compiled, and
    call through the null pointer where it is not. *)
Theorem content_process_without_ContentChild env this that aParent w c d :
  XRE_IsContentProcess env = true →
  ContentChild_singleton w = false →
  heap w !! this = Some c → isInList this w = false →
  collection_exists w aParent →
  heap w !! that = Some d → isInList that w = true →
  Attach env this aParent w =
    (if diagnostic_asserts env then Abort MozDiagnosticAssert else Undefined) ∧
  Detach env that w =
    (if diagnostic_asserts env then Abort MozDiagnosticAssert else Undefined).
Proof.
  intros Hp Hcc Hc Hout Hcoll Hd Hin. split.
  - 
    destruct (insertBack_run aParent this w c Hc Hcoll) as (c1 & Hc1 & Hins).
    unfold Attach.
    eapply bind_run; [by apply load_run|].
    eapply bind_run; [reflexivity|]. rewrite Hout.
    eapply bind_run; [exact Hins|].
    eapply bind_run; [apply load_run; cbn [heap with_heap]; apply lookup_insert_eq|].
    eapply bind_run; [reflexivity|]. rewrite Hp. cbn [negb].
    assert (Hpid : ∃ pid wx,
              (match aParent with
               | Some parent => p ← load parent; mret (mBrowsingContextId p)
               | None => mret 0%Z
               end : Comp World Z)
                (with_heap
                   (<[this := set_mParent aParent
                                (set_mRefCnt (wrap_nsrefcnt (mRefCnt c1 + 1)) c1)]>
                      (heap (with_heap
                         (<[this := set_mRefCnt (wrap_nsrefcnt (mRefCnt c1 + 1)) c1]>
                            (heap (inserted w aParent this)))
                         (inserted w aParent this))))
                   (with_heap
                      (<[this := set_mRefCnt (wrap_nsrefcnt (mRefCnt c1 + 1)) c1]>
                         (heap (inserted w aParent this)))
                      (inserted w aParent this))) = Ok (pid, wx) ∧
              ContentChild_singleton wx = false).
    { destruct (inserted_statics w aParent this) as (_ & Es & _).
      destruct aParent as [parent|].
      - destruct Hcoll as [cp Hcp].
        assert (∃ cp', <[this := set_mParent (Some parent)
                                   (set_mRefCnt (wrap_nsrefcnt (mRefCnt c1 + 1)) c1)]>
                         (<[this := set_mRefCnt (wrap_nsrefcnt (mRefCnt c1 + 1)) c1]>
                            (heap (inserted w (Some parent) this))) !! parent =
                       Some cp') as [cp' Hcp'].
        { rewrite insert_insert_eq, lookup_insert. case_decide; [eauto|].
          unfold inserted. rewrite Hcp. cbn. rewrite lookup_insert_eq. eauto. }
        eexists _, _. split.
        + eapply bind_run; [apply load_run; cbn [heap with_heap]; exact Hcp'|].
          reflexivity.
        + cbn [ContentChild_singleton with_heap]. congruence.
      - eexists _, _. split; [reflexivity|].
        cbn [ContentChild_singleton with_heap]. congruence. }
    destruct Hpid as (pid & wx & Hpid & Hccx).
    eapply bind_run; [exact Hpid|]. by apply ContentChild_send_null.
  - clear c Hc Hout Hcoll. clear this. rename d into c, Hd into Hc, that into this.
    unfold Detach.
    eapply bind_run; [by apply AddRef_counts|].
    eapply bind_run; [reflexivity|].
    assert (isInList this
              (with_heap (<[this := set_mRefCnt (wrap_nsrefcnt (mRefCnt c + 1)) c]>
                            (heap w)) w) = true) as ->.
    { rewrite <- Hin. apply isInList_same_tree. by eapply same_tree_store. }
    cbn [negb]. unfold mbind at 1, comp_bind at 1, bind at 1.
    assert (Hrem : ∃ wr c',
              remove this
                (with_heap (<[this := set_mRefCnt (wrap_nsrefcnt (mRefCnt c + 1)) c]>
                              (heap w)) w) = Ok (tt, wr) ∧
              heap wr !! this = Some c' ∧ ContentChild_singleton wr = false).
    { eexists _, _. split; [|split].
      - unfold remove. eapply bind_run; [reflexivity|].
        apply Release_counts. cbn [heap with_heap].
        rewrite lookup_fmap, lookup_insert_eq. reflexivity.
      - cbn [heap with_heap]. apply lookup_insert_eq.
      - exact Hcc. }
    destruct Hrem as (wr & c' & Hrem & Hc' & Hccr).
    rewrite (bind_run _ _ _ _ _ _ Hrem eq_refl). rewrite Hp. cbn [negb].
    rewrite (bind_run _ _ _ _ _ _ (load_run _ _ _ Hc') eq_refl).
    rewrite ContentChild_send_null by done.
    by destruct (diagnostic_asserts env).
Qed.

Lemma content_process_without_ContentChild_witness :
  Attach content_process 3 (Some 2) no_ContentChild = Abort MozDiagnosticAssert ∧
  Detach content_process 2 no_ContentChild = Abort MozDiagnosticAssert.
Proof.
  apply (content_process_without_ContentChild content_process 3 2 (Some 2)
           no_ContentChild (context 13 "new" None [] 1)
           (context 12 "frame" (Some 1) [] 1));
    try (vm_compute; reflexivity).
  vm_compute. eauto.
Defined.

(** *** The destructor *)

Lemma isInList_constructed p w this c :
  heap w !! this = None → mChildren c = [] →
  isInList p (constructed w this c) = isInList p w.
Proof.
  intros Hnew Hkids. unfold isInList, constructed. cbn. f_equal.
  apply bool_decide_ext. rewrite !map_Exists_lookup.
  split; intros (q & cq & Hq & Hin).
  - rewrite lookup_insert in Hq. case_decide as E.
    + injection Hq as <-. rewrite Hkids in Hin. by apply elem_of_nil in Hin.
    + eauto.
  - exists q, cq. split; [|done]. rewrite lookup_insert_ne; [done|congruence].
Qed.

Lemma destructor_run env p w t c :
  sBrowsingContexts w = Some t → heap w !! p = Some c →
  destructor env p w =
    if diagnostic_asserts env && isInList p w then Abort MozDiagnosticAssert
    else Ok (tt, with_registry (Some (delete (mBrowsingContextId c) t)) w).
Proof.
  intros Ht Hc. unfold destructor.
  eapply bind_run; [by apply load_run|].
  eapply bind_run; [reflexivity|].
  unfold MOZ_DIAGNOSTIC_ASSERT. rewrite negb_involutive.
  destruct (diagnostic_asserts env && isInList p w); [reflexivity|].
  eapply bind_run; [reflexivity|].
  eapply bind_run; [unfold registry; by rewrite Ht|]. reflexivity.
Qed.

(** The body of the destructor stops at the diagnostic assertion, where
    that is compiled, when the context is still in a list.  Otherwise it
    returns, and the registry has no entry under the identifier of the
    context any more, whichever object was registered there: when a later
    constructor call has registered a new object under the same identifier,
    the new object loses its registration to the destruction of the old
    one, and [Get] returns null for the identifier on every store with that
    registry. *)
Theorem destructor_unregisters_by_identifier env p aName w t c :
  sBrowsingContexts w = Some t → heap w !! p = Some c →
  (diagnostic_asserts env && isInList p w = true →
   destructor env p w = Abort MozDiagnosticAssert) ∧
  (diagnostic_asserts env && isInList p w = false →
   (∃ w', destructor env p w = Ok (tt, w') ∧
          sBrowsingContexts w' = Some (delete (mBrowsingContextId c) t)) ∧
   ∃ this w1 w2 t2,
     new_BrowsingContext (mBrowsingContextId c) aName w = Ok (this, w1) ∧
     this ≠ p ∧
     (∃ n, heap w1 !! this = Some n ∧
           mBrowsingContextId n = mBrowsingContextId c) ∧
     destructor env p w1 = Ok (tt, w2) ∧
     sBrowsingContexts w2 = Some t2 ∧
     t2 !! mBrowsingContextId c = None ∧
     ∀ v, sBrowsingContexts v = Some t2 →
          Get (mBrowsingContextId c) v = Ok (None, v)).
Proof.
  intros Ht Hc. split.
  { intros Hin. rewrite (destructor_run _ _ _ _ _ Ht Hc). by rewrite Hin. }
  intros Hok. split.
  { eexists. split; [rewrite (destructor_run _ _ _ _ _ Ht Hc); by rewrite Hok|].
    reflexivity. }
  set (this := fresh (dom (heap w) ∪ {[0]})).
  set (n := {| mBrowsingContextId := mBrowsingContextId c; mParent := None;
               mChildren := []; mDocShell := None; mName := aName;
               mRefCnt := 0 |}).
  pose proof (fresh_unallocated w) as Hnew. fold this in Hnew.
  assert (Hne : this ≠ p) by congruence.
  exists this, (constructed w this n). eexists. eexists.
  split; [by apply (new_BrowsingContext_run _ _ _ t)|]. split; [done|].
  split; [|split; [|split; [|split]]].
  - exists n. split; [|done]. rewrite (constructed_registry _ _ _ _ Ht). cbn.
    apply lookup_insert_eq.
  - rewrite (destructor_run env p _ (<[mBrowsingContextId c := this]> t) c).
    + rewrite isInList_constructed by done. rewrite Hok. reflexivity.
    + by rewrite (constructed_registry _ _ _ _ Ht).
    + rewrite (constructed_registry _ _ _ _ Ht). cbn.
      by rewrite lookup_insert_ne.
  - reflexivity.
  - apply lookup_delete_eq.
  - intros v Hv. unfold Get.
    eapply bind_run; [unfold registry; by rewrite Hv|].
    by rewrite lookup_delete_eq.
Qed.

Lemma destructor_unregisters_by_identifier_witness :
  (∃ w', destructor content_process 3 one_tab = Ok (tt, w') ∧
         sBrowsingContexts w' =
           Some (delete 13%Z (<[11%Z := 1]> (<[12%Z := 2]> (<[13%Z := 3]> ∅))))) ∧
  ∃ this w1 w2 t2,
    new_BrowsingContext 13 "again" one_tab = Ok (this, w1) ∧
    this ≠ 3 ∧
    (∃ n, heap w1 !! this = Some n ∧ mBrowsingContextId n = 13%Z) ∧
    destructor content_process 3 w1 = Ok (tt, w2) ∧
    sBrowsingContexts w2 = Some t2 ∧
    t2 !! 13%Z = None ∧
    ∀ v, sBrowsingContexts v = Some t2 → Get 13 v = Ok (None, v).
Proof.
  destruct (destructor_unregisters_by_identifier content_process 3 "again"
              one_tab (<[11%Z := 1]> (<[12%Z := 2]> (<[13%Z := 3]> ∅)))
              (context 13 "new" None [] 1)) as [_ Hn];
    [vm_compute; reflexivity|vm_compute; reflexivity|].
  apply Hn. vm_compute. reflexivity.
Defined.

End BrowsingContextFacts.

(** ** docshell/base/RelatedContextSet.cpp *)

Module RelatedContextSetFacts.
Import RelatedContextSet.

(** The constructor, in one equation. *)
Lemma new_RelatedContextSet_run aUniqueID w :
  new_RelatedContextSet aUniqueID w =
    let this := fresh (dom (sets w) ∪ {[0]}) in
    let t := default ∅ (sKnownSets w) in
    match t !! int64_t aUniqueID with
    | Some _ => Abort MozReleaseAssert
    | None =>
      Ok (this,
          {| sets := <[this := {| mUniqueID := aUniqueID; mContexts := ∅;
                                  mRefCnt := 0 |}]> (sets w);
             sKnownSets := Some (<[int64_t aUniqueID := this]> t);
             sChromeSet := sChromeSet w;
             unsubscribed := unsubscribed w |})
    end.
Proof.
  unfold new_RelatedContextSet, mbind, comp_bind, bind, gets, store, modify.
  cbn. destruct (sKnownSets w) as [t|] eqn:Ht; cbn.
  - rewrite Ht. cbn. destruct (t !! int64_t aUniqueID) eqn:E; cbn.
    + reflexivity.
    + reflexivity.
  - rewrite lookup_empty. cbn. reflexivity.
Qed.

(** C6. The constructor aborts on the release assertion exactly when the
    table of known sets already has an entry for the identifier; with a
    fresh identifier it returns a new object, registered under it. *)
Theorem duplicate_identifier_aborts aUniqueID w :
  match known_as w aUniqueID with
  | Some _ => new_RelatedContextSet aUniqueID w = Abort MozReleaseAssert
  | None =>
    ∃ this w',
      new_RelatedContextSet aUniqueID w = Ok (this, w') ∧
      sets w !! this = None ∧
      sets w' !! this = Some {| mUniqueID := aUniqueID; mContexts := ∅;
                                mRefCnt := 0 |} ∧
      known_as w' aUniqueID = Some this
  end.
Proof.
  rewrite new_RelatedContextSet_run. unfold known_as. cbn zeta.
  destruct (sKnownSets w) as [t|]; cbn.
  - destruct (t !! int64_t aUniqueID); [reflexivity|].
    eexists _, _. split; [reflexivity|]. cbn. rewrite !lookup_insert_eq.
    split; [|done]. apply not_elem_of_dom.
    intros Hin. apply (is_fresh (dom (sets w) ∪ {[0]})). set_solver.
  - rewrite lookup_empty.
    eexists _, _. split; [reflexivity|]. cbn. rewrite !lookup_insert_eq.
    split; [|done]. apply not_elem_of_dom.
    intros Hin. apply (is_fresh (dom (sets w) ∪ {[0]})). set_solver.
Qed.

(** The destructor and the release of the object, in one equation. *)
Lemma delete_RelatedContextSet_run env this w s :
  sets w !! this = Some s →
  delete_RelatedContextSet env this w =
    if diagnostic_asserts env && negb (bool_decide (mContexts s = ∅))
    then Abort MozDiagnosticAssert
    else
      let after t :=
        {| sets := delete this (sets w);
           sKnownSets := t;
           sChromeSet := if bool_decide (sChromeSet w = Some this)
                         then None else sChromeSet w;
           unsubscribed := if XRE_IsContentProcess env
                           then unsubscribed w ++ [mUniqueID s]
                           else unsubscribed w |} in
      match sKnownSets w with
      | Some t =>
        if bool_decide (is_Some (t !! int64_t (mUniqueID s)))
        then Ok (tt, after (Some (delete (int64_t (mUniqueID s)) t)))
        else Abort MozReleaseAssert
      | None => Ok (tt, after None)
      end.
Proof.
  intros Hs.
  unfold delete_RelatedContextSet, destructor, mbind, comp_bind, bind, load.
  rewrite Hs. unfold MOZ_DIAGNOSTIC_ASSERT.
  destruct (diagnostic_asserts env && negb _); [reflexivity|]. cbn.
  destruct (sKnownSets w) as [t|] eqn:Ht; cbn.
  - destruct (bool_decide (is_Some (t !! int64_t (mUniqueID s)))); cbn;
      [|reflexivity].
    destruct (bool_decide (sChromeSet w = Some this)); cbn;
      destruct (XRE_IsContentProcess env); reflexivity.
  - destruct (bool_decide (sChromeSet w = Some this)); cbn;
      destruct (XRE_IsContentProcess env);
      unfold modify, with_sets, with_sChromeSet; cbn; rewrite ?Ht; reflexivity.
Qed.


(** *** The table and the store agree until shutdown *)

Lemma table_matches_initial : table_matches initial.
Proof.
  split.
  - intros p s H. cbn in H. by rewrite lookup_empty in H.
  - intros p s H. cbn in H. by rewrite lookup_empty in H.
  - intros t k p H. discriminate.
Qed.

Lemma table_matches_ext w w' :
  sets w' = sets w → sKnownSets w' = sKnownSets w →
  table_matches w → table_matches w'.
Proof.
  intros Hs Ht [E C S]. split.
  - intros p s H. rewrite Hs in H. rewrite Ht. eauto.
  - intros p s H. rewrite Hs in H. destruct (C p s H) as (t & H1 & H2).
    exists t. by rewrite Ht.
  - intros t k p H1 H2. rewrite Ht in H1. rewrite Hs. eauto.
Qed.

Lemma table_matches_store w p s s' :
  table_matches w → sets w !! p = Some s → mUniqueID s' = mUniqueID s →
  table_matches (with_sets (<[p := s']> (sets w)) w).
Proof.
  intros [E C S] Hp Hid. unfold known in *. split; unfold known; cbn.
  - intros q sq _. eauto.
  - intros q sq. rewrite lookup_insert. case_decide as Eq.
    + intros Heq. injection Heq as Heq. subst q sq. rewrite Hid. eauto.
    + eauto.
  - intros t k q Ht Hk. destruct (S t k q Ht Hk) as (sq & Hq & Hkey).
    destruct (decide (q = p)) as [->|Hne].
    + exists s'. rewrite lookup_insert_eq. split; [done|]. congruence.
    + exists sq. by rewrite lookup_insert_ne.
Qed.

Lemma fresh_address_unused (w : World) :
  sets w !! fresh (dom (sets w) ∪ {[0]}) = None.
Proof.
  apply not_elem_of_dom. intros Hin.
  apply (is_fresh (dom (sets w) ∪ {[0]})). set_solver.
Qed.

Lemma table_matches_new aUniqueID w this w' :
  table_matches w →
  new_RelatedContextSet aUniqueID w = Ok (this, w') →
  table_matches w' ∧ mUniqueID <$> sets w' !! this = Some aUniqueID.
Proof.
  intros [E C S]. rewrite new_RelatedContextSet_run. cbn zeta.
  destruct (default ∅ (sKnownSets w) !! int64_t aUniqueID) eqn:Hfree;
    [discriminate|].
  intros [= <- <-]. pose proof (fresh_address_unused w) as Hfresh.
  set (this := fresh (dom (sets w) ∪ {[0]})) in *.
  split; [|cbn; by rewrite lookup_insert_eq].
  unfold known in *. split; unfold known; cbn.
  - eauto.
  - intros q sq. rewrite lookup_insert. case_decide as Eq.
    + intros [= <-]. subst q. eexists. split; [done|]. cbn.
      apply lookup_insert_eq.
    + intros Hq. destruct (C q sq Hq) as (t & Ht & Hk). rewrite Ht in *.
      cbn in *. eexists. split; [done|]. rewrite lookup_insert_ne; [done|].
      intros Hsame. rewrite Hsame in Hfree. congruence.
  - intros t k q [= <-]. rewrite lookup_insert. case_decide as Ek.
    + intros [= <-]. eexists. rewrite lookup_insert_eq. done.
    + intros Hk. destruct (sKnownSets w) as [t0|] eqn:Ht; cbn in Hk;
        [|by rewrite lookup_empty in Hk].
      destruct (S t0 k q eq_refl Hk) as (sq & Hq & Hkey).
      exists sq. rewrite lookup_insert_ne; [done|]. intros <-. congruence.
Qed.

Lemma table_matches_delete env this w s w' :
  table_matches w →
  sets w !! this = Some s →
  delete_RelatedContextSet env this w = Ok (tt, w') →
  table_matches w' ∧ sets w' = delete this (sets w) ∧
  ∃ t, sKnownSets w = Some t ∧
       sKnownSets w' = Some (delete (int64_t (mUniqueID s)) t).
Proof.
  intros [E C S] Hs. rewrite (delete_RelatedContextSet_run _ _ _ _ Hs).
  destruct (diagnostic_asserts env && negb _); [discriminate|]. cbn zeta.
  destruct (C _ _ Hs) as (t & Ht & Hk). rewrite Ht.
  destruct (bool_decide (is_Some (t !! int64_t (mUniqueID s))));
    [|discriminate].
  intros [= <-]. split; [|split; [done|eauto]].
  unfold known in *. split; unfold known; cbn.
  - eauto.
  - intros q sq. rewrite lookup_delete. case_decide as Eq; [done|].
    intros Hq. destruct (C q sq Hq) as (t0 & Ht0 & Hk0).
    rewrite Ht in Ht0. injection Ht0 as <-.
    eexists. split; [done|]. rewrite lookup_delete_ne; [done|].
    intros Hsame. rewrite Hsame in Hk. congruence.
  - intros t0 k q [= <-]. rewrite lookup_delete. case_decide as Ek; [done|].
    intros Hq. destruct (S t k q Ht Hq) as (sq & Hsq & Hkey).
    exists sq. split; [|done]. rewrite lookup_delete_ne; [done|].
    intros <-. rewrite Hs in Hsq. injection Hsq as <-. done.
Qed.

Lemma load_set_Ok p w r :
  load p w = Ok r ↔ ∃ s, sets w !! p = Some s ∧ r = (s, w).
Proof.
  unfold load. destruct (sets w !! p) as [s|]; split.
  - intros [= <-]. eauto.
  - intros (s' & [= <-] & ->). done.
  - discriminate.
  - intros (s' & [=] & _).
Qed.

Lemma table_matches_step env op w w' :
  table_matches w → op ≠ OpShutdown →
  run_op env op w = Ok (tt, w') → table_matches w'.
Proof.
  intros Hm Hop H. destruct op as [aUniqueID|generated|this ctx|this ctx|this|];
    cbn [run_op] in H; [| | | | |done].
  - apply bind_Ok in H as (this & w1 & Hnew & Hret).
    apply ret_Ok in Hret. injection Hret as <-.
    by destruct (table_matches_new _ _ _ _ Hm Hnew).
  - apply bind_Ok in H as (this & w1 & Hchrome & Hret).
    apply ret_Ok in Hret. injection Hret as <-.
    unfold ChromeContextSet in Hchrome.
    apply bind_Ok in Hchrome as ([] & w0 & Hassert & H).
    unfold MOZ_RELEASE_ASSERT in Hassert.
    destruct (XRE_IsParentProcess env); [|discriminate].
    injection Hassert as <-.
    apply bind_Ok in H as (chrome & w0' & Hg & H). injection Hg as <- <-.
    apply bind_Ok in H as (p & w2 & Hp & H).
    assert (Hm2 : table_matches w2).
    { destruct (sChromeSet w) as [q|].
      - apply ret_Ok in Hp. by injection Hp as <- <-.
      - apply bind_Ok in Hp as (q & w3 & Hnew & Hp).
        apply bind_Ok in Hp as ([] & w4 & Hmod & Hp).
        apply ret_Ok in Hp. injection Hp as <- <-. injection Hmod as <-.
        destruct (table_matches_new _ _ _ _ Hm Hnew) as [Hm3 _].
        by apply (table_matches_ext w3). }
    apply bind_Ok in H as (s & w2' & Hl & H).
    apply load_set_Ok in Hl as (s' & Hs & [= -> ->]).
    apply bind_Ok in H as ([] & w5 & Hst & H).
    apply ret_Ok in H. injection H as <- <-. injection Hst as <-.
    by eapply table_matches_store.
  - unfold AddContext in H. apply bind_Ok in H as (s & w0 & Hl & H).
    apply load_set_Ok in Hl as (s' & Hs & [= -> ->]).
    injection H as <-. by eapply table_matches_store.
  - unfold RemoveContext in H. apply bind_Ok in H as (s & w0 & Hl & H).
    apply load_set_Ok in Hl as (s' & Hs & [= -> ->]).
    injection H as <-. by eapply table_matches_store.
  - destruct (sets w !! this) as [s|] eqn:Hs.
    + by destruct (table_matches_delete _ _ _ _ _ Hm Hs H).
    + unfold delete_RelatedContextSet, destructor, mbind, comp_bind, bind,
        load in H. by rewrite Hs in H.
Qed.

Lemma running_table_matches env w : running env w → table_matches w.
Proof.
  induction 1 as [|w op w' _ IH Hop Hstep].
  - apply table_matches_initial.
  - by eapply table_matches_step.
Qed.



(** *** The chrome set *)

Lemma ChromeContextSet_existing env generated w p s :
  XRE_IsParentProcess env = true →
  sChromeSet w = Some p →
  sets w !! p = Some s →
  ChromeContextSet env generated w =
    Ok (p, with_sets (<[p := set_mRefCnt (wrap_nsrefcnt (mRefCnt s + 1)) s]>
                        (sets w)) w).
Proof.
  intros Hparent Hchrome Hp. unfold ChromeContextSet.
  eapply bind_run; [unfold MOZ_RELEASE_ASSERT; by rewrite Hparent|].
  eapply bind_run; [reflexivity|]. rewrite Hchrome.
  eapply bind_run; [reflexivity|].
  eapply bind_run; [unfold load; by rewrite Hp|].
  eapply bind_run; [reflexivity|]. reflexivity.
Qed.

Lemma ChromeContextSet_first env generated w :
  XRE_IsParentProcess env = true →
  sChromeSet w = None →
  known_as w generated = None →
  let this := fresh (dom (sets w) ∪ {[0]}) in
  ChromeContextSet env generated w =
    Ok (this,
        {| sets := <[this := {| mUniqueID := generated; mContexts := ∅;
                                mRefCnt := wrap_nsrefcnt (0 + 1) |}]> (sets w);
           sKnownSets := Some (<[int64_t generated := this]>
                                 (default ∅ (sKnownSets w)));
           sChromeSet := Some this;
           unsubscribed := unsubscribed w |}).
Proof.
  intros Hparent Hchrome Hfree this. unfold ChromeContextSet.
  eapply bind_run; [unfold MOZ_RELEASE_ASSERT; by rewrite Hparent|].
  eapply bind_run; [reflexivity|]. rewrite Hchrome.
  assert (Hnew : new_RelatedContextSet generated w =
                 Ok (this,
                     {| sets := <[this := {| mUniqueID := generated;
                                             mContexts := ∅; mRefCnt := 0 |}]>
                                  (sets w);
                        sKnownSets := Some (<[int64_t generated := this]>
                                              (default ∅ (sKnownSets w)));
                        sChromeSet := sChromeSet w;
                        unsubscribed := unsubscribed w |})).
  { rewrite new_RelatedContextSet_run. cbn zeta. unfold known_as in Hfree.
    destruct (sKnownSets w) as [t|]; cbn in *.
    - by rewrite Hfree.
    - by rewrite lookup_empty. }
  eapply bind_run.
  - eapply bind_run; [exact Hnew|].
    eapply bind_run; [reflexivity|]. reflexivity.
  - eapply bind_run; [unfold load; cbn; by rewrite lookup_insert_eq|].
    eapply bind_run; [reflexivity|].
    unfold mret, comp_ret, ret, with_sets, with_sChromeSet. cbn.
    by rewrite insert_insert_eq.
Qed.

(** [ChromeContextSet] hands out one set: in the parent process the first
    call makes it, every later call returns the same object and only counts
    a reference.  Outside the parent process the call aborts. *)
Theorem ChromeContextSet_is_a_singleton env g1 g2 w :
  (XRE_IsParentProcess env = false →
   ChromeContextSet env g1 w = Abort MozReleaseAssert) ∧
  (XRE_IsParentProcess env = true →
   chrome_live w →
   (sChromeSet w = None → known_as w g1 = None) →
   ∃ p w1 w2 s1,
     ChromeContextSet env g1 w = Ok (p, w1) ∧
     ChromeContextSet env g2 w1 = Ok (p, w2) ∧
     sChromeSet w1 = Some p ∧ sChromeSet w2 = Some p ∧
     sets w1 !! p = Some s1 ∧
     sets w2 = <[p := set_mRefCnt (wrap_nsrefcnt (mRefCnt s1 + 1)) s1]> (sets w1) ∧
     sKnownSets w2 = sKnownSets w1).
Proof.
  split.
  - intros Hproc. unfold ChromeContextSet, mbind, comp_bind, bind,
      MOZ_RELEASE_ASSERT. by rewrite Hproc.
  - intros Hparent Hlive Hfree.
    destruct (sChromeSet w) as [p|] eqn:Hchrome.
    + destruct (Hlive p Hchrome) as [s Hs].
      eexists p, _, _, _.
      split; [by apply ChromeContextSet_existing|].
      split; [apply ChromeContextSet_existing; [done|done|]|].
      { cbn. apply lookup_insert_eq. }
      cbn. rewrite lookup_insert_eq. done.
    + specialize (Hfree eq_refl).
      pose proof (ChromeContextSet_first env g1 w Hparent Hchrome Hfree) as H1.
      cbn zeta in H1. eexists _, _, _, _.
      split; [exact H1|].
      split; [apply ChromeContextSet_existing; [done|reflexivity|]|].
      { cbn. apply lookup_insert_eq. }
      cbn. rewrite lookup_insert_eq. done.
Qed.

Lemma ChromeContextSet_is_a_singleton_witness :
  ∃ p w1 w2,
    ChromeContextSet nightly_parent 5 initial = Ok (p, w1) ∧
    ChromeContextSet nightly_parent 6 w1 = Ok (p, w2) ∧
    sChromeSet w2 = Some p.
Proof.
  destruct (proj2 (ChromeContextSet_is_a_singleton nightly_parent 5 6 initial))
    as (p & w1 & w2 & s1 & H1 & H2 & _ & H3 & _);
    [reflexivity|intros p Hp; discriminate|reflexivity|].
  exists p, w1, w2. done.
Defined.

Lemma chrome_live_store w p s s' :
  chrome_live w → sets w !! p = Some s →
  chrome_live (with_sets (<[p := s']> (sets w)) w).
Proof.
  intros Hlive Hp q Hq. cbn in *. rewrite lookup_insert.
  case_decide; [eauto|]. by apply Hlive.
Qed.

Lemma chrome_step env op w w' :
  run_op env op w = Ok (tt, w') →
  (chrome_live w → chrome_live w') ∧
  (XRE_IsParentProcess env = false → sChromeSet w = None → sChromeSet w' = None).
Proof.
  intros H. destruct op as [aUniqueID|generated|this ctx|this ctx|this|];
    cbn [run_op] in H.
  - apply bind_Ok in H as (this & w1 & Hnew & Hret).
    apply ret_Ok in Hret. injection Hret as <-.
    rewrite new_RelatedContextSet_run in Hnew. cbn zeta in Hnew.
    destruct (default ∅ (sKnownSets w) !! int64_t aUniqueID); [discriminate|].
    injection Hnew as <- <-. split; [|done].
    intros Hlive q Hq. cbn in *. rewrite lookup_insert.
    case_decide; [eauto|]. by apply Hlive.
  - apply bind_Ok in H as (p & w1 & Hchrome & Hret).
    apply ret_Ok in Hret. injection Hret as <-.
    destruct (XRE_IsParentProcess env) eqn:Hparent.
    2: { unfold ChromeContextSet, mbind, comp_bind, bind, MOZ_RELEASE_ASSERT
           in Hchrome. by rewrite Hparent in Hchrome. }
    split; [|done]. intros Hlive.
    unfold ChromeContextSet in Hchrome.
    apply bind_Ok in Hchrome as ([] & w0 & Ha & H).
    unfold MOZ_RELEASE_ASSERT in Ha. rewrite Hparent in Ha. injection Ha as <-.
    apply bind_Ok in H as (chrome & w0' & Hg & H). injection Hg as <- <-.
    apply bind_Ok in H as (x & w2 & Hx & H).
    apply bind_Ok in H as (s & w3 & Hl & H).
    apply load_set_Ok in Hl as (s' & Hs & [= -> ->]).
    apply bind_Ok in H as ([] & w4 & Hst & H).
    apply ret_Ok in H. injection H as <- <-. injection Hst as <-.
    intros y Hy. cbn in *. rewrite lookup_insert. case_decide; [eauto|].
    destruct (sChromeSet w) as [z|] eqn:Hz.
    + apply ret_Ok in Hx. injection Hx as <- <-.
      apply Hlive. by rewrite <- Hy.
    + apply bind_Ok in Hx as (z & w5 & _ & Hx).
      apply bind_Ok in Hx as ([] & w6 & Hm & Hx).
      apply ret_Ok in Hx. injection Hx as <- <-. injection Hm as <-.
      cbn in Hy. injection Hy as <-. congruence.
  - unfold AddContext in H. apply bind_Ok in H as (s & w0 & Hl & H).
    apply load_set_Ok in Hl as (s' & Hs & [= -> ->]).
    injection H as <-. split; [|done]. intros Hlive.
    by eapply chrome_live_store.
  - unfold RemoveContext in H. apply bind_Ok in H as (s & w0 & Hl & H).
    apply load_set_Ok in Hl as (s' & Hs & [= -> ->]).
    injection H as <-. split; [|done]. intros Hlive.
    by eapply chrome_live_store.
  - destruct (sets w !! this) as [s|] eqn:Hs.
    2: { unfold delete_RelatedContextSet, destructor, mbind, comp_bind, bind,
           load in H. by rewrite Hs in H. }
    rewrite (delete_RelatedContextSet_run _ _ _ _ Hs) in H.
    destruct (diagnostic_asserts env && negb _); [discriminate|].
    cbn zeta in H.
    assert (Hshape : sets w' = delete this (sets w) ∧
              sChromeSet w' = if bool_decide (sChromeSet w = Some this)
                              then None else sChromeSet w).
    { destruct (sKnownSets w) as [t|].
      - destruct (bool_decide (is_Some _)); [|discriminate].
        by injection H as <-.
      - by injection H as <-. }
    destruct Hshape as [Hsets Hchrome]. split.
    + intros Hlive q Hq. rewrite Hchrome in Hq. rewrite Hsets.
      case_bool_decide as E; [discriminate|].
      rewrite lookup_delete_ne by congruence. by apply Hlive.
    + intros _ Hnone. rewrite Hchrome, Hnone. by case_bool_decide.
  - injection H as <-. split; [|done]. intros Hlive q Hq. by apply Hlive.
Qed.

(** [sChromeSet] never dangles: whatever a process does with its sets,
    shutdown included, the pointer is null or names a set that is there
    (the destructor of the chrome set clears it).  Outside the parent
    process it stays null. *)
Theorem sChromeSet_never_dangles env ops w :
  run env ops initial = Ok (tt, w) →
  chrome_live w ∧ (XRE_IsParentProcess env = false → sChromeSet w = None).
Proof.
  unfold run.
  assert (Hgen : ∀ ops v,
            chrome_live v ∧
              (XRE_IsParentProcess env = false → sChromeSet v = None) →
            for_each (run_op env) ops v = Ok (tt, w) →
            chrome_live w ∧
              (XRE_IsParentProcess env = false → sChromeSet w = None)).
  { clear ops. induction ops as [|op ops IH]; intros v Hv H; cbn [for_each] in H.
    - by injection H as <-.
    - unfold bind in H.
      destruct (run_op env op v) as [[[] v1]| | |] eqn:E; try discriminate.
      destruct (chrome_step _ _ _ _ E) as [Hlive Hnone].
      apply (IH v1); [|done]. destruct Hv as [Hv1 Hv2]. split; auto. }
  apply Hgen. split; [intros p Hp; discriminate|done].
Qed.

Lemma sChromeSet_never_dangles_witness :
  ∃ w, run nightly_parent [OpChromeContextSet 5; OpDelete 1] initial =
         Ok (tt, w) ∧
       chrome_live w ∧ sChromeSet w = None.
Proof.
  eexists. split; [vm_compute; reflexivity|]. split; [|reflexivity].
  refine (proj1 (sChromeSet_never_dangles nightly_parent
                   [OpChromeContextSet 5; OpDelete 1] _ _)).
  vm_compute. reflexivity.
Defined.

(** *** Identifiers *)

(** The sets of a process have different identifiers until shutdown: two
    sets that are there under the same key are one set. *)
Theorem known_sets_have_distinct_identifiers env w p q s s' :
  running env w →
  sets w !! p = Some s →
  sets w !! q = Some s' →
  int64_t (mUniqueID s) = int64_t (mUniqueID s') →
  p = q.
Proof.
  intros Hrun Hp Hq Hkey. pose proof (running_table_matches _ _ Hrun) as Hm.
  destruct (table_complete _ Hm _ _ Hp) as (t & Ht & Hk).
  destruct (table_complete _ Hm _ _ Hq) as (t' & Ht' & Hk').
  rewrite Ht in Ht'. injection Ht' as <-. congruence.
Qed.

Lemma known_sets_have_distinct_identifiers_witness :
  ∃ w, run nightly_parent [OpNew 7; OpNew 8] initial = Ok (tt, w) ∧
       ∀ p q s s', sets w !! p = Some s → sets w !! q = Some s' →
                   int64_t (mUniqueID s) = int64_t (mUniqueID s') → p = q.
Proof.
  eexists. split; [vm_compute; reflexivity|].
  intros p q s s'.
  apply (known_sets_have_distinct_identifiers nightly_parent).
  eapply running_step; [eapply running_step; [apply running_initial| |]| |].
  - instantiate (1 := OpNew 7). discriminate.
  - vm_compute. reflexivity.
  - instantiate (1 := OpNew 8). discriminate.
  - vm_compute. reflexivity.
Defined.

End RelatedContextSetFacts.

(** ** The subscription handshake *)

Module ContextGroupFacts.
Import ContextGroup.

(** No transition of a group lowers its epoch. *)
Lemma epoch_never_decreases g ackEpoch success :
  (epoch g ≤ epoch (RegisterContextRef g))%Z ∧
  epoch (UnregisterContextRef g).1 = epoch g ∧
  epoch (RecvUnsubscribeAck g ackEpoch success) = epoch g.
Proof.
  unfold RegisterContextRef, UnregisterContextRef, RecvUnsubscribeAck.
  repeat split.
  - destruct (subscription g); cbn; lia.
  - by destruct (pred (live g)).
  - by destruct (success && _).
Qed.

(** C4. The increment of the epoch that aborts a pending unsubscription
    strictly increases the epoch (and returns the group to Subscribed); an
    acknowledgement is accepted only with the group's current epoch, so one
    with a smaller epoch is discarded and the group stays as it is. *)
Theorem epoch_increases_and_stale_ack_is_discarded g ackEpoch success :
  (subscription g = UnsubscribePending →
   epoch (RegisterContextRef g) = (epoch g + 1)%Z ∧
   (epoch g < epoch (RegisterContextRef g))%Z ∧
   subscription (RegisterContextRef g) = Subscribed) ∧
  ((ackEpoch < epoch g)%Z → RecvUnsubscribeAck g ackEpoch success = g) ∧
  (accepted g ackEpoch success → ackEpoch = epoch g ∧ success = true).
Proof.
  split; [|split].
  - intros Hp. unfold RegisterContextRef. rewrite Hp. cbn.
    split; [done|]. split; [lia|done].
  - intros Hlt. unfold RecvUnsubscribeAck.
    rewrite bool_decide_eq_false_2 by lia. by rewrite andb_false_r.
  - unfold accepted, RecvUnsubscribeAck. intros Hacc.
    destruct success; [|done]. cbn in Hacc.
    case_bool_decide; [done|]. by destruct Hacc.
Qed.

Lemma epoch_increases_and_stale_ack_is_discarded_witness :
  let g := {| groupId := 9; subscription := UnsubscribePending;
              epoch := 1; live := 0 |} in
  epoch (RegisterContextRef g) = 2%Z ∧
  RecvUnsubscribeAck (RegisterContextRef g) 1 true = RegisterContextRef g.
Proof.
  intros g. split.
  - exact (proj1 (proj1 (epoch_increases_and_stale_ack_is_discarded g 1 true)
                    eq_refl)).
  - apply (proj1 (proj2 (epoch_increases_and_stale_ack_is_discarded
                           (RegisterContextRef g) 1 true))).
    reflexivity.
Defined.

(** An acknowledgement for the request that a new reference overtook finds
    a larger epoch and is discarded. *)
Lemma overtaken_ack_is_discarded g success :
  subscription g = UnsubscribePending →
  RecvUnsubscribeAck (RegisterContextRef g) (epoch g) success =
    RegisterContextRef g.
Proof.
  intros Hp. unfold RecvUnsubscribeAck, RegisterContextRef. rewrite Hp. cbn.
  rewrite bool_decide_eq_false_2 by lia. by rewrite andb_false_r.
Qed.

End ContextGroupFacts.
